(** * kindship-cli: the execution lifecycle, the Process driver and the
      output extractor, embedded from the Go sources

    The development follows the layout of the repository:
    - [errors]      Go error values as they are built in [cmd] and [executor];
    - [gostrings]   the functions of package [strings] that
                    [validator.ExtractJSONFromOutput] calls, on byte strings;
    - [json]        a model of [encoding/json.Unmarshal] into
                    [map[string]interface{}];
    - [api]         the records of [internal/api/models.go];
    - [world]       everything outside the process (HTTP API, subprocesses,
                    the shutdown signal, the clock) as oracles on a world;
    - [executor]    [internal/executor]: [limitedWriter], the copy of a
                    subprocess stream into it, and the three backends;
    - [validator]   [internal/validator/schema.go];
    - [cmd]         [cmd/run.go]: [executeEntity] and [runProcessExecution];
    - [recovery]    the resumption of recovered runs in [cmd/agent.go], as
                    interleavings of atomic steps;
    - [fake]        a small API server and subprocesses to run the above on.
    The properties follow the definitions, in the same order.

    Go [int] is modelled by [Z] (the values that occur are lengths, exit codes
    and counters, far from the 64-bit bounds), Go [string] by [string] (a
    sequence of bytes), [[]byte] by [list byte]. Logging is left out: the
    logger is written to and never read. *)

From Stdlib Require Import ZArith Strings.String Strings.Ascii Strings.Byte Bool Lia.
From Stdlib Require Import Numbers.DecimalString.
From stdpp Require Import base list strings gmap.

Local Open Scope Z_scope.

(** ** Go error values *)

Module errors.

(** Errors are compared by identity in Go. The only identity the code tests
    is the package-level sentinel [cmd.ErrAskUserSkipped]; every other
    error is a fresh value, written [Errorf], or wraps one with [%w]. *)
Inductive error : Type :=
| ErrAskUserSkipped
| Errorf (msg : string)
| Wrapf (prefix : string) (inner : error).

(** [err.Error()]; every wrapping format in the sources is ["prefix: %w"]. *)
Fixpoint Error (e : error) : string :=
  match e with
  | ErrAskUserSkipped => "ASK_USER task started, awaiting user response"
  | Errorf msg => msg
  | Wrapf prefix inner => prefix +:+ ": " +:+ Error inner
  end.

(** [errors.Is(e, ErrAskUserSkipped)]: walks the [%w] chain. *)
Fixpoint IsAskUserSkipped (e : error) : bool :=
  match e with
  | ErrAskUserSkipped => true
  | Errorf _ => false
  | Wrapf _ inner => IsAskUserSkipped inner
  end.

(** [%d] of an [int]. *)
Definition itoa (n : Z) : string := NilZero.string_of_int (Z.to_int n).

End errors.
Export errors.

(** ** Byte strings: the part of package [strings] used by the extractor *)

Module gostrings.

(** [len(s)] *)
Definition len (s : string) : Z := Z.of_nat (String.length s).

(** [s[n:]] for [0 <= n <= len(s)] *)
Fixpoint drop_str (n : nat) (s : string) : string :=
  match n, s with
  | O, _ => s
  | S n', String _ s' => drop_str n' s'
  | S _, EmptyString => EmptyString
  end.

(** [s[:n]] for [0 <= n <= len(s)] *)
Fixpoint take_str (n : nat) (s : string) : string :=
  match n, s with
  | O, _ => EmptyString
  | S n', String c s' => String c (take_str n' s')
  | S _, EmptyString => EmptyString
  end.

(** [s[i:j]]; the uses in the sources are in range by construction. *)
Definition slice (s : string) (i j : Z) : string :=
  take_str (Z.to_nat (j - i)) (drop_str (Z.to_nat i) s).

(** [strings.HasPrefix(s, p)] *)
Fixpoint HasPrefix (s p : string) : bool :=
  match p, s with
  | EmptyString, _ => true
  | String a p', String b s' => if Ascii.eqb a b then HasPrefix s' p' else false
  | String _ _, EmptyString => false
  end.

(** [strings.Index(s, sub)] as an offset from the start, [None] for -1. *)
Fixpoint index_from (s sub : string) : option nat :=
  if HasPrefix s sub then Some O
  else match s with
       | EmptyString => None
       | String _ s' => S <$> index_from s' sub
       end.

Definition Index (s sub : string) : Z :=
  match index_from s sub with
  | Some i => Z.of_nat i
  | None => -1
  end.

(** White space in the sense of [unicode.IsSpace] restricted to one-byte
    characters: tab, line feed, vertical tab, form feed, carriage return
    and space. The multi-byte Unicode spaces are not trimmed by the model. *)
Definition isSpace (c : ascii) : bool :=
  let n := nat_of_ascii c in
  ((9 <=? n)%nat && (n <=? 13)%nat) || (n =? 32)%nat.

Fixpoint TrimLeft (s : string) : string :=
  match s with
  | String c s' => if isSpace c then TrimLeft s' else s
  | EmptyString => EmptyString
  end.

Fixpoint TrimRight (s : string) : string :=
  match s with
  | EmptyString => EmptyString
  | String c s' =>
      match TrimRight s' with
      | EmptyString => if isSpace c then EmptyString else String c EmptyString
      | t => String c t
      end
  end.

(** [strings.TrimSpace(s)] *)
Definition TrimSpace (s : string) : string := TrimRight (TrimLeft s).

(** [s[i]] *)
Definition byte_at (s : string) (i : nat) : option ascii := String.get i s.

(** the byte [c] occurs in [s] *)
Fixpoint has_byte (c : ascii) (s : string) : bool :=
  match s with
  | EmptyString => false
  | String d s' => Ascii.eqb d c || has_byte c s'
  end.

(** [strings.Join(l, sep)] *)
Fixpoint Join (l : list string) (sep : string) : string :=
  match l with
  | [] => ""
  | [x] => x
  | x :: l' => x +:+ sep +:+ Join l' sep
  end.

End gostrings.

(** ** A model of [encoding/json.Unmarshal] *)

Module json.

(** What [Unmarshal] stores in an [interface{}]. A number is kept as its
    literal (Go converts it to the [float64] the literal denotes); an
    object keeps one binding per key, a repeated key overwriting the
    earlier one as a Go map does. *)
#[warnings="-register-all"] Inductive value : Type :=
| Null
| Bool (b : bool)
| Number (lit : string)
| Str (s : string)
| Array (elems : list value)
| Object (fields : list (string * value)).

Inductive syntax_error : Type :=
| UnexpectedEnd               (* "unexpected end of JSON input" *)
| InvalidCharacter (c : ascii) (* "invalid character ..." *).

Inductive parsed (A : Type) : Type :=
| Parsed (a : A) (rest : string)
| Invalid (e : syntax_error).
Arguments Parsed {A} a rest.
Arguments Invalid {A} e.

Definition is_ws (c : ascii) : bool :=
  let n := nat_of_ascii c in
  (n =? 32)%nat || (n =? 9)%nat || (n =? 10)%nat || (n =? 13)%nat.

Fixpoint skip_ws (s : string) : string :=
  match s with
  | String c s' => if is_ws c then skip_ws s' else s
  | EmptyString => EmptyString
  end.

Definition is_digit (c : ascii) : bool :=
  let n := nat_of_ascii c in (48 <=? n)%nat && (n <=? 57)%nat.

(** the longest prefix of digits, and what follows it *)
Fixpoint span_digits (s : string) : string * string :=
  match s with
  | String c s' =>
      if is_digit c then let '(d, r) := span_digits s' in (String c d, r)
      else (EmptyString, s)
  | EmptyString => (EmptyString, EmptyString)
  end.

(** one or more digits *)
Definition digits1 (s : string) : parsed string :=
  match span_digits s with
  | (EmptyString, EmptyString) => Invalid UnexpectedEnd
  | (EmptyString, String c _) => Invalid (InvalidCharacter c)
  | (d, r) => Parsed d r
  end.

(** the number grammar of RFC 8259: an optional minus sign, an integer part
    without leading zero, an optional fraction, an optional exponent *)
Definition parse_number (s : string) : parsed string :=
  let '(sign, s1) :=
    match s with
    | String "-" r => ("-", r)
    | _ => ("", s)
    end in
  let int_part :=
    match s1 with
    | String "0" r => Parsed "0" r
    | _ => digits1 s1
    end in
  match int_part with
  | Invalid e => Invalid e
  | Parsed i s2 =>
      let frac_part :=
        match s2 with
        | String "." r =>
            match digits1 r with
            | Parsed d r' => Parsed ("." +:+ d) r'
            | Invalid e => Invalid e
            end
        | _ => Parsed "" s2
        end in
      match frac_part with
      | Invalid e => Invalid e
      | Parsed f s3 =>
          let exp_of (e : ascii) (r : string) :=
            let '(sg, r1) :=
              match r with
              | String "+" r' => ("+", r')
              | String "-" r' => ("-", r')
              | _ => ("", r)
              end in
            match digits1 r1 with
            | Parsed d r' => Parsed (String e sg +:+ d) r'
            | Invalid err => Invalid err
            end in
          let exp_part :=
            match s3 with
            | String "e" r => exp_of "e"%char r
            | String "E" r => exp_of "E"%char r
            | _ => Parsed "" s3
            end in
          match exp_part with
          | Invalid e => Invalid e
          | Parsed x s4 => Parsed (sign +:+ i +:+ f +:+ x) s4
          end
      end
  end.

Definition hex_val (c : ascii) : option N :=
  let n := N_of_ascii c in
  if ((48 <=? n) && (n <=? 57))%N then Some (n - 48)%N
  else if ((97 <=? n) && (n <=? 102))%N then Some (n - 87)%N
  else if ((65 <=? n) && (n <=? 70))%N then Some (n - 55)%N
  else None.

(** [getu4]: the four hex digits of a [\u] escape *)
Definition getu4 (s : string) : parsed N :=
  match s with
  | String a (String b (String c (String d r))) =>
      match hex_val a, hex_val b, hex_val c, hex_val d with
      | Some x, Some y, Some z, Some w =>
          Parsed (((x * 16 + y) * 16 + z) * 16 + w)%N r
      | None, _, _, _ => Invalid (InvalidCharacter a)
      | _, None, _, _ => Invalid (InvalidCharacter b)
      | _, _, None, _ => Invalid (InvalidCharacter c)
      | _, _, _, None => Invalid (InvalidCharacter d)
      end
  | String a (String b (String c EmptyString)) => Invalid UnexpectedEnd
  | String a (String b EmptyString) => Invalid UnexpectedEnd
  | String a EmptyString => Invalid UnexpectedEnd
  | EmptyString => Invalid UnexpectedEnd
  end.

Definition chr (n : N) : ascii := ascii_of_N n.

(** [utf8.EncodeRune] *)
Definition encode_rune (r : N) : string :=
  if (r <? 128)%N then String (chr r) ""
  else if (r <? 2048)%N then
    String (chr (192 + r / 64)) (String (chr (128 + r mod 64)) "")
  else if (r <? 65536)%N then
    String (chr (224 + r / 4096))
      (String (chr (128 + (r / 64) mod 64)) (String (chr (128 + r mod 64)) ""))
  else
    String (chr (240 + r / 262144))
      (String (chr (128 + (r / 4096) mod 64))
         (String (chr (128 + (r / 64) mod 64)) (String (chr (128 + r mod 64)) ""))).

Definition is_high_surrogate (r : N) : bool := ((55296 <=? r) && (r <? 56320))%N.
Definition is_low_surrogate (r : N) : bool := ((56320 <=? r) && (r <? 57344))%N.
Definition replacement_char : N := 65533%N.

(** the body of a string literal, after its opening quote; bytes above
    127 are copied as they are (Go does so when they are valid UTF-8) *)
Fixpoint parse_string (fuel : nat) (s : string) : parsed string :=
  match fuel with
  | O => Invalid UnexpectedEnd
  | S fuel' =>
      let cons (c : string) (p : parsed string) :=
        match p with
        | Parsed t r => Parsed (c +:+ t) r
        | Invalid e => Invalid e
        end in
      match s with
      | EmptyString => Invalid UnexpectedEnd
      | String "034" r => Parsed "" r
      | String "\" EmptyString => Invalid UnexpectedEnd
      | String "\" (String e r) =>
          let simple (c : N) := cons (String (chr c) "") (parse_string fuel' r) in
          match e with
          | "034"%char => simple 34%N
          | "\"%char => simple 92%N
          | "/"%char => simple 47%N
          | "b"%char => simple 8%N
          | "f"%char => simple 12%N
          | "n"%char => simple 10%N
          | "r"%char => simple 13%N
          | "t"%char => simple 9%N
          | "u"%char =>
              match getu4 r with
              | Invalid err => Invalid err
              | Parsed rr r1 =>
                  if is_high_surrogate rr || is_low_surrogate rr then
                    match r1 with
                    | String "\" (String "u" r2) =>
                        match getu4 r2 with
                        | Invalid err => Invalid err
                        | Parsed rr1 r3 =>
                            if is_high_surrogate rr && is_low_surrogate rr1 then
                              cons (encode_rune
                                      (65536 + (rr - 55296) * 1024 + (rr1 - 56320))%N)
                                   (parse_string fuel' r3)
                            else cons (encode_rune replacement_char)
                                      (parse_string fuel' r1)
                        end
                    | _ => cons (encode_rune replacement_char) (parse_string fuel' r1)
                    end
                  else cons (encode_rune rr) (parse_string fuel' r1)
              end
          | _ => Invalid (InvalidCharacter e)
          end
      | String c r =>
          if (nat_of_ascii c <? 32)%nat then Invalid (InvalidCharacter c)
          else cons (String c "") (parse_string fuel' r)
      end
  end.

(** [m[k] = v] on the bindings of an object *)
Fixpoint obj_set (k : string) (v : value) (fields : list (string * value))
  : list (string * value) :=
  match fields with
  | [] => [(k, v)]
  | (k', v') :: rest =>
      if String.eqb k k' then (k, v) :: rest else (k', v') :: obj_set k v rest
  end.

(** a literal [true], [false] or [null] *)
Fixpoint expect (lit : string) (s : string) : parsed unit :=
  match lit, s with
  | EmptyString, _ => Parsed tt s
  | String a lit', String b s' =>
      if Ascii.eqb a b then expect lit' s' else Invalid (InvalidCharacter b)
  | String _ _, EmptyString => Invalid UnexpectedEnd
  end.

(** One value, after leading white space. [parse_elements] reads the rest
    of an array after an element, [parse_members] the members of an object
    from a key on. *)
Fixpoint parse_value (fuel : nat) (s : string) : parsed value :=
  match fuel with
  | O => Invalid UnexpectedEnd
  | S fuel' =>
      match skip_ws s with
      | EmptyString => Invalid UnexpectedEnd
      | String c r =>
          match c with
          | "{"%char =>
              match skip_ws r with
              | String "}" r' => Parsed (Object []) r'
              | r' =>
                  match parse_members fuel' r' [] with
                  | Parsed fs r'' => Parsed (Object fs) r''
                  | Invalid e => Invalid e
                  end
              end
          | "["%char =>
              match skip_ws r with
              | String "]" r' => Parsed (Array []) r'
              | _ =>
                  match parse_value fuel' r with
                  | Invalid e => Invalid e
                  | Parsed v r' =>
                      match parse_elements fuel' r' [v] with
                      | Parsed vs r'' => Parsed (Array vs) r''
                      | Invalid e => Invalid e
                      end
                  end
              end
          | "034"%char =>
              match parse_string (String.length r + 1) r with
              | Parsed t r' => Parsed (Str t) r'
              | Invalid e => Invalid e
              end
          | "t"%char =>
              match expect "rue" r with
              | Parsed _ r' => Parsed (Bool true) r'
              | Invalid e => Invalid e
              end
          | "f"%char =>
              match expect "alse" r with
              | Parsed _ r' => Parsed (Bool false) r'
              | Invalid e => Invalid e
              end
          | "n"%char =>
              match expect "ull" r with
              | Parsed _ r' => Parsed Null r'
              | Invalid e => Invalid e
              end
          | _ =>
              if is_digit c || Ascii.eqb c "-" then
                match parse_number (String c r) with
                | Parsed lit r' => Parsed (Number lit) r'
                | Invalid e => Invalid e
                end
              else Invalid (InvalidCharacter c)
          end
      end
  end
with parse_elements (fuel : nat) (s : string) (acc : list value)
  : parsed (list value) :=
  match fuel with
  | O => Invalid UnexpectedEnd
  | S fuel' =>
      match skip_ws s with
      | EmptyString => Invalid UnexpectedEnd
      | String "]" r => Parsed acc r
      | String "," r =>
          match parse_value fuel' r with
          | Invalid e => Invalid e
          | Parsed v r' => parse_elements fuel' r' (acc ++ [v])
          end
      | String c _ => Invalid (InvalidCharacter c)
      end
  end
with parse_members (fuel : nat) (s : string) (acc : list (string * value))
  : parsed (list (string * value)) :=
  match fuel with
  | O => Invalid UnexpectedEnd
  | S fuel' =>
      match skip_ws s with
      | EmptyString => Invalid UnexpectedEnd
      | String "034" r =>
          match parse_string (String.length r + 1) r with
          | Invalid e => Invalid e
          | Parsed k r1 =>
              match skip_ws r1 with
              | EmptyString => Invalid UnexpectedEnd
              | String ":" r2 =>
                  match parse_value fuel' r2 with
                  | Invalid e => Invalid e
                  | Parsed v r3 =>
                      match skip_ws r3 with
                      | EmptyString => Invalid UnexpectedEnd
                      | String "}" r4 => Parsed (obj_set k v acc) r4
                      | String "," r4 => parse_members fuel' r4 (obj_set k v acc)
                      | String c _ => Invalid (InvalidCharacter c)
                      end
                  end
              | String c _ => Invalid (InvalidCharacter c)
              end
          end
      | String c _ => Invalid (InvalidCharacter c)
      end
  end.

(** the whole text is one value, white space around it allowed *)
Definition parse_document (data : string) : parsed value :=
  match parse_value (String.length data + 1) data with
  | Invalid e => Invalid e
  | Parsed v r =>
      match skip_ws r with
      | EmptyString => Parsed v ""
      | String c _ => Invalid (InvalidCharacter c)
      end
  end.

Definition syntax_message (e : syntax_error) : string :=
  match e with
  | UnexpectedEnd => "unexpected end of JSON input"
  | InvalidCharacter c => "invalid character " +:+ String c ""
  end.

Definition to_map (fields : list (string * value)) : gmap string value :=
  foldl (fun m kv => <[kv.1 := kv.2]> m) ∅ fields.

(** [json.Unmarshal([]byte(data), &result)] with
    [result map[string]interface{}] initially nil. Limits of the model:
    invalid UTF-8 inside a string is not replaced, the nesting limit of
    10000 and the range of [float64] are not checked. *)
Definition Unmarshal (data : string) : error + gmap string value :=
  match parse_document data with
  | Invalid e => inl (Errorf (syntax_message e))
  | Parsed (Object fields) _ => inr (to_map fields)
  | Parsed Null _ => inr ∅
  | Parsed _ _ =>
      inl (Errorf "json: cannot unmarshal value into Go value of type map[string]interface {}")
  end.

End json.

Abbreviation GoMap := (gmap string json.value).

(** ** [internal/api/models.go] *)

Module api.

(** [type ExecutionMode string]: the value comes from the API as text, so it
    stays a string; the constants are the ones of the sources. *)
Definition ExecutionMode : Type := string.
Definition ExecutionModeLLMReasoning : ExecutionMode := "LLM_REASONING".
Definition ExecutionModePythonSandbox : ExecutionMode := "PYTHON_SANDBOX".
Definition ExecutionModeHybrid : ExecutionMode := "HYBRID".
Definition ExecutionModeBash : ExecutionMode := "BASH".
Definition ExecutionModePython : ExecutionMode := "PYTHON".
Definition ExecutionModeAskUser : ExecutionMode := "ASK_USER".
(** referenced by [cmd/agent.go]; its declaration is not among the sources *)
Definition ExecutionModeOrchestrate : ExecutionMode := "ORCHESTRATE".

Inductive ExecutionAttemptStatus : Type :=
| ExecutionAttemptStatusRunning
| ExecutionAttemptStatusSuccess
| ExecutionAttemptStatusFailed
| ExecutionAttemptStatusAbandoned.

Inductive ValidationOutcome : Type :=
| ValidationOutcomePass
| ValidationOutcomeFail
| ValidationOutcomeWarn
| ValidationOutcomeCounterfactual
| ValidationOutcomePartial.

Inductive ValidationSeverity : Type :=
| ValidationSeverityInfo
| ValidationSeverityWarning
| ValidationSeverityCritical.

(** The fields of [PlanningEntity] that the lifecycle reads. A nil map is the
    empty map, a nil [*string] is [None]. *)
Record PlanningEntity : Type := {
  ID : string;
  Type_ : string;
  Title : string;
  Description : string;
  ExecutionMode_ : ExecutionMode;
  Status_ : string;
  InputSchema : GoMap;
  OutputSchema : GoMap;
  Code : option string;
}.

Record PendingDependency : Type := {
  Label : string;
  EntityID : string;
}.

Record DependencyStatus : Type := {
  AllMet : bool;
  Pending : list PendingDependency;
}.

Record EntityExecuteResponse : Type := {
  Entity : PlanningEntity;
  DependenciesStatus : DependencyStatus;
  Inputs : GoMap;
}.

Record ExecutionStartRequest : Type := {
  start_EntityID : string;
  start_ExecutionMode : ExecutionMode;
  start_AgentID : string;
}.

Record ExecutionStartResponse : Type := {
  ExecutionID : string;
  AttemptNumber : Z;
  start_Inputs : GoMap;
}.

(** [Structured] is [None] for a nil map. *)
Record ExecutionOutputs : Type := {
  Metrics : GoMap;
  Stdout : string;
  Stderr : string;
  Structured : option GoMap;
}.

Record ValidationRecord : Type := {
  ValidationType : string;
  Outcome : ValidationOutcome;
  Severity : ValidationSeverity;
  Target : string;
  Actual : GoMap;
  FailureReason : option string;
}.

Record ExecutionCompleteRequest : Type := {
  Status : ExecutionAttemptStatus;
  Outputs : option ExecutionOutputs;
  complete_FailureReason : option string;
  ValidationRecords : list ValidationRecord;
}.

Record ExecutionCompleteResponse : Type := {
  complete_Success : bool;
  Message : string;
}.

Record TaskInfo : Type := {
  task_ID : string;
  task_Title : string;
  task_ExecutionMode : string;
}.

(** [Task] is [None] for a nil pointer. *)
Record PlanNextResponse : Type := {
  Task : option TaskInfo;
  PendingCount : Z;
}.

(** One entry of [RecoverRunsResponse.ResumedRuns], by the fields that
    [runLoop] reads; the declaration is not among the sources. *)
Record ResumedRun : Type := {
  RunID : string;
  resumed_EntityID : string;
  resumed_ExecutionMode : string;
}.

End api.

(** ** The world outside the process *)

Module world.

(** What [cmd.Run()] returns when it is not nil: an [*exec.ExitError] with
    the exit code and the text of the process state, or any other error (the
    command could not be started, the copy of a stream failed). *)
Inductive RunError : Type :=
| ExitError (exitCode : Z) (state : string)
| OtherError (msg : string).

Definition RunError_error (e : RunError) : error :=
  match e with
  | ExitError _ state => Errorf state
  | OtherError msg => Errorf msg
  end.

(** One subprocess, as package [os/exec] presents it. [cmd.Stdout] and
    [cmd.Stderr] are not files, so each stream is a pipe that a goroutine of
    [os/exec] copies into the writer: [stdout_chunks] and [stderr_chunks]
    are the chunks that the reads of the pipe deliver, in order. [wait_err]
    is what starting and waiting for the process gives by itself (nil, an
    exit status that is not success, a failure to start), and
    [deadline_exceeded] tells whether [execCtx.Err()] is
    [context.DeadlineExceeded] after the run. *)
Record RunOutcome : Type := {
  stdout_chunks : list (list byte);
  stderr_chunks : list (list byte);
  wait_err : option RunError;
  deadline_exceeded : bool;
}.

(** The three commands the executors start, all in [/workspace]. The
    environment built by [buildEnvWithInputs] and the prompt built by
    [buildPrompt] are functions of these arguments and of the host; they
    reach the subprocess only, so they stay inside the oracle. *)
Inductive Invocation : Type :=
| InvokeSh (code : string) (inputs : GoMap)
| InvokePython3 (code : string) (inputs : GoMap)
| InvokeClaude (entity : api.PlanningEntity) (inputs : GoMap).

(** The collaborators of the core, as functions on a world [W]. An API call
    answers with the message of the error the client built, or with the
    decoded response. [Validate] is [gojsonschema.Validate] on a schema and
    a document: a loader error, or the list of violations. *)
Record Env (W : Type) : Type := {
  FetchEntityForExecution :
    string -> string -> W -> (string + api.EntityExecuteResponse) * W;
  StartExecution :
    api.ExecutionStartRequest -> string -> W
    -> (string + api.ExecutionStartResponse) * W;
  CompleteExecution :
    string -> api.ExecutionCompleteRequest -> string -> W
    -> (string + api.ExecutionCompleteResponse) * W;
  FetchNextTaskForProcess :
    string -> string -> string -> W -> (string + api.PlanNextResponse) * W;
  Run : Invocation -> W -> RunOutcome * W;
  ctxDone : W -> bool;
  now_ms : W -> Z;
  Validate : GoMap -> GoMap -> string + list string;
}.
Arguments FetchEntityForExecution {W} _ _ _ _.
Arguments StartExecution {W} _ _ _ _.
Arguments CompleteExecution {W} _ _ _ _ _.
Arguments FetchNextTaskForProcess {W} _ _ _ _ _.
Arguments Run {W} _ _ _.
Arguments ctxDone {W} _ _.
Arguments now_ms {W} _ _.
Arguments Validate {W} _ _ _.

(** What the process does to the world, in order. *)
Inductive Event : Type :=
| CallFetchEntityForExecution (entityID : string)
| CallStartExecution (req : api.ExecutionStartRequest)
| CallCompleteExecution (executionID : string) (req : api.ExecutionCompleteRequest)
| CallFetchNextTaskForProcess (agentID processEntityID : string)
| Spawn (inv : Invocation)
| CtxDone.

End world.

(** ** [internal/executor] *)

Module executor.
Import world.

Record ExecutionResult : Type := {
  Success : bool;
  Stdout : string;
  Stderr : string;
  ExitCode : Z;
  Error : option error;
}.

(** [const maxOutputBytes = 1 << 20] *)
Definition maxOutputBytes : Z := Z.shiftl 1 20.

(** [limitedWriter]: the buffer it points to, and the limit. *)
Record limitedWriter : Type := {
  buf : list byte;
  limit : Z;
}.

(** [bytes.Buffer.Write]: appends, answers [(len(p), nil)]. *)
Definition Buffer_Write (b p : list byte) : list byte * (Z * option error) :=
  (b ++ p, (Z.of_nat (length p), None)).

(** [func (w *limitedWriter) Write(p []byte) (int, error)] *)
Definition Write (w : limitedWriter) (p : list byte)
  : limitedWriter * (Z * option error) :=
  let remaining := limit w - Z.of_nat (length (buf w)) in
  if remaining <=? 0 then (w, (Z.of_nat (length p), None))
  else
    let p := if Z.of_nat (length p) >? remaining
             then take (Z.to_nat remaining) p else p in
    let '(b, r) := Buffer_Write (buf w) p in
    ({| buf := b; limit := limit w |}, r).

(** a writer whose buffer is within its limit *)
Definition within (w : limitedWriter) : Prop :=
  Z.of_nat (length (buf w)) <= limit w.

(** [io.ErrShortWrite], as an error of [cmd.Run()] *)
Definition ErrShortWrite : RunError := OtherError "short write".

(** [io.Copy(w, pr)], the loop of the copying goroutine: every chunk read
    from the pipe is handed to [w.Write]; the loop ends with the error of a
    [Write], and with [io.ErrShortWrite] at the first [Write] that answers
    fewer bytes than it was given. The result is the writer and the error
    of the copy. *)
Fixpoint Copy (w : limitedWriter) (chunks : list (list byte))
  : limitedWriter * option RunError :=
  match chunks with
  | [] => (w, None)
  | p :: chunks' =>
      let '(w', (nw, ew)) := Write w p in
      match ew with
      | Some e => (w', Some (OtherError (errors.Error e)))
      | None =>
          if negb (nw =? Z.of_nat (length p)) then (w', Some ErrShortWrite)
          else Copy w' chunks'
      end
  end.

(** [cmd.Stdout = &limitedWriter{buf: &stdout, limit: maxOutputBytes}]:
    [stdout.String()] after the run, and the error of the copy *)
Definition captured (chunks : list (list byte)) : string * option RunError :=
  let '(w, e) := Copy {| buf := []; limit := maxOutputBytes |} chunks in
  (string_of_list_byte (buf w), e).

(** The error of [cmd.Run()]: that of the process when there is one, else
    that of a copying goroutine ([Cmd.Wait] reports a copy error only when
    the process itself ended well). *)
Definition Run_error (wait outErr errErr : option RunError) : option RunError :=
  match wait with
  | Some e => Some e
  | None => match outErr with Some e => Some e | None => errErr end
  end.

(** [cmd.Stdout = &stdout] with a plain [bytes.Buffer] *)
Definition buffered (chunks : list (list byte)) : string :=
  string_of_list_byte (foldl (fun b p => (Buffer_Write b p).1) [] chunks).

(** ["execution timed out after %v"] of [DefaultExecTimeout], ten minutes *)
Definition timeout_error : error := Errorf "execution timed out after 10m0s".

Section Backends.
Context {W : Type} (E : Env W).

(** the part of [ExecuteBashWithContext] and [ExecutePythonWithContext]
    after the command is built; the two functions differ by the command
    and by the name in the message only *)
Definition run_capped (inv : Invocation) (w : W) : ExecutionResult * W :=
  let '(out, w) := Run E inv w in
  let '(stdout, outErr) := captured (stdout_chunks out) in
  let '(stderr, errErr) := captured (stderr_chunks out) in
  let err := Run_error (wait_err out) outErr errErr in
  match err with
  | Some e =>
      if deadline_exceeded out then
        ({| Success := false; Stdout := stdout; Stderr := stderr;
            ExitCode := 124; Error := Some timeout_error |}, w)
      else
        let exitCode := match e with ExitError c _ => c | OtherError _ => 1 end in
        ({| Success := exitCode =? 0; Stdout := stdout; Stderr := stderr;
            ExitCode := exitCode; Error := Some (RunError_error e) |}, w)
  | None =>
      let exitCode := 0 in
      ({| Success := exitCode =? 0; Stdout := stdout; Stderr := stderr;
          ExitCode := exitCode; Error := None |}, w)
  end.

Definition no_code (what : string) : ExecutionResult :=
  {| Success := false; Stdout := ""; Stderr := ""; ExitCode := 1;
     Error := Some (Errorf ("no code provided for " +:+ what +:+ " execution")) |}.

(** [ExecuteBash], that is [ExecuteBashWithContext(context.Background(), ...)] *)
Definition ExecuteBash (entity : api.PlanningEntity) (inputs : GoMap) (w : W)
  : ExecutionResult * W :=
  match api.Code entity with
  | None => (no_code "BASH", w)
  | Some code =>
      if String.eqb code "" then (no_code "BASH", w)
      else run_capped (InvokeSh code inputs) w
  end.

(** [ExecutePython], that is [ExecutePythonWithContext(context.Background(), ...)] *)
Definition ExecutePython (entity : api.PlanningEntity) (inputs : GoMap) (w : W)
  : ExecutionResult * W :=
  match api.Code entity with
  | None => (no_code "PYTHON", w)
  | Some code =>
      if String.eqb code "" then (no_code "PYTHON", w)
      else run_capped (InvokePython3 code inputs) w
  end.

(** [ExecuteLLM]: no deadline and no cap; a [bytes.Buffer] takes every
    chunk whole, so the copies do not fail *)
Definition ExecuteLLM (entity : api.PlanningEntity) (inputs : GoMap) (w : W)
  : ExecutionResult * W :=
  let '(out, w) := Run E (InvokeClaude entity inputs) w in
  let err := wait_err out in
  let exitCode :=
    match err with
    | Some (ExitError c _) => c
    | Some (OtherError _) => 1
    | None => 0
    end in
  ({| Success := exitCode =? 0;
      Stdout := buffered (stdout_chunks out);
      Stderr := buffered (stderr_chunks out);
      ExitCode := exitCode;
      Error := RunError_error <$> err |}, w).

End Backends.

End executor.

(** ** [internal/validator/schema.go] *)

Module validator.
Import gostrings.

Section Schema.
Context {W : Type} (E : world.Env W).

(** the common body of [ValidateInputs] and [ValidateOutputs]; [what] is
    ["input"] or ["output"]. [None] is a nil error. *)
Definition validate (what : string) (data schema : GoMap) : option error :=
  if Z.of_nat (size schema) =? 0 then None
  else
    match world.Validate E schema data with
    | inl err => Some (Wrapf "validation error" (Errorf err))
    | inr [] => None
    | inr errs => Some (Errorf (what +:+ " validation failed: " +:+ Join errs "; "))
    end.

Definition ValidateInputs (inputs schema : GoMap) : option error :=
  validate "input" inputs schema.

Definition ValidateOutputs (outputs schema : GoMap) : option error :=
  validate "output" outputs schema.

End Schema.

Definition newline : string := String "010" "".

(** The region in which the object is searched: the body of a fence tagged
    [json], else the body of a plain fence after its first line, else the
    whole text. A fence that is opened and not closed leaves the text as it
    is. *)
Definition fenced_region (stdout : string) : string :=
  let jsonStart := Index stdout "```json" in
  if negb (jsonStart =? -1) then
    let jsonStart := jsonStart + 7 in
    let jsonEnd := Index (drop_str (Z.to_nat jsonStart) stdout) "```" in
    if negb (jsonEnd =? -1) then
      TrimSpace (slice stdout jsonStart (jsonStart + jsonEnd))
    else stdout
  else
    let codeStart := Index stdout "```" in
    if negb (codeStart =? -1) then
      let codeStart := codeStart + 3 in
      let newline := Index (drop_str (Z.to_nat codeStart) stdout) newline in
      let codeStart := if negb (newline =? -1) then codeStart + newline + 1
                       else codeStart in
      let codeEnd := Index (drop_str (Z.to_nat codeStart) stdout) "```" in
      if negb (codeEnd =? -1) then
        TrimSpace (slice stdout codeStart (codeStart + codeEnd))
      else stdout
    else stdout.

(** The loop [for i := braceStart; i < len(stdout); i++] on the text from
    index [i] on, with the current [braceCount]; the result is [braceEnd],
    -1 when the loop ends without a balance. *)
Fixpoint brace_scan (rest : string) (i braceCount : Z) : Z :=
  match rest with
  | EmptyString => -1
  | String c rest' =>
      if Ascii.eqb c "{" then brace_scan rest' (i + 1) (braceCount + 1)
      else if Ascii.eqb c "}" then
        let braceCount := braceCount - 1 in
        if braceCount =? 0 then i + 1
        else brace_scan rest' (i + 1) braceCount
      else brace_scan rest' (i + 1) braceCount
  end.

(** The substring handed to [json.Unmarshal], or the error before it. *)
Definition locate_object (stdout : string) : error + string :=
  let stdout := TrimSpace stdout in
  let stdout := fenced_region stdout in
  let braceStart := Index stdout "{" in
  if braceStart =? -1 then inl (Errorf "no JSON object found in output")
  else
    let braceEnd := brace_scan (drop_str (Z.to_nat braceStart) stdout) braceStart 0 in
    if braceEnd =? -1 then inl (Errorf "no matching closing brace found")
    else inr (slice stdout braceStart braceEnd).

(** [func ExtractJSONFromOutput(stdout string) (map[string]interface{}, error)] *)
Definition ExtractJSONFromOutput (stdout : string) : error + GoMap :=
  match locate_object stdout with
  | inl err => inl err
  | inr jsonStr =>
      match json.Unmarshal jsonStr with
      | inl err => inl (Wrapf "failed to parse JSON" err)
      | inr result => inr result
      end
  end.

End validator.

(** ** [cmd/run.go] and the recovery loop of [cmd/agent.go] *)

Module cmd.
Import world api.

(** The state threaded through the commands: the world, and the events so
    far. The trace is not program state; it is what a fake API would have
    recorded. *)
Record St (W : Type) : Type := {
  wld : W;
  trace : list Event;
}.
Arguments wld {W} _.
Arguments trace {W} _.

(** the package-level [agentID] and [serviceKey] *)
Record Globals : Type := {
  agentID : string;
  serviceKey : string;
}.

(** [EntityExecutionParams]; the client is the environment *)
Record EntityExecutionParams : Type := {
  params_EntityID : string;
  params_AgentID : string;
  params_ServiceKey : string;
}.

(** [%v] of a [[]PendingDependency] *)
Definition format_pending (pending : list PendingDependency) : string :=
  "[" +:+ gostrings.Join
            (map (fun p => "{" +:+ Label p +:+ " " +:+ EntityID p +:+ "}") pending) " "
      +:+ "]".

(** a Go [int] or [int64] stored in a [map[string]interface{}] *)
Definition int_value (n : Z) : json.value := json.Number (itoa n).

Definition OUTPUT_SCHEMA (outcome : ValidationOutcome) (severity : ValidationSeverity)
    (actual : GoMap) (reason : option string) : ValidationRecord :=
  {| ValidationType := "OUTPUT_SCHEMA"; Outcome := outcome; Severity := severity;
     Target := "output_schema"; Actual := actual; FailureReason := reason |}.

(** Step 4b of [executeEntity]: [structuredOutput] and
    [outputValidationRecord] *)
Definition validate_outputs {W} (E : Env W) (entity : PlanningEntity)
    (result : executor.ExecutionResult)
  : option GoMap * option ValidationRecord :=
  if executor.Success result && (0 <? Z.of_nat (size (OutputSchema entity))) then
    match validator.ExtractJSONFromOutput (executor.Stdout result) with
    | inl extractErr =>
        let failReason := "Failed to extract structured output: " +:+ Error extractErr in
        (None,
         Some (OUTPUT_SCHEMA ValidationOutcomeWarn ValidationSeverityWarning ∅
                 (Some failReason)))
    | inr extracted =>
        match validator.ValidateOutputs E extracted (OutputSchema entity) with
        | Some err =>
            let failReason := Error err in
            (Some extracted,
             Some (OUTPUT_SCHEMA ValidationOutcomeFail ValidationSeverityWarning
                     extracted (Some failReason)))
        | None =>
            (Some extracted,
             Some (OUTPUT_SCHEMA ValidationOutcomePass ValidationSeverityInfo
                     extracted None))
        end
    end
  else (None, None).

Definition completion_metrics (duration_ms exitCode : Z) : GoMap :=
  <["duration_ms" := int_value duration_ms]>
    (<["exit_code" := int_value exitCode]> ∅).

(** Step 5 of [executeEntity]: the completion request *)
Definition completion_request (result : executor.ExecutionResult)
    (structuredOutput : option GoMap)
    (outputValidationRecord : option ValidationRecord) (duration_ms : Z)
  : ExecutionCompleteRequest :=
  let outputs structured :=
    {| Metrics := completion_metrics duration_ms (executor.ExitCode result);
       Stdout := executor.Stdout result;
       Stderr := executor.Stderr result;
       Structured := structured |} in
  let actual := completion_metrics duration_ms (executor.ExitCode result) in
  if executor.Success result then
    let validationRecord :=
      {| ValidationType := "OUTPUT"; Outcome := ValidationOutcomePass;
         Severity := ValidationSeverityInfo; Target := "execution_completion";
         Actual := actual; FailureReason := None |} in
    {| Status := ExecutionAttemptStatusSuccess;
       Outputs := Some (outputs structuredOutput);
       complete_FailureReason := None;
       ValidationRecords :=
         match outputValidationRecord with
         | Some r => [validationRecord; r]
         | None => [validationRecord]
         end |}
  else
    let failureMsg :=
      "Execution failed with exit code " +:+ itoa (executor.ExitCode result) in
    let failureMsg :=
      match executor.Error result with
      | Some e => failureMsg +:+ ": " +:+ Error e
      | None => failureMsg
      end in
    let validationRecord :=
      {| ValidationType := "OUTPUT"; Outcome := ValidationOutcomeFail;
         Severity := ValidationSeverityCritical; Target := "execution_completion";
         Actual := actual; FailureReason := Some failureMsg |} in
    {| Status := ExecutionAttemptStatusFailed;
       Outputs := Some (outputs None);
       complete_FailureReason := Some failureMsg;
       ValidationRecords := [validationRecord] |}.

Section Commands.
Context {W : Type} (E : Env W).

Definition emit (e : Event) (w : W) (st : St W) : St W :=
  {| wld := w; trace := trace st ++ [e] |}.

(** the methods of [*api.Client], recording the call *)
Definition Client_FetchEntityForExecution (entityID key : string) (st : St W)
  : (string + EntityExecuteResponse) * St W :=
  let '(r, w) := FetchEntityForExecution E entityID key (wld st) in
  (r, emit (CallFetchEntityForExecution entityID) w st).

Definition Client_StartExecution (req : ExecutionStartRequest) (key : string)
    (st : St W) : (string + ExecutionStartResponse) * St W :=
  let '(r, w) := StartExecution E req key (wld st) in
  (r, emit (CallStartExecution req) w st).

Definition Client_CompleteExecution (executionID : string)
    (req : ExecutionCompleteRequest) (key : string) (st : St W)
  : (string + ExecutionCompleteResponse) * St W :=
  let '(r, w) := CompleteExecution E executionID req key (wld st) in
  (r, emit (CallCompleteExecution executionID req) w st).

Definition Client_FetchNextTaskForProcess (agent processEntityID key : string)
    (st : St W) : (string + PlanNextResponse) * St W :=
  let '(r, w) := FetchNextTaskForProcess E agent processEntityID key (wld st) in
  (r, emit (CallFetchNextTaskForProcess agent processEntityID) w st).

(** Step 4 of [executeEntity]: the [switch] on the execution mode; [None] is
    the [default] branch. *)
Definition dispatch (entity : PlanningEntity) (inputs : GoMap) (w : W)
  : option (executor.ExecutionResult * W) :=
  let mode := ExecutionMode_ entity in
  if String.eqb mode ExecutionModeLLMReasoning then
    Some (executor.ExecuteLLM E entity inputs w)
  else if String.eqb mode ExecutionModeBash then
    Some (executor.ExecuteBash E entity inputs w)
  else if String.eqb mode ExecutionModePython then
    Some (executor.ExecutePython E entity inputs w)
  else if String.eqb mode ExecutionModePythonSandbox then
    Some (executor.ExecutePython E entity inputs w)
  else if String.eqb mode ExecutionModeHybrid then
    Some (executor.ExecuteLLM E entity inputs w)
  else None.

(** Steps 4 to 6 of [executeEntity], once the run [executionID] exists and
    the mode is not ask-user. *)
Definition execute_started (params : EntityExecutionParams)
    (entityResp : EntityExecuteResponse) (startResp : ExecutionStartResponse)
    (st : St W) : (bool * option error) * St W :=
  let executionID := ExecutionID startResp in
  let execStart := now_ms E (wld st) in
  match dispatch (Entity entityResp) (start_Inputs startResp) (wld st) with
  | None =>
      ((false,
        Some (Errorf ("unknown execution mode: "
                      +:+ ExecutionMode_ (Entity entityResp)))), st)
  | Some (result, w) =>
      let st := {| wld := w; trace := trace st |} in
      let execDuration := now_ms E w - execStart in
      let '(structuredOutput, outputValidationRecord) :=
        validate_outputs E (Entity entityResp) result in
      let completeReq :=
        completion_request result structuredOutput outputValidationRecord
          execDuration in
      let '(r, st) :=
        Client_CompleteExecution executionID completeReq
          (params_ServiceKey params) st in
      match r with
      | inl err =>
          ((false, Some (Wrapf "failed to complete execution" (Errorf err))), st)
      | inr _ => ((executor.Success result, None), st)
      end
  end.

(** [func executeEntity(params EntityExecutionParams) (bool, error)] *)
Definition executeEntity (params : EntityExecutionParams) (st : St W)
  : (bool * option error) * St W :=
  (* Step 1: fetch entity details *)
  let '(r, st) :=
    Client_FetchEntityForExecution (params_EntityID params)
      (params_ServiceKey params) st in
  match r with
  | inl err => ((false, Some (Wrapf "failed to fetch entity" (Errorf err))), st)
  | inr entityResp =>
      (* Step 2: validate dependencies *)
      if negb (AllMet (DependenciesStatus entityResp)) then
        ((false,
          Some (Errorf ("dependencies not met: "
                        +:+ format_pending (Pending (DependenciesStatus entityResp))))),
         st)
      else
        (* Step 2b: validate inputs against input_schema if provided *)
        let inputErr :=
          if 0 <? Z.of_nat (size (InputSchema (Entity entityResp))) then
            validator.ValidateInputs E (Inputs entityResp)
              (InputSchema (Entity entityResp))
          else None in
        match inputErr with
        | Some err => ((false, Some (Wrapf "input validation failed" err)), st)
        | None =>
            (* Step 3: create run *)
            let startExecReq :=
              {| start_EntityID := params_EntityID params;
                 start_ExecutionMode := ExecutionMode_ (Entity entityResp);
                 start_AgentID := params_AgentID params |} in
            let '(r, st) :=
              Client_StartExecution startExecReq (params_ServiceKey params) st in
            match r with
            | inl err =>
                ((false, Some (Wrapf "failed to start execution" (Errorf err))), st)
            | inr startResp =>
                (* ASK_USER: the run exists, nothing else is done *)
                if String.eqb (ExecutionMode_ (Entity entityResp)) ExecutionModeAskUser
                then ((false, Some ErrAskUserSkipped), st)
                else execute_started params entityResp startResp st
            end
        end
  end.

(** The variables of the loop of [runProcessExecution]. *)
Record LoopState : Type := {
  tasksExecuted : Z;
  lastError : option error;
  interrupted : bool;
}.

(** [ctx.Err()] after a cancellation *)
Definition context_Canceled : error := Errorf "context canceled".

(** what one task's outcome does to the loop variables *)
Definition record_outcome (ls : LoopState) (success : bool) (err : option error)
  : LoopState :=
  match err with
  | Some e =>
      if negb (IsAskUserSkipped e) then
        {| tasksExecuted := tasksExecuted ls; lastError := Some e;
           interrupted := interrupted ls |}
      else if success then
        {| tasksExecuted := tasksExecuted ls + 1; lastError := lastError ls;
           interrupted := interrupted ls |}
      else ls
  | None =>
      if success then
        {| tasksExecuted := tasksExecuted ls + 1; lastError := lastError ls;
           interrupted := interrupted ls |}
      else ls
  end.

(** The [for] loop of [runProcessExecution]. One unit of fuel is one
    iteration; [None] means the fuel ran out before the loop was left. *)
Fixpoint process_loop (G : Globals) (fuel : nat) (processEntityID : string)
    (ls : LoopState) (st : St W) : option (LoopState * St W) :=
  match fuel with
  | O => None
  | S fuel' =>
      if ctxDone E (wld st) then
        (* interrupted = true; lastError = ctx.Err(); goto complete *)
        Some ({| tasksExecuted := tasksExecuted ls;
                 lastError := Some context_Canceled;
                 interrupted := true |},
              emit CtxDone (wld st) st)
      else
        let '(r, st) :=
          Client_FetchNextTaskForProcess (agentID G) processEntityID
            (serviceKey G) st in
        match r with
        | inl err =>
            Some ({| tasksExecuted := tasksExecuted ls;
                     lastError := Some (Errorf err);
                     interrupted := interrupted ls |}, st)
        | inr nextResp =>
            match Task nextResp with
            | None => Some (ls, st)
            | Some task =>
                let '((success, err), st) :=
                  executeEntity
                    {| params_EntityID := task_ID task;
                       params_AgentID := agentID G;
                       params_ServiceKey := serviceKey G |} st in
                process_loop G fuel' processEntityID
                  (record_outcome ls success err) st
            end
        end
  end.

Definition process_metrics (ls : LoopState) : GoMap :=
  <["tasks_executed" := int_value (tasksExecuted ls)]>
    (<["interrupted" := json.Bool (interrupted ls)]> ∅).

(** the request built after the label [complete] *)
Definition process_completion (ls : LoopState) : ExecutionCompleteRequest :=
  let outputs :=
    Some {| Metrics := process_metrics ls; Stdout := ""; Stderr := "";
            Structured := None |} in
  if interrupted ls then
    {| Status := ExecutionAttemptStatusAbandoned; Outputs := outputs;
       complete_FailureReason := Some "Process execution interrupted by signal";
       ValidationRecords := [] |}
  else
    match lastError ls with
    | Some e =>
        {| Status := ExecutionAttemptStatusFailed; Outputs := outputs;
           complete_FailureReason := Some (Error e);
           ValidationRecords := [] |}
    | None =>
        {| Status := ExecutionAttemptStatusSuccess; Outputs := outputs;
           complete_FailureReason := None;
           ValidationRecords := [] |}
    end.

Definition loop_init : LoopState :=
  {| tasksExecuted := 0; lastError := None; interrupted := false |}.

(** [func runProcessExecution(processEntityID string, ...) error]; the
    result is the returned error, [None] for nil. *)
Definition runProcessExecution (G : Globals) (fuel : nat)
    (processEntityID : string) (st : St W) : option (option error * St W) :=
  let startReq :=
    {| start_EntityID := processEntityID;
       start_ExecutionMode := "PROCESS";
       start_AgentID := agentID G |} in
  let '(r, st) := Client_StartExecution startReq (serviceKey G) st in
  match r with
  | inl err => Some (Some (Wrapf "failed to start Process run" (Errorf err)), st)
  | inr startResp =>
      let processRunID := ExecutionID startResp in
      match process_loop G fuel processEntityID loop_init st with
      | None => None
      | Some (ls, st) =>
          let completeReq := process_completion ls in
          let '(r, st) :=
            Client_CompleteExecution processRunID completeReq (serviceKey G) st in
          match r with
          | inl err => Some (Some (Errorf err), st)
          | inr _ =>
              if interrupted ls then
                Some (Some (Errorf "Process execution interrupted"), st)
              else
                match lastError ls with
                | Some e => Some (Some (Wrapf "Process completed with errors" e), st)
                | None => Some (None, st)
                end
          end
      end
  end.

End Commands.

End cmd.

(** ** The resumption of recovered runs in [runLoop] ([cmd/agent.go])

    The [range] loop over [recoverResp.ResumedRuns] runs on the main
    goroutine and starts one goroutine per resumption; the goroutines run
    concurrently with it and with each other. [sync.Map] makes [LoadOrStore]
    and [Delete] atomic, so an execution is an interleaving of the atomic
    steps below, chosen by a schedule. *)

Module recovery.
Import api.

(** [var activeResumes sync.Map], of which only the key set matters: every
    stored value is [true]. *)
Definition LoadOrStore (m : gset string) (key : string) : gset string * bool :=
  if decide (key ∈ m) then (m, true) else ({[key]} ∪ m, false).

Definition Delete (m : gset string) (key : string) : gset string :=
  m ∖ {[key]}.

(** A resumption goroutine is either inside [resumeOrchestration] or has
    left it and still has its deferred [activeResumes.Delete] to run. *)
Inductive Phase : Type :=
| Resuming
| Returned.

#[global] Instance Phase_eq_dec : EqDecision Phase.
Proof. solve_decision. Defined.

Record Goroutine : Type := {
  g_entityID : string;
  g_runID : string;
  g_phase : Phase;
}.

Record Sched : Type := {
  activeResumes : gset string;
  remaining : list ResumedRun;    (* what the [range] loop has yet to visit *)
  goroutines : list Goroutine;    (* the resumption goroutines alive *)
  launches : list string;         (* run identifiers of every [go] so far *)
}.

(** [runLoop] is entered once per process, with an empty [activeResumes]. *)
Definition initial (resumed : list ResumedRun) : Sched :=
  {| activeResumes := ∅; remaining := resumed; goroutines := []; launches := [] |}.

Inductive Action : Type :=
| MainStep                    (* one iteration of the [range] loop *)
| ReturnStep (runID : string) (* [resumeOrchestration] returns in that goroutine *)
| DeferStep (runID : string)  (* its deferred [Delete] runs and it ends *).

Definition has_run (runID : string) (ph : Phase) (g : Goroutine) : bool :=
  String.eqb (g_runID g) runID &&
  match g_phase g, ph with
  | Resuming, Resuming | Returned, Returned => true
  | _, _ => false
  end.

(** the first goroutine of [gs] for [runID] in phase [ph], set aside *)
Fixpoint pick (runID : string) (ph : Phase) (gs : list Goroutine)
  : option (Goroutine * list Goroutine) :=
  match gs with
  | [] => None
  | g :: gs' =>
      if has_run runID ph g then Some (g, gs')
      else match pick runID ph gs' with
           | Some (h, rest) => Some (h, g :: rest)
           | None => None
           end
  end.

(** One atomic step; [None] when the action is not enabled. *)
Definition step (s : Sched) (a : Action) : option Sched :=
  match a with
  | MainStep =>
      match remaining s with
      | [] => None
      | resumed :: rest =>
          if String.eqb (resumed_ExecutionMode resumed) ExecutionModeOrchestrate then
            let runID := RunID resumed in
            let '(m, loaded) := LoadOrStore (activeResumes s) runID in
            if loaded then
              (* "Resume already active, skipping" *)
              Some {| activeResumes := m; remaining := rest;
                      goroutines := goroutines s; launches := launches s |}
            else
              Some {| activeResumes := m; remaining := rest;
                      goroutines :=
                        goroutines s ++
                        [{| g_entityID := resumed_EntityID resumed;
                            g_runID := runID; g_phase := Resuming |}];
                      launches := launches s ++ [runID] |}
          else
            Some {| activeResumes := activeResumes s; remaining := rest;
                    goroutines := goroutines s; launches := launches s |}
      end
  | ReturnStep runID =>
      match pick runID Resuming (goroutines s) with
      | Some (g, rest) =>
          Some {| activeResumes := activeResumes s; remaining := remaining s;
                  goroutines :=
                    rest ++ [{| g_entityID := g_entityID g; g_runID := g_runID g;
                                g_phase := Returned |}];
                  launches := launches s |}
      | None => None
      end
  | DeferStep runID =>
      match pick runID Returned (goroutines s) with
      | Some (g, rest) =>
          Some {| activeResumes := Delete (activeResumes s) (g_runID g);
                  remaining := remaining s;
                  goroutines := rest;
                  launches := launches s |}
      | None => None
      end
  end.

(** a schedule, run from [s] *)
Fixpoint exec (s : Sched) (schedule : list Action) : option Sched :=
  match schedule with
  | [] => Some s
  | a :: schedule' =>
      match step s a with
      | Some s' => exec s' schedule'
      | None => None
      end
  end.

(** the run identifiers with a goroutine alive *)
Definition alive (s : Sched) : list string := g_runID <$> goroutines s.

(** what every reachable state satisfies: one goroutine per run
    identifier, and [activeResumes] holds exactly the identifiers that have
    a goroutine *)
Definition consistent (s : Sched) : Prop :=
  NoDup (alive s) /\ forall id : string, id ∈ activeResumes s <-> id ∈ alive s.

(** the run identifiers being resumed: a goroutine is inside
    [resumeOrchestration] *)
Definition resuming (s : Sched) : list string :=
  g_runID <$> filter (fun g => g_phase g = Resuming) (goroutines s).

(** a recovery answer and a schedule for it: the run [run-a] is listed
    twice and a leaf run between; the second visit of [run-a] happens while
    its resumption is in flight *)
Definition example_resumed : list ResumedRun :=
  [ {| RunID := "run-a"; resumed_EntityID := "proc-a";
       resumed_ExecutionMode := ExecutionModeOrchestrate |};
    {| RunID := "run-l"; resumed_EntityID := "leaf";
       resumed_ExecutionMode := ExecutionModeBash |};
    {| RunID := "run-a"; resumed_EntityID := "proc-a";
       resumed_ExecutionMode := ExecutionModeOrchestrate |};
    {| RunID := "run-b"; resumed_EntityID := "proc-b";
       resumed_ExecutionMode := ExecutionModeOrchestrate |} ].

Definition example_schedule : list Action :=
  [MainStep; MainStep; MainStep; MainStep; ReturnStep "run-a"].

End recovery.

(** ** A fake API server and fake subprocesses, for concrete runs *)

Module fake.
Import world api.

Record Server : Type := {
  entities : list (string * EntityExecuteResponse);
  queue : list string;        (* tasks of the Process that have no run yet *)
  started : Z;                (* runs created so far *)
  sigterm_after : option Z;   (* the signal arrives once that many runs exist *)
}.

Fixpoint find_entity (id : string) (l : list (string * EntityExecuteResponse))
  : option EntityExecuteResponse :=
  match l with
  | [] => None
  | (k, v) :: l' => if String.eqb k id then Some v else find_entity id l'
  end.

Definition fake_fetch (entityID key : string) (w : Server)
  : (string + EntityExecuteResponse) * Server :=
  match find_entity entityID (entities w) with
  | Some resp => (inr resp, w)
  | None => (inl "API error (404): entity not found", w)
  end.

Definition fake_start (req : ExecutionStartRequest) (key : string) (w : Server)
  : (string + ExecutionStartResponse) * Server :=
  (inr {| ExecutionID := "run-" +:+ itoa (started w); AttemptNumber := 1;
          start_Inputs := ∅ |},
   {| entities := entities w;
      queue := List.filter (fun id => negb (String.eqb id (start_EntityID req)))
                 (queue w);
      started := started w + 1;
      sigterm_after := sigterm_after w |}).

Definition fake_complete (executionID : string) (req : ExecutionCompleteRequest)
    (key : string) (w : Server) : (string + ExecutionCompleteResponse) * Server :=
  (inr {| complete_Success := true; Message := "" |}, w).

Definition fake_next (agent processEntityID key : string) (w : Server)
  : (string + PlanNextResponse) * Server :=
  match queue w with
  | [] => (inr {| Task := None; PendingCount := 0 |}, w)
  | id :: _ =>
      (inr {| Task := Some {| task_ID := id; task_Title := id;
                              task_ExecutionMode := "BASH" |};
              PendingCount := Z.of_nat (length (queue w)) |}, w)
  end.

(** a script that writes 1,048,570 zero bytes, pauses, writes ten digits and
    exits with status 0; the pause makes the reads of the pipe deliver the
    ten digits as a chunk of their own *)
Definition burst : string :=
  "head -c 1048570 /dev/zero; sleep 1; printf 0123456789".

Definition zeros : list byte := replicate (Z.to_nat 1048570) x00.
Definition ten_digits : list byte := list_byte_of_string "0123456789".
Definition burst_chunks : list (list byte) := [zeros; ten_digits].

(** [sh -c "exit 3"] exits with status 3; [sh -c "sleep 900"] is killed at the
    deadline; [burst] is as described; any other script prints its own text
    and exits with status 0. The [claude] executable is not installed. *)
Definition fake_run (inv : Invocation) (w : Server) : RunOutcome * Server :=
  match inv with
  | InvokeSh code _ | InvokePython3 code _ =>
      if String.eqb code "exit 3" then
        ({| stdout_chunks := []; stderr_chunks := [];
            wait_err := Some (ExitError 3 "exit status 3");
            deadline_exceeded := false |}, w)
      else if String.eqb code "sleep 900" then
        ({| stdout_chunks := []; stderr_chunks := [];
            wait_err := Some (ExitError (-1) "signal: killed");
            deadline_exceeded := true |}, w)
      else if String.eqb code burst then
        ({| stdout_chunks := burst_chunks; stderr_chunks := [];
            wait_err := None; deadline_exceeded := false |}, w)
      else
        ({| stdout_chunks := [list_byte_of_string code]; stderr_chunks := [];
            wait_err := None; deadline_exceeded := false |}, w)
  | InvokeClaude _ _ =>
      ({| stdout_chunks := []; stderr_chunks := [];
          wait_err := Some (OtherError "exec: claude: executable file not found");
          deadline_exceeded := false |}, w)
  end.

Definition fake_done (w : Server) : bool :=
  match sigterm_after w with
  | Some n => n <=? started w
  | None => false
  end.

(** a validator for the one schema of the examples: the key [a] is required *)
Definition fake_validate (schema data : GoMap) : string + list string :=
  match data !! "a" with
  | Some _ => inr []
  | None => inr ["(root): a is required"]
  end.

Definition env : Env Server :=
  {| FetchEntityForExecution := fake_fetch;
     StartExecution := fake_start;
     CompleteExecution := fake_complete;
     FetchNextTaskForProcess := fake_next;
     Run := fake_run;
     ctxDone := fake_done;
     now_ms := fun _ => 0;
     Validate := fake_validate |}.

Definition schema_a : GoMap := {["required" := json.Array [json.Str "a"]]}.

Definition entity (id mode : string) (code : option string)
    (inputSchema outputSchema : GoMap) : PlanningEntity :=
  {| ID := id; Type_ := "TASK"; Title := id; Description := "";
     ExecutionMode_ := mode; Status_ := "ACTIVE";
     InputSchema := inputSchema; OutputSchema := outputSchema; Code := code |}.

Definition ready (e : PlanningEntity) : EntityExecuteResponse :=
  {| Entity := e;
     DependenciesStatus := {| AllMet := true; Pending := [] |};
     Inputs := ∅ |}.

Definition blocked (e : PlanningEntity) : EntityExecuteResponse :=
  {| Entity := e;
     DependenciesStatus :=
       {| AllMet := false;
          Pending := [{| Label := "prev"; EntityID := "t0" |}] |};
     Inputs := ∅ |}.

Definition dq : string := String "034" "".

(** the text [{"b":1}] *)
Definition json_b1 : string := "{" +:+ dq +:+ "b" +:+ dq +:+ ":1}".

(** the text [{"a":1}], bare and inside a fence tagged [json] *)
Definition json_a1 : string := "{" +:+ dq +:+ "a" +:+ dq +:+ ":1}".

Definition fenced_a1 : string :=
  "```json" +:+ validator.newline +:+ json_a1 +:+ validator.newline +:+ "```".

(** the text [{"a":"}"}]: one object, whose string value is a closing brace *)
Definition json_brace : string :=
  "{" +:+ dq +:+ "a" +:+ dq +:+ ":" +:+ dq +:+ "}" +:+ dq +:+ "}".

(** its first seven bytes: the text above without its last quote and brace *)
Definition json_brace_cut : string :=
  "{" +:+ dq +:+ "a" +:+ dq +:+ ":" +:+ dq +:+ "}".

Definition catalogue : list (string * EntityExecuteResponse) :=
  [ ("c1", ready (entity "c1" ExecutionModeBash (Some "echo one") ∅ ∅));
    ("c2", ready (entity "c2" ExecutionModeBash (Some "exit 3") ∅ ∅));
    ("c3", ready (entity "c3" ExecutionModeBash (Some "echo three") ∅ ∅));
    ("ask", ready (entity "ask" ExecutionModeAskUser None ∅ ∅));
    ("ask-blocked", blocked (entity "ask-blocked" ExecutionModeAskUser None ∅ ∅));
    ("blocked", blocked (entity "blocked" ExecutionModeBash (Some "echo x") ∅ ∅));
    ("needs-a", ready (entity "needs-a" ExecutionModeBash (Some "echo x") schema_a ∅));
    ("prose", ready (entity "prose" ExecutionModeBash (Some "hello") ∅ schema_a));
    ("wrong", ready (entity "wrong" ExecutionModeBash (Some json_b1) ∅ schema_a));
    ("slow", ready (entity "slow" ExecutionModeBash (Some "sleep 900") ∅ ∅));
    ("burst", ready (entity "burst" ExecutionModeBash (Some burst) ∅ ∅)) ].

(** what the backend answers for the entity [prose], and the completion
    request of its run *)
Definition prose_result : executor.ExecutionResult :=
  {| executor.Success := true; executor.Stdout := "hello";
     executor.Stderr := ""; executor.ExitCode := 0; executor.Error := None |}.

Definition prose_request : ExecutionCompleteRequest :=
  cmd.completion_request prose_result None
    (Some (cmd.OUTPUT_SCHEMA ValidationOutcomeWarn ValidationSeverityWarning ∅
             (Some "Failed to extract structured output: no JSON object found in output")))
    0.

Definition server (tasks : list string) (sigterm : option Z) : Server :=
  {| entities := catalogue; queue := tasks; started := 0;
     sigterm_after := sigterm |}.

Definition boot (w : Server) : cmd.St Server := {| cmd.wld := w; cmd.trace := [] |}.

Definition globals : cmd.Globals :=
  {| cmd.agentID := "agent-1"; cmd.serviceKey := "key" |}.

Definition params (id : string) : cmd.EntityExecutionParams :=
  {| cmd.params_EntityID := id; cmd.params_AgentID := "agent-1";
     cmd.params_ServiceKey := "key" |}.

(** the calls of a trace that create a run, and those that complete one *)
Definition starts (t : list Event) : list string :=
  omap (fun e => match e with
                 | CallStartExecution req => Some (start_EntityID req)
                 | _ => None
                 end) t.

Definition completions (t : list Event)
  : list (string * ExecutionAttemptStatus * option string) :=
  omap (fun e => match e with
                 | CallCompleteExecution id req =>
                     Some (id, Status req, complete_FailureReason req)
                 | _ => None
                 end) t.

End fake.

(** ** [runExecute] ([cmd/run.go]) and the exit status of the command *)

Module run.
Import world api cmd.

(** the flags [--agent-id], [--service-key] and [--api-url] *)
Record Flags : Type := {
  flag_agentID : string;
  flag_serviceKey : string;
  flag_apiURL : string;
}.

(** [if v == "" { v = os.Getenv(name) }] *)
Definition flag_or_env (flag env : string) : string :=
  if String.eqb flag "" then env else flag.

(** how the command ends: [RunE] returns, or [os.Exit] is called *)
Inductive Finished : Type :=
| Returned (err : option error)
| Exited (code : Z).

(** the exit status of the process: [main] exits with 1 when
    [cmd.Execute()] returns an error *)
Definition exit_status (f : Finished) : Z :=
  match f with
  | Returned None => 0
  | Returned (Some _) => 1
  | Exited code => code
  end.

Section RunExecute.
Context {W : Type} (NewClient : string -> Env W) (Getenv : string -> string).

Definition resolve_apiURL (flags : Flags) : string :=
  let apiURL := flag_or_env (flag_apiURL flags) (Getenv "KINDSHIP_API_URL") in
  if String.eqb apiURL "" then "https://kindship.ai" else apiURL.

(** the package-level [agentID] and [serviceKey] after the fallback *)
Definition resolve_globals (flags : Flags) : Globals :=
  {| agentID := flag_or_env (flag_agentID flags) (Getenv "AGENT_ID");
     serviceKey := flag_or_env (flag_serviceKey flags) (Getenv "KINDSHIP_SERVICE_KEY") |}.

(** [func runExecute(cmd *cobra.Command, args []string) error] with
    [args[0] = entityID]; [fuel] bounds the loop of a Process. *)
Definition runExecute (flags : Flags) (fuel : nat) (entityID : string)
    (st : St W) : option (Finished * St W) :=
  let G := resolve_globals flags in
  let apiURL := resolve_apiURL flags in
  if String.eqb (agentID G) "" then
    Some (Returned (Some (Errorf
      "AGENT_ID is required (use --agent-id flag or AGENT_ID environment variable)")),
          st)
  else if String.eqb (serviceKey G) "" then
    Some (Returned (Some (Errorf
      "KINDSHIP_SERVICE_KEY is required (use --service-key flag or KINDSHIP_SERVICE_KEY environment variable)")),
          st)
  else
    let client := NewClient apiURL in
    (* fetch entity to detect type before execution *)
    let '(r, st) :=
      Client_FetchEntityForExecution client entityID (serviceKey G) st in
    match r with
    | inl err =>
        Some (Returned (Some (Wrapf "failed to fetch entity" (Errorf err))), st)
    | inr entityResp =>
        if String.eqb (Type_ (Entity entityResp)) "PROCESS" then
          match runProcessExecution client G fuel entityID st with
          | None => None
          | Some (err, st) => Some (Returned err, st)
          end
        else
          let '((success, err), st) :=
            executeEntity client
              {| params_EntityID := entityID;
                 params_AgentID := agentID G;
                 params_ServiceKey := serviceKey G |} st in
          match err with
          | Some e =>
              if IsAskUserSkipped e then Some (Returned None, st)
              else Some (Returned (Some e), st)
          | None =>
              if negb success then Some (Exited 1, st)
              else Some (Returned None, st)
          end
    end.

End RunExecute.

End run.

(** ** The main loop of [runLoop] ([cmd/agent.go]) *)

Module loop.
Import world api cmd.

(** What the loop needs besides the lifecycle: the agent-scoped query, and
    [sleepWithContext], which answers [true] when the context was cancelled
    before the timer fired. *)
Record LoopEnv (W : Type) : Type := {
  core : Env W;
  FetchNextTask : string -> string -> W -> (string + PlanNextResponse) * W;
  sleepWithContext : Z -> W -> bool * W;
}.
Arguments core {W} _.
Arguments FetchNextTask {W} _ _ _ _.
Arguments sleepWithContext {W} _ _ _.

Inductive LoopEvent : Type :=
| Lifecycle (e : Event)             (* an event of [executeEntity], or [CtxDone] *)
| CallFetchNextTask (agentID : string)
| Slept (seconds : Z) (cancelled : bool).

Record LoopSt (W : Type) : Type := {
  lwld : W;
  ltrace : list LoopEvent;
}.
Arguments lwld {W} _.
Arguments ltrace {W} _.

Section Loop.
Context {W : Type} (L : LoopEnv W) (G : Globals).

Definition lemit (e : LoopEvent) (w : W) (st : LoopSt W) : LoopSt W :=
  {| lwld := w; ltrace := ltrace st ++ [e] |}.

(** [executeEntity] run from the loop: its events join the trace *)
Definition lifecycle (taskID : string) (st : LoopSt W)
  : (bool * option error) * LoopSt W :=
  let '(r, s) :=
    executeEntity (core L)
      {| params_EntityID := taskID;
         params_AgentID := agentID G;
         params_ServiceKey := serviceKey G |}
      {| wld := lwld st; trace := [] |} in
  (r, {| lwld := wld s; ltrace := ltrace st ++ (Lifecycle <$> trace s) |}).

(** The [for] loop of [runLoop] after the start-up, polling every
    [pollInterval] seconds when idle. One unit of fuel is one iteration;
    the result is the state at the [return nil], [None] when the fuel ran
    out first. The outcome of a task is logged only. *)
Fixpoint poll_loop (fuel : nat) (pollInterval : Z) (st : LoopSt W)
  : option (LoopSt W) :=
  match fuel with
  | O => None
  | S fuel' =>
      if ctxDone (core L) (lwld st) then
        Some (lemit (Lifecycle CtxDone) (lwld st) st)
      else
        let '(r, w) := FetchNextTask L (agentID G) (serviceKey G) (lwld st) in
        let st := lemit (CallFetchNextTask (agentID G)) w st in
        let idle :=
          let '(cancelled, w) := sleepWithContext L pollInterval (lwld st) in
          let st := lemit (Slept pollInterval cancelled) w st in
          if cancelled then Some st else poll_loop fuel' pollInterval st in
        match r with
        | inl _ => idle
        | inr nextResp =>
            match Task nextResp with
            | None => idle
            | Some task =>
                let '(_, st) := lifecycle (task_ID task) st in
                poll_loop fuel' pollInterval st
            end
        end
  end.

End Loop.

(** no sleep follows anything but a fetch: [prev] is the event before [t] *)
Fixpoint sleeps_after_fetch (prev : option LoopEvent) (t : list LoopEvent) : Prop :=
  match t with
  | [] => True
  | e :: t' =>
      match e with
      | Slept _ _ =>
          match prev with
          | Some (CallFetchNextTask _) => True
          | _ => False
          end
      | _ => True
      end /\ sleeps_after_fetch (Some e) t'
  end.

End loop.

(** ** The inputs of a task: [buildEnvWithInputs] ([internal/executor/bash.go]),
       [GetInputLabels] and [FormatInputsForDisplay] ([internal/validator/schema.go]) *)

Module inputs.

(** [strings.ReplaceAll(s, "-", "_")]: both are one byte long *)
Fixpoint dash_to_underscore (s : string) : string :=
  match s with
  | EmptyString => EmptyString
  | String c s' =>
      String (if Ascii.eqb c "-" then "_"%char else c) (dash_to_underscore s')
  end.

(** [strings.ToUpper] on the letters [a] to [z]; other bytes stay. This is
    [strings.ToUpper] for texts of one-byte characters. *)
Definition upper (c : ascii) : ascii :=
  let n := nat_of_ascii c in
  if ((97 <=? n)%nat && (n <=? 122)%nat) then ascii_of_nat (n - 32) else c.

Fixpoint ToUpper (s : string) : string :=
  match s with
  | EmptyString => EmptyString
  | String c s' => String (upper c) (ToUpper s')
  end.

(** every byte is below 128 *)
Fixpoint is_ascii (s : string) : bool :=
  match s with
  | EmptyString => true
  | String c s' => (nat_of_ascii c <? 128)%nat && is_ascii s'
  end.

Definition inputDir : string := "/tmp/.kindship-inputs".

(** [envKey] of the loop body *)
Definition envKey (label : string) : string :=
  "INPUT_" +:+ ToUpper (dash_to_underscore label).

(** [filePath] of the loop body *)
Definition filePath (label : string) : string :=
  inputDir +:+ "/" +:+ label +:+ ".json".

Section Env.
(** [json.Marshal] of a value ([None] when it fails), and whether
    [os.WriteFile] succeeds on a path *)
Context (Marshal : json.value -> option string) (writable : string -> bool).

(** One iteration of the [range] loop: the environment and the files so
    far, then the label and its value. *)
Definition add_input (acc : list string * gmap string string)
    (input : string * json.value) : list string * gmap string string :=
  let '(env, files) := acc in
  let '(label, value) := input in
  match Marshal value with
  | None => (env, files)
  | Some jsonBytes =>
      let env := env ++ [envKey label +:+ "=" +:+ jsonBytes] in
      let path := filePath label in
      if writable path then
        (env ++ [envKey label +:+ "_FILE=" +:+ path], <[path := jsonBytes]> files)
      else (env, files)
  end.

(** [func buildEnvWithInputs(inputs map[string]interface{}) []string]:
    [environ] is [os.Environ()], [visited] the entries of [inputs] in the
    order in which the [range] visits them, [files] the files that exist. The
    result is the environment and the files afterwards. *)
Definition buildEnvWithInputs (environ : list string)
    (visited : list (string * json.value)) (files : gmap string string)
  : list string * gmap string string :=
  foldl add_input (environ, files) visited.

(** one entry of [FormatInputsForDisplay] *)
Definition display_part (input : string * json.value) : string :=
  let '(label, value) := input in
  match Marshal value with
  | None => label +:+ ": [error marshaling]"
  | Some jsonStr =>
      let jsonStr :=
        if 100 <? gostrings.len jsonStr
        then gostrings.slice jsonStr 0 100 +:+ "..." else jsonStr in
      label +:+ ": " +:+ jsonStr
  end.

(** [func FormatInputsForDisplay(inputs map[string]interface{}) string],
    on the entries in the order of the [range] *)
Definition FormatInputsForDisplay (visited : list (string * json.value)) : string :=
  match visited with
  | [] => "No inputs"
  | _ => gostrings.Join (map display_part visited) (validator.newline +:+ "  ")
  end.

End Env.


End inputs.

(** ** Counting in texts and traces *)

Module observe.
Import world api.

(** how often the byte [c] occurs in [s] *)
Fixpoint count_byte (c : ascii) (s : string) : nat :=
  match s with
  | EmptyString => O
  | String d s' => (if Ascii.eqb d c then 1 else 0) + count_byte c s'
  end.

(** the completions with status Success in a trace *)
Definition is_success_completion (e : Event) : bool :=
  match e with
  | CallCompleteExecution _ req =>
      match Status req with ExecutionAttemptStatusSuccess => true | _ => false end
  | _ => false
  end.

Definition is_task_fetch (e : Event) : bool :=
  match e with CallFetchNextTaskForProcess _ _ => true | _ => false end.

Definition count_events (f : Event -> bool) (t : list Event) : Z :=
  Z.of_nat (length (List.filter f t)).

(** the mode is one of those that [executeEntity] knows *)
Definition known_mode (mode : ExecutionMode) : Prop :=
  mode ∈ [ExecutionModeLLMReasoning; ExecutionModeBash; ExecutionModePython;
          ExecutionModePythonSandbox; ExecutionModeHybrid; ExecutionModeAskUser].

(** the run identifiers of the entries in [ORCHESTRATE] mode, in order *)
Definition orchestrate_ids (resumed : list ResumedRun) : list string :=
  RunID <$>
    List.filter
      (fun r => String.eqb (resumed_ExecutionMode r) ExecutionModeOrchestrate)
      resumed.

End observe.

(** ** More fake data, for concrete runs of the commands *)

Module scenes.
Import world api.

(** entities outside the catalogue: a Process in the mode [ORCHESTRATE],
    which [executeEntity] does not know; a shell task with the empty code;
    and a task in that unknown mode *)
Definition process (id : string) : PlanningEntity :=
  {| ID := id; Type_ := "PROCESS"; Title := id; Description := "";
     ExecutionMode_ := ExecutionModeOrchestrate; Status_ := "ACTIVE";
     InputSchema := ∅; OutputSchema := ∅; Code := None |}.

Definition catalogue : list (string * EntityExecuteResponse) :=
  [ ("proc", fake.ready (process "proc"));
    ("empty", fake.ready (fake.entity "empty" ExecutionModeBash (Some "") ∅ ∅));
    ("orch", fake.ready (fake.entity "orch" ExecutionModeOrchestrate None ∅ ∅)) ]
  ++ fake.catalogue.

Definition server (tasks : list string) (sigterm : option Z) : fake.Server :=
  {| fake.entities := catalogue; fake.queue := tasks; fake.started := 0;
     fake.sigterm_after := sigterm |}.

(** the command line and the environment of the command [run] *)
Definition no_flags : run.Flags :=
  {| run.flag_agentID := ""; run.flag_serviceKey := ""; run.flag_apiURL := "" |}.

Definition getenv (name : string) : string :=
  if String.eqb name "AGENT_ID" then "agent-1"
  else if String.eqb name "KINDSHIP_SERVICE_KEY" then "key"
  else "".

Definition empty_env (name : string) : string := "".

Definition new_client (apiURL : string) : Env fake.Server := fake.env.

(** the agent loop on the fake server: the agent-scoped query answers like
    the query of a Process, and a signal that is due at all arrives during
    the first sleep *)
Definition loop_env : loop.LoopEnv fake.Server :=
  {| loop.core := fake.env;
     loop.FetchNextTask := fun agent key w => fake.fake_next agent "" key w;
     loop.sleepWithContext :=
       fun seconds w =>
         (match fake.sigterm_after w with Some _ => true | None => false end, w) |}.

Definition loop_boot (w : fake.Server) : loop.LoopSt fake.Server :=
  {| loop.lwld := w; loop.ltrace := [] |}.

(** loop variables with an error on record *)
Definition failed_before : cmd.LoopState :=
  {| cmd.tasksExecuted := 0; cmd.lastError := Some (Errorf "boom");
     cmd.interrupted := false |}.

(** a recovery answer with distinct runs, and a schedule for it *)
Definition distinct_resumed : list ResumedRun :=
  [ {| RunID := "run-a"; resumed_EntityID := "proc-a";
       resumed_ExecutionMode := ExecutionModeOrchestrate |};
    {| RunID := "run-l"; resumed_EntityID := "leaf";
       resumed_ExecutionMode := ExecutionModeBash |};
    {| RunID := "run-b"; resumed_EntityID := "proc-b";
       resumed_ExecutionMode := ExecutionModeOrchestrate |} ].

Definition distinct_schedule : list recovery.Action :=
  [recovery.MainStep; recovery.MainStep; recovery.ReturnStep "run-a";
   recovery.MainStep; recovery.DeferStep "run-a"].



(** a writer with room for two more bytes, and a chunk of three *)
Definition small_writer : executor.limitedWriter :=
  {| executor.buf := [x61]; executor.limit := 3 |}.

Definition chunk : list byte := [x62; x63; x64].

End scenes.

(** * Properties *)

(** ** The output cap of [limitedWriter] *)

Section Cap.
Import executor.

Lemma take_take_app {A} (n : nat) (l k : list A) :
  take n (take n l ++ k) = take n (l ++ k).
Proof.
  destruct (decide (length l ≤ n)%nat) as [Hle | Hgt].
  - by rewrite (take_ge l n).
  - rewrite (take_app_le l k) by lia.
    rewrite take_app_le by (rewrite length_take; lia).
    by rewrite take_take, Nat.min_id.
Qed.

Lemma Write_limit (w : limitedWriter) (p : list byte) :
  limit (Write w p).1 = limit w.
Proof. unfold Write, Buffer_Write. by repeat case_match. Qed.

Lemma Write_buf (w : limitedWriter) (p : list byte) :
  within w ->
  buf (Write w p).1 = take (Z.to_nat (limit w)) (buf w ++ p).
Proof.
  unfold within, Write, Buffer_Write. intros Hw.
  destruct (limit w - Z.of_nat (length (buf w)) <=? 0) eqn:Hfull; simpl.
  - apply Z.leb_le in Hfull.
    rewrite take_app_le by lia. rewrite take_ge by lia. done.
  - apply Z.leb_gt in Hfull.
    destruct (Z.of_nat (length p) >? limit w - Z.of_nat (length (buf w))) eqn:Hbig.
    + apply Z.gtb_lt in Hbig.
      rewrite take_app_ge by lia. f_equal. f_equal. lia.
    + rewrite Z.gtb_ltb in Hbig. apply Z.ltb_ge in Hbig.
      rewrite take_ge; [done |]. rewrite length_app. lia.
Qed.

Lemma Write_within (w : limitedWriter) (p : list byte) :
  within w -> within (Write w p).1.
Proof.
  intros Hw. unfold within. rewrite Write_limit, Write_buf by done.
  rewrite length_take. unfold within in Hw. lia.
Qed.

(** the error of [Write] is nil on every call *)
Lemma Write_no_error (w : limitedWriter) (p : list byte) :
  (Write w p).2.2 = None.
Proof. unfold Write, Buffer_Write. by repeat case_match. Qed.

(** the count [Write] answers: the whole chunk once the buffer is full,
    else what it appended - less than the chunk when the chunk did not fit *)
Lemma Write_count (w : limitedWriter) (p : list byte) :
  within w ->
  (Write w p).2.1 =
    if limit w - Z.of_nat (length (buf w)) <=? 0 then Z.of_nat (length p)
    else Z.min (Z.of_nat (length p)) (limit w - Z.of_nat (length (buf w))).
Proof.
  unfold within, Write, Buffer_Write. intros Hw.
  destruct (limit w - Z.of_nat (length (buf w)) <=? 0) eqn:Hfull; [done |].
  apply Z.leb_gt in Hfull.
  destruct (Z.of_nat (length p) >? limit w - Z.of_nat (length (buf w))) eqn:Hbig;
    simpl.
  - apply Z.gtb_lt in Hbig. rewrite length_take. lia.
  - rewrite Z.gtb_ltb in Hbig. apply Z.ltb_ge in Hbig. lia.
Qed.

(** one step of the copy, by the three facts above *)
Lemma Copy_cons (w : limitedWriter) (p : list byte) (chunks : list (list byte)) :
  Copy w (p :: chunks)
  = if negb ((Write w p).2.1 =? Z.of_nat (length p))
    then ((Write w p).1, Some ErrShortWrite)
    else Copy (Write w p).1 chunks.
Proof.
  simpl. pose proof (Write_no_error w p) as He.
  destruct (Write w p) as [w' [nw ew]]. simpl in *. by rewrite He.
Qed.

(** a [Write] is short exactly when the chunk crosses the limit *)
Lemma Write_short_iff (w : limitedWriter) (p : list byte) :
  within w ->
  negb ((Write w p).2.1 =? Z.of_nat (length p)) = true
  <-> Z.of_nat (length (buf w)) < limit w < Z.of_nat (length (buf w ++ p)).
Proof.
  intros Hw. rewrite Write_count by done. unfold within in Hw.
  rewrite negb_true_iff, Z.eqb_neq, length_app.
  destruct (limit w - Z.of_nat (length (buf w)) <=? 0) eqn:Hfull.
  - apply Z.leb_le in Hfull. lia.
  - apply Z.leb_gt in Hfull. lia.
Qed.

(** Whether the copy ends early or not, the buffer holds the first [limit]
    bytes of what the pipe delivers. *)
Lemma Copy_spec (chunks : list (list byte)) : forall w : limitedWriter,
  within w ->
  limit (Copy w chunks).1 = limit w /\
  buf (Copy w chunks).1 = take (Z.to_nat (limit w)) (buf w ++ concat chunks).
Proof.
  induction chunks as [| p chunks IH]; intros w Hw.
  - simpl. split; [done |]. rewrite app_nil_r, take_ge; [done |].
    unfold within in Hw. lia.
  - rewrite Copy_cons.
    destruct (negb ((Write w p).2.1 =? Z.of_nat (length p))) eqn:Hshort.
    + apply Write_short_iff in Hshort; [| done]. simpl fst.
      rewrite Write_limit, Write_buf by done. split; [done |].
      simpl concat. rewrite app_assoc.
      rewrite (take_app_le (buf w ++ p)); [done | lia].
    + destruct (IH (Write w p).1 (Write_within w p Hw)) as [Hl Hb].
      rewrite Hl, Hb, Write_limit, Write_buf by done.
      split; [done |]. simpl. by rewrite take_take_app, <- app_assoc.
Qed.

(** The copy fails with a short write as soon as a chunk crosses the limit:
    the chunks before it fit below the limit, and it does not. *)
Lemma Copy_crossing (pre : list (list byte)) :
  forall (w : limitedWriter) (p : list byte) (post : list (list byte)),
    within w ->
    Z.of_nat (length (buf w ++ concat pre)) < limit w ->
    limit w < Z.of_nat (length (buf w ++ concat pre ++ p)) ->
    (Copy w (pre ++ p :: post)).2 = Some ErrShortWrite.
Proof.
  induction pre as [| q pre IH]; intros w p post Hw Hlo Hhi.
  - simpl app. rewrite Copy_cons.
    assert (negb ((Write w p).2.1 =? Z.of_nat (length p)) = true) as ->; [| done].
    apply Write_short_iff; [done |].
    simpl in Hlo, Hhi. rewrite app_nil_r in Hlo. lia.
  - simpl app. rewrite Copy_cons.
    simpl concat in Hlo, Hhi.
    repeat rewrite length_app in Hlo. repeat rewrite length_app in Hhi.
    assert (negb ((Write w q).2.1 =? Z.of_nat (length q)) = false) as ->.
    { apply not_true_is_false. intros Hs%Write_short_iff; [| done].
      rewrite length_app in Hs. lia. }
    assert (Hb : buf (Write w q).1 = buf w ++ q).
    { rewrite Write_buf by done. apply take_ge. rewrite length_app. lia. }
    apply IH.
    + by apply Write_within.
    + rewrite Write_limit, Hb, !length_app. lia.
    + rewrite Write_limit, Hb, !length_app. lia.
Qed.

(** an output that stays within the limit is copied without error *)
Lemma Copy_fits (chunks : list (list byte)) : forall w : limitedWriter,
  within w ->
  Z.of_nat (length (buf w ++ concat chunks)) <= limit w ->
  (Copy w chunks).2 = None.
Proof.
  induction chunks as [| p chunks IH]; intros w Hw Hfit; [done |].
  rewrite Copy_cons. simpl concat in Hfit. repeat rewrite length_app in Hfit.
  assert (negb ((Write w p).2.1 =? Z.of_nat (length p)) = false) as ->.
  { apply not_true_is_false. intros Hs%Write_short_iff; [| done].
    rewrite length_app in Hs. lia. }
  assert (Hb : buf (Write w p).1 = buf w ++ p).
  { rewrite Write_buf by done. apply take_ge. rewrite length_app. lia. }
  apply IH; [by apply Write_within |].
  rewrite Write_limit, Hb, !length_app. lia.
Qed.

Lemma string_of_list_byte_length (l : list byte) :
  String.length (string_of_list_byte l) = length l.
Proof.
  induction l as [| b l IH]; [done |].
  change (string_of_list_byte (b :: l))
    with (String (ascii_of_byte b) (string_of_list_byte l)).
  simpl String.length. by rewrite IH.
Qed.

Lemma maxOutputBytes_val : maxOutputBytes = 1048576.
Proof. reflexivity. Qed.

Lemma empty_within : within {| buf := []; limit := maxOutputBytes |}.
Proof. unfold within. simpl. rewrite maxOutputBytes_val. lia. Qed.

Lemma captured_spec (chunks : list (list byte)) :
  (captured chunks).1
  = string_of_list_byte (take (Z.to_nat 1048576) (concat chunks)).
Proof.
  unfold captured.
  destruct (Copy_spec chunks {| buf := []; limit := maxOutputBytes |} empty_within)
    as [_ Hb].
  destruct (Copy _ chunks) as [w e]. simpl in *.
  by rewrite Hb, maxOutputBytes_val.
Qed.

Lemma captured_len (chunks : list (list byte)) :
  gostrings.len (captured chunks).1 <= 1048576.
Proof.
  rewrite captured_spec. unfold gostrings.len.
  rewrite string_of_list_byte_length, length_take. lia.
Qed.

Lemma captured_error (chunks : list (list byte)) :
  (captured chunks).2
  = (Copy {| buf := []; limit := maxOutputBytes |} chunks).2.
Proof. unfold captured. by destruct (Copy _ chunks). Qed.

Lemma run_capped_streams {W : Type} (E : world.Env W) (inv : world.Invocation)
    (w : W) :
  Stdout (run_capped E inv w).1
  = (captured (world.stdout_chunks (world.Run E inv w).1)).1
  /\ Stderr (run_capped E inv w).1
     = (captured (world.stderr_chunks (world.Run E inv w).1)).1.
Proof.
  unfold run_capped. destruct (world.Run E inv w) as [out w']. simpl.
  destruct (captured (world.stdout_chunks out)) as [so eo].
  destruct (captured (world.stderr_chunks out)) as [se ee].
  destruct (Run_error _ eo ee); [destruct (world.deadline_exceeded out) |]; done.
Qed.

(** What holds of the cap in every shell or Python execution, whatever the
    subprocess writes and in whatever chunks: no [Write] of the capping
    writer answers an error value; the captured stdout and the captured
    stderr are exactly the first 1,048,576 bytes of what the pipe delivers
    (all of it when it is shorter), and so are at most 1,048,576 bytes
    long. *)
Lemma capped_output_is_first_MiB :
  (forall (w : limitedWriter) (p : list byte), (Write w p).2.2 = None) /\
  (forall {W : Type} (E : world.Env W) (inv : world.Invocation) (w : W),
     let out := (world.Run E inv w).1 in
     let r := (run_capped E inv w).1 in
     Stdout r =
       string_of_list_byte (take (Z.to_nat 1048576) (concat (world.stdout_chunks out))) /\
     Stderr r =
       string_of_list_byte (take (Z.to_nat 1048576) (concat (world.stderr_chunks out))) /\
     gostrings.len (Stdout r) <= 1048576 /\
     gostrings.len (Stderr r) <= 1048576) /\
  (forall {W : Type} (E : world.Env W) (entity : api.PlanningEntity)
          (inputs : GoMap) (w : W),
     gostrings.len (Stdout (ExecuteBash E entity inputs w).1) <= 1048576 /\
     gostrings.len (Stderr (ExecuteBash E entity inputs w).1) <= 1048576 /\
     gostrings.len (Stdout (ExecutePython E entity inputs w).1) <= 1048576 /\
     gostrings.len (Stderr (ExecutePython E entity inputs w).1) <= 1048576).
Proof.
  assert (Hcap : forall {W : Type} (E : world.Env W) inv (w : W),
             gostrings.len (Stdout (run_capped E inv w).1) <= 1048576 /\
             gostrings.len (Stderr (run_capped E inv w).1) <= 1048576).
  { intros W E inv w. destruct (run_capped_streams E inv w) as [-> ->].
    split; apply captured_len. }
  split; [apply Write_no_error |]. split.
  - intros W E inv w. simpl. destruct (run_capped_streams E inv w) as [Ho He].
    rewrite Ho, He, <- !captured_spec. repeat split; apply captured_len.
  - intros W E entity inputs w. unfold ExecuteBash, ExecutePython.
    destruct (api.Code entity) as [code |]; [destruct (String.eqb code "") |];
      simpl; repeat split;
      first [ apply Hcap | unfold gostrings.len; simpl; lia ].
Qed.

(** A stdout that crosses the cap inside a chunk makes the run fail: when
    the process itself ends well and in time, and some chunk of its stdout
    starts below 1,048,576 bytes and ends above, [cmd.Run()] returns the
    short write of the copy, and the result has [Success] false and exit
    code 1. *)
Lemma run_capped_short_write {W : Type} (E : world.Env W)
    (inv : world.Invocation) (w : W) (pre : list (list byte)) (p : list byte)
    (post : list (list byte)) :
  world.wait_err (world.Run E inv w).1 = None ->
  world.deadline_exceeded (world.Run E inv w).1 = false ->
  world.stdout_chunks (world.Run E inv w).1 = pre ++ p :: post ->
  Z.of_nat (length (concat pre)) < 1048576 ->
  1048576 < Z.of_nat (length (concat pre ++ p)) ->
  Error (run_capped E inv w).1 = Some (Errorf "short write")
  /\ Success (run_capped E inv w).1 = false
  /\ ExitCode (run_capped E inv w).1 = 1.
Proof.
  intros Hwait Hdl Hchunks Hlo Hhi. unfold run_capped.
  destruct (world.Run E inv w) as [out w']. simpl in *.
  pose proof (captured_error (world.stdout_chunks out)) as Herr.
  rewrite Hchunks, Copy_crossing in Herr;
    [| apply empty_within | by rewrite maxOutputBytes_val
     | by rewrite maxOutputBytes_val].
  rewrite <- Hchunks in Herr.
  destruct (captured (world.stdout_chunks out)) as [so eo].
  destruct (captured (world.stderr_chunks out)) as [se ee].
  simpl in Herr. subst eo. rewrite Hwait, Hdl. done.
Qed.

(** an output within the cap on both streams changes nothing: the error of
    the run is that of the process *)
Lemma run_capped_within_cap {W : Type} (E : world.Env W)
    (inv : world.Invocation) (w : W) :
  Z.of_nat (length (concat (world.stdout_chunks (world.Run E inv w).1))) <= 1048576 ->
  Z.of_nat (length (concat (world.stderr_chunks (world.Run E inv w).1))) <= 1048576 ->
  world.wait_err (world.Run E inv w).1 = None ->
  Error (run_capped E inv w).1 = None /\ Success (run_capped E inv w).1 = true.
Proof.
  intros Ho He Hwait. unfold run_capped.
  destruct (world.Run E inv w) as [out w']. simpl in *.
  pose proof (captured_error (world.stdout_chunks out)) as Herr1.
  pose proof (captured_error (world.stderr_chunks out)) as Herr2.
  rewrite Copy_fits in Herr1;
    [| apply empty_within | by rewrite maxOutputBytes_val].
  rewrite Copy_fits in Herr2;
    [| apply empty_within | by rewrite maxOutputBytes_val].
  destruct (captured (world.stdout_chunks out)) as [so eo].
  destruct (captured (world.stderr_chunks out)) as [se ee].
  simpl in *. subst. by rewrite Hwait.
Qed.

(** C4, at a run whose stdout crosses the cap inside a chunk: the script
    [burst] has written 1,048,570 bytes when its last ten arrive. [Write]
    appends six of the ten and answers the count 6 with a nil error; the
    copy of the stream ends with a short write, which [cmd.Run()] returns
    although the process exited with status 0. The result keeps exactly
    the first 1,048,576 bytes, and it reports the run as failed with exit
    code 1 and the error of the short write: the bytes beyond the cap were
    not dropped without an error. *)
Theorem capped_output_short_write :
  let r := (ExecuteBash fake.env
              (fake.entity "burst" api.ExecutionModeBash (Some fake.burst) ∅ ∅)
              ∅ (fake.server [] None)).1 in
  (Write {| buf := fake.zeros; limit := maxOutputBytes |} fake.ten_digits).2
  = (6, None)
  /\ Error r = Some (Errorf "short write")
  /\ Success r = false
  /\ ExitCode r = 1
  /\ gostrings.len (Stdout r) = 1048576.
Proof.
  assert (Hz : Z.of_nat (length fake.zeros) = 1048570).
  { unfold fake.zeros. rewrite length_replicate. lia. }
  assert (Ht : length fake.ten_digits = 10%nat) by reflexivity.
  set (w := fake.server [] None).
  set (inv := world.InvokeSh fake.burst ∅).
  change (ExecuteBash fake.env
            (fake.entity "burst" api.ExecutionModeBash (Some fake.burst) ∅ ∅) ∅ w)
    with (run_capped fake.env inv w).
  assert (Hchunks : world.stdout_chunks (world.Run fake.env inv w).1
                    = [fake.zeros] ++ fake.ten_digits :: []) by reflexivity.
  cbv zeta. split.
  - assert (Hw : within {| buf := fake.zeros; limit := maxOutputBytes |}).
    { unfold within. cbn [buf limit]. rewrite Hz, maxOutputBytes_val. lia. }
    pose proof (Write_count _ fake.ten_digits Hw) as Hc.
    pose proof (Write_no_error {| buf := fake.zeros; limit := maxOutputBytes |}
                  fake.ten_digits) as He.
    cbn [buf limit] in Hc. rewrite Hz, Ht, maxOutputBytes_val in Hc.
    destruct (Write _ fake.ten_digits) as [w' [n e]].
    cbn [fst snd] in *. subst n e. reflexivity.
  - destruct (run_capped_short_write fake.env inv w [fake.zeros] fake.ten_digits [])
      as (He & Hs & Hx).
    + reflexivity.
    + reflexivity.
    + exact Hchunks.
    + cbn [concat]. rewrite ?length_app. cbn [length]. lia.
    + cbn [concat]. rewrite ?length_app. cbn [length]. lia.
    + split; [exact He |]. split; [exact Hs |]. split; [exact Hx |].
      destruct (proj1 (proj2 capped_output_is_first_MiB) _ fake.env inv w)
        as (Ho & _).
      cbv zeta in Ho. rewrite Ho, Hchunks. unfold gostrings.len.
      rewrite string_of_list_byte_length, length_take.
      cbn [concat app]. rewrite ?length_app. cbn [length]. lia.
Qed.

End Cap.

(** ** The success flag of the backends *)

Section SuccessFlag.
Import executor world.
Context {W : Type} (E : Env W).

Lemma run_capped_flag (inv : Invocation) (w : W) :
  Success (run_capped E inv w).1 = (ExitCode (run_capped E inv w).1 =? 0).
Proof.
  unfold run_capped. destruct (Run E inv w) as [out w'].
  destruct (captured (stdout_chunks out)) as [so eo].
  destruct (captured (stderr_chunks out)) as [se ee].
  destruct (Run_error _ eo ee) as [e |]; [destruct (deadline_exceeded out) |];
    done.
Qed.

Lemma ExecuteBash_flag (entity : api.PlanningEntity) (inputs : GoMap) (w : W) :
  Success (ExecuteBash E entity inputs w).1
  = (ExitCode (ExecuteBash E entity inputs w).1 =? 0).
Proof.
  unfold ExecuteBash.
  destruct (api.Code entity) as [code |]; [destruct (String.eqb code "") |];
    try done.
  apply run_capped_flag.
Qed.

Lemma ExecutePython_flag (entity : api.PlanningEntity) (inputs : GoMap) (w : W) :
  Success (ExecutePython E entity inputs w).1
  = (ExitCode (ExecutePython E entity inputs w).1 =? 0).
Proof.
  unfold ExecutePython.
  destruct (api.Code entity) as [code |]; [destruct (String.eqb code "") |];
    try done.
  apply run_capped_flag.
Qed.

Lemma ExecuteLLM_flag (entity : api.PlanningEntity) (inputs : GoMap) (w : W) :
  Success (ExecuteLLM E entity inputs w).1
  = (ExitCode (ExecuteLLM E entity inputs w).1 =? 0).
Proof. unfold ExecuteLLM. by destruct (Run E (InvokeClaude entity inputs) w). Qed.

Lemma flag_iff (r : ExecutionResult) :
  Success r = (ExitCode r =? 0) -> (Success r = true <-> ExitCode r = 0).
Proof. intros ->. apply Z.eqb_eq. Qed.

(** C9. The result of each backend has [Success] exactly when [ExitCode]
    is 0. In particular the result for a missing or empty code has exit code
    1, the result of a run whose process ended in an error with the deadline
    exceeded has exit code 124, the result of a run whose process could not
    be started has exit code 1, and all of these have [Success] false. *)
Theorem success_iff_exit_code_zero
    (entity : api.PlanningEntity) (inputs : GoMap) (w : W) :
  (Success (ExecuteBash E entity inputs w).1 = true
   <-> ExitCode (ExecuteBash E entity inputs w).1 = 0) /\
  (Success (ExecutePython E entity inputs w).1 = true
   <-> ExitCode (ExecutePython E entity inputs w).1 = 0) /\
  (Success (ExecuteLLM E entity inputs w).1 = true
   <-> ExitCode (ExecuteLLM E entity inputs w).1 = 0) /\
  (forall what : string,
     ExitCode (no_code what) = 1 /\ Success (no_code what) = false) /\
  (api.Code entity = None \/ api.Code entity = Some ""%string ->
     (ExecuteBash E entity inputs w).1 = no_code "BASH" /\
     (ExecutePython E entity inputs w).1 = no_code "PYTHON") /\
  (forall inv : Invocation,
     is_Some (wait_err (Run E inv w).1) ->
     deadline_exceeded (Run E inv w).1 = true ->
     ExitCode (run_capped E inv w).1 = 124 /\
     Success (run_capped E inv w).1 = false) /\
  (forall (inv : Invocation) (msg : string),
     wait_err (Run E inv w).1 = Some (OtherError msg) ->
     deadline_exceeded (Run E inv w).1 = false ->
     ExitCode (run_capped E inv w).1 = 1 /\
     Success (run_capped E inv w).1 = false) /\
  (forall msg : string,
     wait_err (Run E (InvokeClaude entity inputs) w).1 = Some (OtherError msg) ->
     ExitCode (ExecuteLLM E entity inputs w).1 = 1 /\
     Success (ExecuteLLM E entity inputs w).1 = false).
Proof.
  split; [apply flag_iff, ExecuteBash_flag |].
  split; [apply flag_iff, ExecutePython_flag |].
  split; [apply flag_iff, ExecuteLLM_flag |].
  split; [done |]. split.
  - unfold ExecuteBash, ExecutePython. by intros [-> | ->].
  - split; [| split].
    + intros inv [e He] Hd. unfold run_capped.
      destruct (Run E inv w) as [out w']. simpl in *.
      destruct (captured (stdout_chunks out)) as [so eo].
      destruct (captured (stderr_chunks out)) as [se ee].
      by rewrite He, Hd.
    + intros inv msg He Hd. unfold run_capped.
      destruct (Run E inv w) as [out w']. simpl in *.
      destruct (captured (stdout_chunks out)) as [so eo].
      destruct (captured (stderr_chunks out)) as [se ee].
      by rewrite He, Hd.
    + intros msg He. unfold ExecuteLLM.
      destruct (Run E (InvokeClaude entity inputs) w) as [out w'].
      simpl in *. by rewrite He.
Qed.

End SuccessFlag.

(** ** The output extractor *)

Section Extractor.
Import gostrings validator.

(** the byte [c] does not occur in [s] *)
Local Abbreviation absent c s := (has_byte c s = false).

Lemma absent_TrimLeft (c : ascii) (s : string) :
  absent c s -> absent c (TrimLeft s).
Proof.
  induction s as [| d s IH]; [done |]. intros H. simpl.
  destruct (isSpace d); [| done].
  simpl in H. apply orb_false_iff in H as [_ H]. by apply IH.
Qed.

Lemma absent_TrimRight (c : ascii) (s : string) :
  absent c s -> absent c (TrimRight s).
Proof.
  induction s as [| d s IH]; [done |]. intros H.
  simpl in H. apply orb_false_iff in H as [Hd H]. specialize (IH H). simpl.
  destruct (TrimRight s) as [| e t].
  - destruct (isSpace d); [done |]. simpl. by rewrite Hd.
  - change (has_byte c (String d (String e t)))
      with (Ascii.eqb d c || has_byte c (String e t)).
    by rewrite Hd, IH.
Qed.

Lemma absent_TrimSpace (c : ascii) (s : string) :
  absent c s -> absent c (TrimSpace s).
Proof. intros H. by apply absent_TrimRight, absent_TrimLeft. Qed.

Lemma absent_drop (c : ascii) (n : nat) : forall s : string,
  absent c s -> absent c (drop_str n s).
Proof.
  induction n as [| n IH]; intros [| d s] H; try done.
  simpl in *. apply orb_false_iff in H as [_ H]. by apply IH.
Qed.

Lemma absent_take (c : ascii) (n : nat) : forall s : string,
  absent c s -> absent c (take_str n s).
Proof.
  induction n as [| n IH]; intros [| d s] H; try done.
  simpl in *. apply orb_false_iff in H as [Hd H]. by rewrite Hd, IH.
Qed.

Lemma absent_slice (c : ascii) (s : string) (i j : Z) :
  absent c s -> absent c (slice s i j).
Proof. intros H. by apply absent_take, absent_drop. Qed.

Lemma absent_fenced_region (c : ascii) (s : string) :
  absent c s -> absent c (fenced_region s).
Proof.
  intros H. unfold fenced_region.
  repeat case_match; try done; by apply absent_TrimSpace, absent_slice.
Qed.

Lemma absent_Index (c : ascii) (s : string) :
  absent c s -> Index s (String c "") = -1.
Proof.
  intros H. unfold Index.
  assert (index_from s (String c "") = None) as ->; [| done].
  induction s as [| d s IH]; [done |].
  simpl in H. apply orb_false_iff in H as [Hd H].
  simpl. rewrite Ascii.eqb_sym, Hd. by rewrite IH.
Qed.

(** C6. Extraction from the bare text [{"a":1}] gives the map with the one
    binding of [a] to the number 1; extraction from the same text inside a
    fence tagged [json] gives the same map; and extraction from any text in
    which no opening brace occurs gives the error "no JSON object found in
    output", so no map at all. *)
Theorem extraction_of_clean_json :
  ExtractJSONFromOutput fake.json_a1 = inr {["a"%string := json.Number "1"]} /\
  ExtractJSONFromOutput fake.fenced_a1 = ExtractJSONFromOutput fake.json_a1 /\
  (forall stdout : string,
     has_byte "{" stdout = false ->
     ExtractJSONFromOutput stdout = inl (Errorf "no JSON object found in output")).
Proof.
  split; [by vm_compute |]. split; [by vm_compute |].
  intros stdout H. unfold ExtractJSONFromOutput, locate_object.
  by rewrite (absent_Index "{"); [| apply absent_fenced_region, absent_TrimSpace].
Qed.

(** C10. The text [{"a":"}"}] is one valid JSON object: [json.Unmarshal]
    decodes it to the map binding [a] to the string ["}"]. The brace scan
    counts the closing brace inside the string literal, so the substring
    handed to the decoder is the first seven bytes only (the string literal
    is left open), and extraction fails with a parse error instead of
    returning that map. *)
Theorem brace_inside_string_truncates :
  json.Unmarshal fake.json_brace = inr {["a"%string := json.Str "}"]} /\
  brace_scan fake.json_brace 0 0 = 7 /\
  locate_object fake.json_brace = inr fake.json_brace_cut /\
  json.Unmarshal fake.json_brace_cut = inl (Errorf "unexpected end of JSON input") /\
  ExtractJSONFromOutput fake.json_brace
  = inl (Wrapf "failed to parse JSON" (Errorf "unexpected end of JSON input")).
Proof. repeat split; by vm_compute. Qed.

End Extractor.

(** ** The entity execution lifecycle *)

Section Lifecycle.
Import world api cmd.
Context {W : Type} (E : Env W).

(** the events [executeEntity] adds to the trace *)
Local Abbreviation added st st' := (drop (length (trace st)) (trace st')).

Lemma added_app (t evs : list Event) : drop (length t) (t ++ evs) = evs.
Proof. by rewrite drop_app_length. Qed.

Ltac flatten_trace :=
  unfold emit; simpl trace; simpl wld;
  rewrite <- ?app_assoc; simpl app.

Ltac run_lifecycle :=
  unfold executeEntity, execute_started,
    Client_FetchEntityForExecution, Client_StartExecution,
    Client_CompleteExecution.

(** a failed validation has a schema to fail against *)
Lemma validate_Some_present (what : string) (data schema : GoMap) (err : error) :
  validator.validate E what data schema = Some err ->
  (0 <? Z.of_nat (size schema)) = true.
Proof.
  unfold validator.validate.
  destruct (Z.of_nat (size schema) =? 0) eqn:Hz; [done |].
  intros _. apply Z.eqb_neq in Hz. apply Z.ltb_lt. lia.
Qed.

(** C2. When the fetched summary says the dependencies are not all met, or
    the fetched inputs fail validation against a present input schema,
    [executeEntity] answers [false] with an error that names the failed
    precondition, and the fetch is the only call it makes: start-execution
    is never called and the world is the one the fetch left. *)
Theorem precondition_failure_creates_no_run
    (params : EntityExecutionParams) (st : St W)
    (resp : EntityExecuteResponse) (w1 : W) :
  FetchEntityForExecution E (params_EntityID params) (params_ServiceKey params)
    (wld st) = (inr resp, w1) ->
  AllMet (DependenciesStatus resp) = false
  \/ ((0 < size (InputSchema (Entity resp)))%nat
      /\ is_Some (validator.ValidateInputs E (Inputs resp)
                    (InputSchema (Entity resp)))) ->
  exists err : error,
    executeEntity E params st
    = ((false, Some err),
       {| wld := w1;
          trace := trace st ++ [CallFetchEntityForExecution (params_EntityID params)] |})
    /\ IsAskUserSkipped err = false
    /\ (forall req : ExecutionStartRequest,
          ~ In (CallStartExecution req)
               (added st (executeEntity E params st).2))
    /\ (err = Errorf ("dependencies not met: "
                      +:+ format_pending (Pending (DependenciesStatus resp)))
        \/ exists verr : error,
             validator.ValidateInputs E (Inputs resp) (InputSchema (Entity resp))
             = Some verr
             /\ err = Wrapf "input validation failed" verr).
Proof.
  intros Hfetch Hpre. run_lifecycle. rewrite Hfetch.
  assert (Hno : forall req,
             ~ In (CallStartExecution req)
                  (drop (length (trace st))
                     (trace st ++ [CallFetchEntityForExecution (params_EntityID params)]))).
  { intros req. rewrite added_app. simpl. intros [? | []]. discriminate. }
  destruct (AllMet (DependenciesStatus resp)) eqn:Hmet; simpl negb; cbv iota.
  - destruct Hpre as [? | [Hsize [verr Hv]]]; [done |].
    assert ((0 <? Z.of_nat (size (InputSchema (Entity resp)))) = true) as ->
      by (apply Z.ltb_lt; lia).
    rewrite Hv. exists (Wrapf "input validation failed" verr).
    split; [done |]. split; [| split; [apply Hno | right; eauto]].
    unfold validator.ValidateInputs, validator.validate in Hv.
    simpl. repeat case_match; by simplify_eq.
  - eexists. split; [done |]. split; [done |]. split; [apply Hno | by left].
Qed.

(** C5. For an entity whose execution mode is ask-user: [executeEntity]
    answers [false] and never calls complete-execution, whatever the API
    does; and when its preconditions hold and start-execution answers, the
    calls are the fetch and one start-execution for this entity in ask-user
    mode, the run is left as the server created it, and the answer is
    [false] with [ErrAskUserSkipped]. *)
Theorem ask_user_is_started_and_skipped
    (params : EntityExecutionParams) (st : St W)
    (resp : EntityExecuteResponse) (w1 : W) :
  FetchEntityForExecution E (params_EntityID params) (params_ServiceKey params)
    (wld st) = (inr resp, w1) ->
  ExecutionMode_ (Entity resp) = ExecutionModeAskUser ->
  let startReq :=
    {| start_EntityID := params_EntityID params;
       start_ExecutionMode := ExecutionModeAskUser;
       start_AgentID := params_AgentID params |} in
  (executeEntity E params st).1.1 = false
  /\ (forall (id : string) (req : ExecutionCompleteRequest),
        ~ In (CallCompleteExecution id req)
             (added st (executeEntity E params st).2))
  /\ (forall (startResp : ExecutionStartResponse) (w2 : W),
        AllMet (DependenciesStatus resp) = true ->
        validator.ValidateInputs E (Inputs resp) (InputSchema (Entity resp)) = None ->
        StartExecution E startReq (params_ServiceKey params) w1
        = (inr startResp, w2) ->
        executeEntity E params st
        = ((false, Some ErrAskUserSkipped),
           {| wld := w2;
              trace := trace st
                       ++ [CallFetchEntityForExecution (params_EntityID params);
                           CallStartExecution startReq] |})).
Proof.
  intros Hfetch Hmode startReq. run_lifecycle. rewrite Hfetch, Hmode.
  change (String.eqb ExecutionModeAskUser ExecutionModeAskUser) with true.
  fold startReq. cbv iota.
  split; [| split].
  - destruct (AllMet _); simpl; [| done].
    repeat (case_match; simpl; try done).
  - intros id req.
    destruct (AllMet _); simpl negb; cbv iota.
    + repeat (case_match; simplify_eq/=); flatten_trace; rewrite added_app;
        simpl; intuition discriminate.
    + flatten_trace. rewrite added_app. simpl. intuition discriminate.
  - intros startResp w2 -> Hv Hstart. simpl negb. cbv iota.
    assert ((if 0 <? Z.of_nat (size (InputSchema (Entity resp)))
             then validator.ValidateInputs E (Inputs resp) (InputSchema (Entity resp))
             else None) = None) as -> by (by case_match).
    simpl wld. rewrite Hstart. flatten_trace. done.
Qed.

End Lifecycle.

Section Completion.
Import world api cmd.
Context {W : Type} (E : Env W).

Local Abbreviation added st st' := (drop (length (trace st)) (trace st')).

Lemma completion_status (result : executor.ExecutionResult)
    (structured : option GoMap) (record : option ValidationRecord) (d : Z) :
  Status (completion_request result structured record d)
  = if executor.Success result then ExecutionAttemptStatusSuccess
    else ExecutionAttemptStatusFailed.
Proof. unfold completion_request. by destruct (executor.Success result). Qed.

Lemma completion_records_success (result : executor.ExecutionResult)
    (structured : option GoMap) (record : ValidationRecord) (d : Z) :
  executor.Success result = true ->
  exists pass : ValidationRecord,
    Outcome pass = ValidationOutcomePass /\
    ValidationRecords (completion_request result structured (Some record) d)
    = [pass; record].
Proof.
  intros H. unfold completion_request. rewrite H.
  eexists. split; [| reflexivity]. reflexivity.
Qed.

(** what [executeEntity] does once the run exists, for a mode that has a
    backend: one complete-execution call, with the request of step 5 *)
Lemma execute_started_completes (params : EntityExecutionParams)
    (resp : EntityExecuteResponse) (startResp : ExecutionStartResponse)
    (st : St W) (result : executor.ExecutionResult) (w : W) :
  dispatch E (Entity resp) (start_Inputs startResp) (wld st) = Some (result, w) ->
  let vo := validate_outputs E (Entity resp) result in
  let req := completion_request result vo.1 vo.2 (now_ms E w - now_ms E (wld st)) in
  trace (execute_started E params resp startResp st).2
  = trace st ++ [CallCompleteExecution (ExecutionID startResp) req]
  /\ ((execute_started E params resp startResp st).1
      = (executor.Success result, None)
      \/ exists msg : string,
           (execute_started E params resp startResp st).1
           = (false, Some (Wrapf "failed to complete execution" (Errorf msg)))).
Proof.
  intros Hd. unfold execute_started, Client_CompleteExecution, emit.
  rewrite Hd. simpl.
  destruct (validate_outputs E (Entity resp) result) as [so rec]. simpl.
  destruct (CompleteExecution E _ _ _ w) as [[msg | ok] w'']; simpl; eauto.
Qed.

(** C3. Every complete-execution call that [executeEntity] makes reports
    the result of the backend it dispatched the fetched entity to: the
    status is Success
    exactly when that result has [Success], and Failed exactly when it has
    not. When the backend succeeded and an output schema is present, a
    failed extraction adds a record with outcome Warn (severity Warning)
    and a failed schema validation adds a record with outcome Fail (severity
    Warning); in both cases the status stays Success. *)
Theorem terminal_status_follows_backend
    (params : EntityExecutionParams) (st : St W)
    (id : string) (req : ExecutionCompleteRequest) :
  In (CallCompleteExecution id req) (added st (executeEntity E params st).2) ->
  exists (resp : EntityExecuteResponse) (startResp : ExecutionStartResponse)
         (w w' : W) (result : executor.ExecutionResult),
    (FetchEntityForExecution E (params_EntityID params)
       (params_ServiceKey params) (wld st)).1 = inr resp
    /\ dispatch E (Entity resp) (start_Inputs startResp) w = Some (result, w')
    /\ id = ExecutionID startResp
    /\ (Status req = ExecutionAttemptStatusSuccess
        <-> executor.Success result = true)
    /\ (Status req = ExecutionAttemptStatusFailed
        <-> executor.Success result = false)
    /\ (forall e : error,
          executor.Success result = true ->
          (0 < size (OutputSchema (Entity resp)))%nat ->
          validator.ExtractJSONFromOutput (executor.Stdout result) = inl e ->
          Status req = ExecutionAttemptStatusSuccess
          /\ exists pass : ValidationRecord,
               Outcome pass = ValidationOutcomePass /\
               ValidationRecords req
               = [pass;
                  OUTPUT_SCHEMA ValidationOutcomeWarn ValidationSeverityWarning ∅
                    (Some ("Failed to extract structured output: " +:+ Error e))])
    /\ (forall (extracted : GoMap) (verr : error),
          executor.Success result = true ->
          (0 < size (OutputSchema (Entity resp)))%nat ->
          validator.ExtractJSONFromOutput (executor.Stdout result) = inr extracted ->
          validator.ValidateOutputs E extracted (OutputSchema (Entity resp))
          = Some verr ->
          Status req = ExecutionAttemptStatusSuccess
          /\ exists pass : ValidationRecord,
               Outcome pass = ValidationOutcomePass /\
               ValidationRecords req
               = [pass;
                  OUTPUT_SCHEMA ValidationOutcomeFail ValidationSeverityWarning
                    extracted (Some (Error verr))]).
Proof.
  unfold executeEntity, Client_FetchEntityForExecution, Client_StartExecution.
  destruct (FetchEntityForExecution E _ _ (wld st)) as [[msg | resp] w1].
  { unfold emit. simpl. rewrite drop_app_length. simpl. intuition discriminate. }
  destruct (negb (AllMet (DependenciesStatus resp))).
  { unfold emit. simpl. rewrite drop_app_length. simpl. intuition discriminate. }
  destruct (if 0 <? Z.of_nat (size (InputSchema (Entity resp))) then _ else _).
  { unfold emit. simpl. rewrite drop_app_length. simpl. intuition discriminate. }
  set (startReq := {| start_EntityID := _ |}).
  set (st1 := emit (CallFetchEntityForExecution (params_EntityID params)) w1 st).
  destruct (StartExecution E startReq _ (wld st1)) as [[msg | startResp] w2].
  { unfold emit. simpl. rewrite <- app_assoc, drop_app_length. simpl.
    intuition discriminate. }
  destruct (String.eqb _ ExecutionModeAskUser).
  { unfold emit. simpl. rewrite <- app_assoc, drop_app_length. simpl.
    intuition discriminate. }
  set (st2 := emit (CallStartExecution startReq) w2 st1).
  destruct (dispatch E (Entity resp) (start_Inputs startResp) (wld st2))
    as [[result w3] |] eqn:Hd.
  2:{ unfold execute_started. rewrite Hd. unfold st2, st1, emit. simpl.
      rewrite <- app_assoc, drop_app_length. simpl. intuition discriminate. }
  destruct (execute_started_completes params resp startResp st2 result w3 Hd)
    as [Ht _].
  rewrite Ht. unfold st2 at 1, st1, emit. simpl trace.
  rewrite <- !app_assoc, drop_app_length. simpl.
  intros [? | [? | [Hreq | []]]]; try discriminate.
  injection Hreq as <- <-.
  exists resp, startResp, (wld st2), w3, result.
  split; [done |]. split; [done |]. split; [done |].
  rewrite completion_status.
  split; [by destruct (executor.Success result) |].
  split; [by destruct (executor.Success result) |].
  split.
  - intros e Hs Hsize He. rewrite Hs. split; [done |].
    unfold validate_outputs. rewrite Hs, He.
    assert ((0 <? Z.of_nat (size (OutputSchema (Entity resp)))) = true) as ->
      by (apply Z.ltb_lt; lia).
    simpl. by apply completion_records_success.
  - intros extracted verr Hs Hsize He Hv. rewrite Hs. split; [done |].
    unfold validate_outputs. rewrite Hs, He, Hv.
    assert ((0 <? Z.of_nat (size (OutputSchema (Entity resp)))) = true) as ->
      by (apply Z.ltb_lt; lia).
    simpl. by apply completion_records_success.
Qed.

End Completion.

(** *** The lifecycle on the fake server *)

Section LifecycleExamples.
Import world api cmd.

(** C2 at the entity [blocked], whose dependency [prev] is pending, and at
    the entity [needs-a], whose empty inputs lack the required key. *)
Lemma precondition_failure_witness :
  (exists err : error,
     executeEntity fake.env (fake.params "blocked") (fake.boot (fake.server [] None))
     = ((false, Some err),
        {| wld := fake.server [] None;
           trace := [CallFetchEntityForExecution "blocked"] |})
     /\ err = Errorf "dependencies not met: [{prev t0}]")
  /\ (exists err : error,
        executeEntity fake.env (fake.params "needs-a") (fake.boot (fake.server [] None))
        = ((false, Some err),
           {| wld := fake.server [] None;
              trace := [CallFetchEntityForExecution "needs-a"] |})
        /\ IsAskUserSkipped err = false).
Proof.
  split.
  - edestruct (precondition_failure_creates_no_run fake.env (fake.params "blocked")
                 (fake.boot (fake.server [] None)))
      as (err & Hrun & _ & _ & [Herr | (verr & Hv & _)]).
    + reflexivity.
    + left. reflexivity.
    + exists err. split; [exact Hrun | exact Herr].
    + discriminate Hv.
  - edestruct (precondition_failure_creates_no_run fake.env (fake.params "needs-a")
                 (fake.boot (fake.server [] None)))
      as (err & Hrun & Hskip & _).
    + reflexivity.
    + right. split; [vm_compute; lia | eexists; reflexivity].
    + exists err. split; [exact Hrun | exact Hskip].
Defined.

(** C5 at the entity [ask]. *)
Lemma ask_user_witness :
  executeEntity fake.env (fake.params "ask") (fake.boot (fake.server [] None))
  = ((false, Some ErrAskUserSkipped),
     {| wld := (fake.fake_start
                  {| start_EntityID := "ask";
                     start_ExecutionMode := ExecutionModeAskUser;
                     start_AgentID := "agent-1" |} "key" (fake.server [] None)).2;
        trace := [CallFetchEntityForExecution "ask";
                  CallStartExecution
                    {| start_EntityID := "ask";
                       start_ExecutionMode := ExecutionModeAskUser;
                       start_AgentID := "agent-1" |}] |})
  /\ fake.completions
       (trace (executeEntity fake.env (fake.params "ask")
                 (fake.boot (fake.server [] None))).2) = [].
Proof.
  edestruct (ask_user_is_started_and_skipped fake.env (fake.params "ask")
               (fake.boot (fake.server [] None)))
    as (_ & _ & Hrun).
  - reflexivity.
  - reflexivity.
  - split; [eapply Hrun; reflexivity | reflexivity].
Defined.

(** C3 at the entity [prose]: the script prints no JSON, the run is
    completed as Success with a Warn record. *)
Lemma terminal_status_witness :
  In (CallCompleteExecution "run-0" fake.prose_request)
     (trace (executeEntity fake.env (fake.params "prose")
               (fake.boot (fake.server [] None))).2)
  /\ Status fake.prose_request = ExecutionAttemptStatusSuccess
  /\ exists result : executor.ExecutionResult,
       Status fake.prose_request = ExecutionAttemptStatusSuccess
       <-> executor.Success result = true.
Proof.
  assert (Hin : In (CallCompleteExecution "run-0" fake.prose_request)
                   (trace (executeEntity fake.env (fake.params "prose")
                             (fake.boot (fake.server [] None))).2)).
  { vm_compute. right. right. left. reflexivity. }
  split; [exact Hin |]. split; [reflexivity |].
  destruct (terminal_status_follows_backend fake.env (fake.params "prose")
              (fake.boot (fake.server [] None)) "run-0" fake.prose_request Hin)
    as (resp & startResp & w & w' & result & _ & _ & _ & Hs & _).
  exists result. exact Hs.
Defined.

End LifecycleExamples.

(** ** The Process execution driver *)

Section Driver.
Import world api cmd.
Context {W : Type} (E : Env W) (G : Globals).

Local Abbreviation added st st' := (drop (length (trace st)) (trace st')).

(** [executeEntity] extends the trace, and by API calls only *)
Lemma executeEntity_trace (params : EntityExecutionParams) (st : St W) :
  exists evs : list Event,
    trace (executeEntity E params st).2 = trace st ++ evs /\ ~ In CtxDone evs.
Proof.
  unfold executeEntity, execute_started, Client_FetchEntityForExecution,
    Client_StartExecution, Client_CompleteExecution, emit.
  repeat (case_match; simpl); simplify_eq/=; rewrite <- ?app_assoc;
    (eexists; split; [reflexivity | simpl; intuition discriminate]).
Qed.

Lemma record_outcome_interrupted (ls : LoopState) (success : bool)
    (err : option error) :
  interrupted (record_outcome ls success err) = interrupted ls.
Proof. unfold record_outcome. by repeat case_match. Qed.

(** a failed task that reports no error leaves the loop variables as they
    were: it is neither counted nor remembered *)
Lemma record_outcome_failed_exit (ls : LoopState) :
  record_outcome ls false None = ls.
Proof. reflexivity. Qed.

(** a task that reports an error other than the skip signal becomes the
    last error *)
Lemma record_outcome_error (ls : LoopState) (success : bool) (e : error) :
  IsAskUserSkipped e = false ->
  record_outcome ls success (Some e)
  = {| tasksExecuted := tasksExecuted ls; lastError := Some e;
       interrupted := interrupted ls |}.
Proof. intros H. unfold record_outcome. by rewrite H. Qed.

(** the skip signal is neither counted nor remembered *)
Lemma record_outcome_skip (ls : LoopState) :
  record_outcome ls false (Some ErrAskUserSkipped) = ls.
Proof. reflexivity. Qed.

(** the loop leaves at once when the check at its top sees the context
    cancelled *)
Lemma process_loop_cancelled (fuel : nat) (processEntityID : string)
    (ls : LoopState) (st : St W) :
  ctxDone E (wld st) = true ->
  process_loop E G (S fuel) processEntityID ls st
  = Some ({| tasksExecuted := tasksExecuted ls;
             lastError := Some context_Canceled;
             interrupted := true |},
          {| wld := wld st; trace := trace st ++ [CtxDone] |}).
Proof. intros H. simpl. by rewrite H. Qed.

(** The loop is left either with [interrupted] unchanged and no
    cancellation seen, or through the cancellation branch, which is then the
    last thing that happened. *)
Lemma process_loop_exit (fuel : nat) (processEntityID : string) :
  forall (ls : LoopState) (st : St W) (ls' : LoopState) (st' : St W),
    interrupted ls = false ->
    process_loop E G fuel processEntityID ls st = Some (ls', st') ->
    exists evs : list Event,
      trace st' = trace st ++ evs /\
      ((interrupted ls' = false /\ ~ In CtxDone evs)
       \/ (interrupted ls' = true /\
           exists pre : list Event, evs = pre ++ [CtxDone] /\ ~ In CtxDone pre)).
Proof.
  induction fuel as [| fuel IH]; intros ls st ls' st' Hls Hloop; [done |].
  simpl in Hloop.
  destruct (ctxDone E (wld st)).
  { injection Hloop as <- <-. exists [CtxDone]. split; [done |].
    right. split; [done |]. exists []. by split; [| intros []]. }
  unfold Client_FetchNextTaskForProcess in Hloop.
  destruct (FetchNextTaskForProcess E _ _ _ (wld st)) as [[msg | nextResp] w1].
  { injection Hloop as <- <-. eexists. split; [reflexivity |].
    left. split; [done |]. simpl. intuition discriminate. }
  destruct (Task nextResp) as [task |].
  2:{ injection Hloop as <- <-. eexists. split; [reflexivity |].
      left. split; [done |]. simpl. intuition discriminate. }
  set (st1 := emit _ w1 st) in Hloop.
  set (p := {| params_EntityID := _ |}) in Hloop.
  destruct (executeEntity_trace p st1) as (evs1 & Ht1 & Hn1).
  destruct (executeEntity E p st1) as [[success err] st2]. simpl in Ht1.
  apply IH in Hloop; [| by rewrite record_outcome_interrupted].
  destruct Hloop as (evs2 & Ht2 & Hcase).
  exists (CallFetchNextTaskForProcess (agentID G) processEntityID :: evs1 ++ evs2).
  split.
  { rewrite Ht2, Ht1. unfold st1, emit. simpl. by rewrite <- !app_assoc. }
  destruct Hcase as [[Hi Hn2] | (Hi & pre & -> & Hn2)].
  - left. split; [done |]. simpl. rewrite in_app_iff. intuition discriminate.
  - right. split; [done |].
    exists (CallFetchNextTaskForProcess (agentID G) processEntityID :: evs1 ++ pre).
    split; [by rewrite app_comm_cons, app_assoc |].
    simpl. rewrite in_app_iff. intuition discriminate.
Qed.

(** C7. (1) When the check at the top of an iteration sees the context
    cancelled, the loop returns in that iteration whatever fuel is left,
    without another call, and the request built from its variables has
    status Abandoned and the metric [interrupted] true. (2) In every run of
    [runProcessExecution] in which a cancellation was seen, the cancellation
    is followed by exactly one event, the completion of the Process run
    (the run that the first call created), with status Abandoned, the
    metric [interrupted] true and the reason of an interruption; no task is
    fetched after it, and the command returns an error. *)
Theorem cancellation_marks_abandoned (processEntityID : string) :
  (forall (fuel : nat) (ls : LoopState) (st : St W),
     ctxDone E (wld st) = true ->
     exists ls' : LoopState,
       process_loop E G (S fuel) processEntityID ls st
       = Some (ls', {| wld := wld st; trace := trace st ++ [CtxDone] |})
       /\ tasksExecuted ls' = tasksExecuted ls
       /\ Status (process_completion ls') = ExecutionAttemptStatusAbandoned
       /\ process_metrics ls' !! "interrupted"%string = Some (json.Bool true))
  /\ (forall (fuel : nat) (st : St W) (err : option error) (st' : St W),
        runProcessExecution E G fuel processEntityID st = Some (err, st') ->
        In CtxDone (added st st') ->
        exists (startResp : ExecutionStartResponse) (w : W) (pre : list Event)
               (req : ExecutionCompleteRequest) (outputs : ExecutionOutputs),
          StartExecution E
            {| start_EntityID := processEntityID;
               start_ExecutionMode := "PROCESS";
               start_AgentID := agentID G |} (serviceKey G) (wld st)
          = (inr startResp, w)
          /\ added st st'
             = pre ++ [CtxDone; CallCompleteExecution (ExecutionID startResp) req]
          /\ ~ In CtxDone pre
          /\ Status req = ExecutionAttemptStatusAbandoned
          /\ Outputs req = Some outputs
          /\ Metrics outputs !! "interrupted"%string = Some (json.Bool true)
          /\ complete_FailureReason req
             = Some "Process execution interrupted by signal"%string
          /\ is_Some err).
Proof.
  split.
  - intros fuel ls st Hdone. eexists. split.
    + by apply process_loop_cancelled.
    + done.
  - intros fuel st err st' Hrun Hseen.
    unfold runProcessExecution, Client_StartExecution in Hrun.
    destruct (StartExecution E _ _ (wld st)) as [[msg | startResp] w1] eqn:Hstart.
    { injection Hrun as <- <-. unfold emit in Hseen. simpl in Hseen.
      rewrite drop_app_length in Hseen. simpl in Hseen.
      intuition discriminate. }
    set (st1 := emit _ w1 st) in Hrun.
    destruct (process_loop E G fuel processEntityID loop_init st1)
      as [[ls st2] |] eqn:Hloop; [| done].
    apply process_loop_exit in Hloop; [| done].
    destruct Hloop as (evs & Ht2 & Hcase).
    unfold Client_CompleteExecution in Hrun.
    destruct (CompleteExecution E _ _ _ (wld st2)) as [r w3].
    assert (Htr : added st st'
                  = CallStartExecution
                      {| start_EntityID := processEntityID;
                         start_ExecutionMode := "PROCESS";
                         start_AgentID := agentID G |}
                    :: evs ++ [CallCompleteExecution (ExecutionID startResp)
                                 (process_completion ls)]).
    { assert (trace st' = trace (emit (CallCompleteExecution (ExecutionID startResp)
                                           (process_completion ls)) w3 st2)) as ->.
      { destruct r; [by injection Hrun as <- <- |].
        repeat case_match; by injection Hrun as <- <-. }
      unfold emit. simpl. rewrite Ht2. unfold st1, emit. simpl.
      by rewrite <- !app_assoc, drop_app_length. }
    rewrite Htr in Hseen.
    destruct Hcase as [[Hi Hn] | (Hi & pre & -> & Hn)].
    { exfalso. simpl in Hseen. rewrite in_app_iff in Hseen. simpl in Hseen.
      intuition discriminate. }
    exists startResp, w1,
      (CallStartExecution
         {| start_EntityID := processEntityID;
            start_ExecutionMode := "PROCESS";
            start_AgentID := agentID G |} :: pre),
      (process_completion ls).
    unfold process_completion in Htr |- *. rewrite Hi in Htr |- *. eexists.
    split; [done |]. split; [by rewrite Htr, <- app_assoc |].
    split; [simpl; intuition discriminate |].
    split; [done |]. split; [reflexivity |].
    split; [unfold process_metrics; rewrite Hi; by simplify_map_eq |].
    split; [done |].
    destruct r; [injection Hrun as <- <-; by eexists |].
    rewrite Hi in Hrun. injection Hrun as <- <-. by eexists.
Qed.

End Driver.

(** *** The driver on the fake server *)

Section DriverExamples.
Import world api cmd.

(** C7 on a Process with three tasks, the signal arriving once two runs
    exist (the Process run and the run of the first task): the second task
    is never fetched and the Process run is completed as Abandoned. *)
Lemma cancellation_witness :
  exists (st' : St fake.Server) (pre : list Event) (req : ExecutionCompleteRequest),
    runProcessExecution fake.env fake.globals 10 "proc"
      (fake.boot (fake.server ["c1"; "c2"; "c3"]%string (Some 2)))
    = Some (Some (Errorf "Process execution interrupted"), st')
    /\ trace st' = pre ++ [CtxDone; CallCompleteExecution "run-0" req]
    /\ Status req = ExecutionAttemptStatusAbandoned
    /\ fake.starts (trace st') = ["proc"; "c1"]%string.
Proof.
  eexists. 
  edestruct (proj2 (cancellation_marks_abandoned fake.env fake.globals "proc") 10%nat
               (fake.boot (fake.server ["c1"; "c2"; "c3"]%string (Some 2))))
    as (startResp & w & pre & req & outputs & Hstart & Htr & _ & Hs & _).
  - vm_compute. reflexivity.
  - vm_compute. tauto.
  - exists pre, req. injection Hstart as <- _.
    split; [vm_compute; reflexivity |]. split; [exact Htr |].
    split; [exact Hs | reflexivity].
Defined.

(** C1, at the scenario of the specification: a Process with the three
    tasks [c1], [c2], [c3], of which [c2] is the script [exit 3]. All three
    are executed, the run of [c2] is completed as Failed, the metric
    [tasks_executed] is 2 - and the Process run itself ([run-0]) is
    completed with status Success and no failure reason, and the command
    returns nil: a task that fails by its exit status answers
    [(false, nil)], which the loop neither counts nor remembers. *)
Theorem process_with_failed_task_reported_success :
  exists st' : St fake.Server,
    runProcessExecution fake.env fake.globals 10 "proc"
      (fake.boot (fake.server ["c1"; "c2"; "c3"]%string None))
    = Some (None, st')
    /\ fake.starts (trace st') = ["proc"; "c1"; "c2"; "c3"]%string
    /\ fake.completions (trace st')
       = [("run-1", ExecutionAttemptStatusSuccess, None);
          ("run-2", ExecutionAttemptStatusFailed,
           Some "Execution failed with exit code 3: exit status 3");
          ("run-3", ExecutionAttemptStatusSuccess, None);
          ("run-0", ExecutionAttemptStatusSuccess, None)]%string
    /\ last (trace st')
       = Some (CallCompleteExecution "run-0"
                 (process_completion
                    {| tasksExecuted := 2; lastError := None;
                       interrupted := false |}))
    /\ (executeEntity fake.env (fake.params "c2")
          (fake.boot (fake.server ["c2"]%string None))).1 = (false, None).
Proof.
  eexists. split; [vm_compute; reflexivity |].
  repeat split; vm_compute; reflexivity.
Qed.

End DriverExamples.

(** ** The deduplication of resumptions *)

Section Dedup.
Import api recovery.

Lemma pick_split (runID : string) (ph : Phase) (gs : list Goroutine) :
  forall (g : Goroutine) (rest : list Goroutine),
    pick runID ph gs = Some (g, rest) ->
    g_runID g = runID /\ g_phase g = ph /\
    exists l1 l2 : list Goroutine, gs = l1 ++ g :: l2 /\ rest = l1 ++ l2.
Proof.
  induction gs as [| h gs IH]; intros g rest Hp; [done |].
  simpl in Hp. destruct (has_run runID ph h) eqn:Hh.
  - injection Hp as <- <-. unfold has_run in Hh.
    apply andb_true_iff in Hh as [Hid Hph]. apply String.eqb_eq in Hid.
    split; [done |]. split; [by destruct (g_phase h), ph |].
    by exists [], gs.
  - destruct (pick runID ph gs) as [[g' rest'] |]; [| done].
    injection Hp as <- <-.
    destruct (IH g' rest' eq_refl) as (Hid & Hph & l1 & l2 & -> & ->).
    split; [done |]. split; [done |]. by exists (h :: l1), l2.
Qed.

Lemma pick_enabled (runID : string) (ph : Phase) (gs : list Goroutine)
    (g : Goroutine) :
  g ∈ gs -> g_runID g = runID -> g_phase g = ph ->
  is_Some (pick runID ph gs).
Proof.
  intros Hin Hid Hph. induction Hin as [g gs | g h gs Hin IH]; simpl.
  - assert (has_run runID ph g = true) as ->; [| by eexists].
    unfold has_run. rewrite Hid, String.eqb_refl, Hph. by destruct ph.
  - destruct (has_run runID ph h); [by eexists |].
    destruct IH as [[g' rest] ->]; [done | done | by eexists].
Qed.

Lemma consistent_initial (resumed : list ResumedRun) : consistent (initial resumed).
Proof.
  split; [constructor |]. intros id. unfold alive. simpl.
  split; [set_solver | by intros ?%not_elem_of_nil].
Qed.

Lemma consistent_step (s s' : Sched) (a : Action) :
  consistent s -> step s a = Some s' -> consistent s'.
Proof.
  intros [Hnd Hset] Hstep. unfold consistent, alive in *.
  destruct a as [| runID | runID]; simpl in Hstep.
  - destruct (remaining s) as [| resumed rest]; [done |].
    destruct (String.eqb _ _); [| by injection Hstep as <-].
    unfold LoadOrStore in Hstep.
    destruct (decide (RunID resumed ∈ activeResumes s)) as [Hin | Hnew];
      injection Hstep as <-; simpl; [done |].
    rewrite fmap_app. simpl. split.
    + apply NoDup_app. split; [done |]. split; [| apply NoDup_singleton].
      intros id Hid ->%list_elem_of_singleton. by apply Hnew, Hset.
    + intros id. rewrite elem_of_app, list_elem_of_singleton, <- Hset.
      rewrite elem_of_union, elem_of_singleton. tauto.
  - destruct (pick runID Resuming (goroutines s)) as [[g rest] |] eqn:Hp; [| done].
    injection Hstep as <-. simpl.
    destruct (pick_split _ _ _ _ _ Hp) as (_ & _ & l1 & l2 & Hgs & ->).
    rewrite Hgs in Hnd, Hset. clear Hgs Hp.
    rewrite !fmap_app in *. simpl in *.
    assert (Hperm : (g_runID <$> l1) ++ g_runID g :: (g_runID <$> l2)
                    ≡ₚ ((g_runID <$> l1) ++ (g_runID <$> l2)) ++ [g_runID g]).
    { rewrite <- Permutation_middle, <- Permutation_cons_append. done. }
    split; [by rewrite <- Hperm |].
    intros id. by rewrite <- Hperm.
  - destruct (pick runID Returned (goroutines s)) as [[g rest] |] eqn:Hp; [| done].
    injection Hstep as <-. simpl.
    destruct (pick_split _ _ _ _ _ Hp) as (_ & _ & l1 & l2 & Hgs & ->).
    rewrite Hgs in Hnd, Hset. clear Hgs Hp.
    rewrite !fmap_app in *. simpl in *.
    rewrite <- Permutation_middle in Hnd.
    apply NoDup_cons in Hnd as [Hfresh Hnd].
    split; [done |].
    intros id. unfold Delete. rewrite elem_of_difference, Hset.
    rewrite <- Permutation_middle, elem_of_cons, elem_of_singleton.
    split; [intros [[-> | ?] ?]; done |].
    intros Hin. split; [by right |]. by intros ->.
Qed.

Lemma consistent_exec (schedule : list Action) : forall s s' : Sched,
  consistent s -> exec s schedule = Some s' -> consistent s'.
Proof.
  induction schedule as [| a schedule IH]; intros s s' Hs Hexec; simpl in Hexec.
  - by injection Hexec as <-.
  - destruct (step s a) as [s1 |] eqn:Hstep; [| done].
    eapply IH; [| done]. by eapply consistent_step.
Qed.

(** C8. In every state that the recovery loop and its goroutines can
    reach, under any interleaving: no run identifier has two goroutines,
    so none has two resumptions in flight; [activeResumes] holds exactly
    the identifiers that have a goroutine; the loop starts a goroutine only
    for an identifier that has none; the deferred [Delete] of a goroutine
    takes its identifier out of [activeResumes]; and that [Delete] is
    enabled as soon as the resumption has returned. *)
Theorem resumption_is_deduplicated
    (resumed : list ResumedRun) (schedule : list Action) (s : Sched) :
  exec (initial resumed) schedule = Some s ->
  NoDup (alive s)
  /\ NoDup (resuming s)
  /\ (forall id : string, id ∈ activeResumes s <-> id ∈ alive s)
  /\ (forall (s' : Sched) (id : string),
        step s MainStep = Some s' ->
        launches s' = launches s ++ [id] ->
        (id ∉ alive s) /\ alive s' = alive s ++ [id])
  /\ (forall (s' : Sched) (id : string),
        step s (DeferStep id) = Some s' ->
        (id ∉ activeResumes s') /\ (id ∉ alive s'))
  /\ (forall (s' : Sched) (id : string),
        step s (ReturnStep id) = Some s' ->
        is_Some (step s' (DeferStep id))).
Proof.
  intros Hexec.
  pose proof (consistent_exec _ _ _ (consistent_initial resumed) Hexec) as Hs.
  destruct Hs as [Hnd Hset].
  split; [done |]. split.
  { unfold resuming. eapply sublist_NoDup; [exact Hnd |].
    unfold alive. apply fmap_sublist, sublist_filter. }
  split; [done |]. split; [| split].
  - intros s' id Hstep Hl. simpl in Hstep.
    destruct (remaining s) as [| r rest]; [done |].
    destruct (String.eqb _ _).
    2:{ injection Hstep as <-. simpl in Hl.
        apply (f_equal length) in Hl. rewrite length_app in Hl. simpl in Hl. lia. }
    unfold LoadOrStore in Hstep.
    destruct (decide (RunID r ∈ activeResumes s)) as [Hin | Hnew];
      injection Hstep as <-; simpl in Hl.
    { apply (f_equal length) in Hl. rewrite length_app in Hl. simpl in Hl. lia. }
    apply app_inv_head in Hl. injection Hl as <-.
    split; [by rewrite <- Hset |].
    unfold alive. simpl. by rewrite fmap_app.
  - intros s' id Hstep.
    assert (Hs' : consistent s') by (by eapply consistent_step).
    destruct Hs' as [_ Hset'].
    assert (id ∉ activeResumes s'); [| by rewrite <- Hset'].
    simpl in Hstep.
    destruct (pick id Returned (goroutines s)) as [[g rest] |] eqn:Hp; [| done].
    injection Hstep as <-. simpl.
    destruct (pick_split _ _ _ _ _ Hp) as (-> & _). unfold Delete.
    intros [_ Hne]%elem_of_difference. by apply Hne, elem_of_singleton.
  - intros s' id Hstep. simpl in Hstep.
    destruct (pick id Resuming (goroutines s)) as [[g rest] |] eqn:Hp; [| done].
    injection Hstep as <-.
    destruct (pick_split _ _ _ _ _ Hp) as (Hid & _).
    simpl.
    destruct (pick_enabled id Returned
                (rest ++ [{| g_entityID := g_entityID g; g_runID := g_runID g;
                             g_phase := Returned |}])
                {| g_entityID := g_entityID g; g_runID := g_runID g;
                   g_phase := Returned |}) as [[g' rest'] ->]; try done.
    apply elem_of_app. right. by apply list_elem_of_singleton.
Qed.

(** C8 on a recovery answer that lists [run-a] twice: while its resumption
    is in flight the second entry is skipped, so two goroutines were started
    in all, for [run-a] and [run-b]. *)
Lemma resumption_witness :
  exists s : Sched,
    exec (initial example_resumed) example_schedule = Some s
    /\ launches s = ["run-a"; "run-b"]%string
    /\ NoDup (alive s)
    /\ NoDup (resuming s).
Proof.
  eexists. split; [vm_compute; reflexivity |]. split; [reflexivity |].
  edestruct (resumption_is_deduplicated example_resumed example_schedule)
    as (H1 & H2 & _).
  - vm_compute. reflexivity.
  - split; [exact H1 | exact H2].
Defined.

End Dedup.

(** ** Two more concrete runs *)

Section MoreExamples.
Import executor world.

(** C9 at the script [sleep 900], which the deadline kills. *)
Lemma success_flag_witness :
  ExitCode (run_capped fake.env (InvokeSh "sleep 900" ∅) (fake.server [] None)).1
  = 124
  /\ Success (run_capped fake.env (InvokeSh "sleep 900" ∅) (fake.server [] None)).1
     = false.
Proof.
  destruct (success_iff_exit_code_zero fake.env
              (fake.entity "slow" api.ExecutionModeBash (Some "sleep 900"%string) ∅ ∅)
              ∅ (fake.server [] None))
    as (_ & _ & _ & _ & _ & Htimeout & _).
  apply Htimeout; [by eexists | reflexivity].
Defined.

(** C6 at a text without any brace. *)
Lemma extraction_witness :
  validator.ExtractJSONFromOutput "hello"
  = inl (Errorf "no JSON object found in output").
Proof. apply (proj2 (proj2 extraction_of_clean_json)). reflexivity. Defined.

End MoreExamples.

(** * Further properties *)

(** ** The lifecycle, path by path *)

Section LifecyclePaths.
Import world api cmd.
Context {W : Type} (E : Env W).

Local Abbreviation added st st' := (drop (length (trace st)) (trace st')).

Lemma validate_not_skip (what : string) (data schema : GoMap) (err : error) :
  validator.validate E what data schema = Some err ->
  IsAskUserSkipped err = false.
Proof.
  unfold validator.validate. repeat case_match; intros; by simplify_eq.
Qed.

(** Every way in which [executeEntity] can end: with the fetch alone and an
    error; with the run created and an error that is not the skip signal
    (start-execution refused, or no backend for the mode); with the run
    created and the skip signal; with the run completed but the completion
    refused; or with the run completed, no error, and [true] exactly for the
    status Success. *)
Lemma executeEntity_cases (params : EntityExecutionParams) (st : St W) :
  let r := executeEntity E params st in
  let F := CallFetchEntityForExecution (params_EntityID params) in
  let S := fun mode : ExecutionMode =>
    CallStartExecution
      {| start_EntityID := params_EntityID params;
         start_ExecutionMode := mode;
         start_AgentID := params_AgentID params |} in
  (exists e : error,
     r.1 = (false, Some e) /\ IsAskUserSkipped e = false /\ added st r.2 = [F])
  \/ (exists (e : error) (mode : ExecutionMode),
        r.1 = (false, Some e) /\ IsAskUserSkipped e = false
        /\ added st r.2 = [F; S mode])
  \/ (r.1 = (false, Some ErrAskUserSkipped)
      /\ added st r.2 = [F; S ExecutionModeAskUser])
  \/ (exists (e : error) (mode : ExecutionMode) (id : string)
             (creq : ExecutionCompleteRequest),
        r.1 = (false, Some e) /\ IsAskUserSkipped e = false
        /\ added st r.2 = [F; S mode; CallCompleteExecution id creq])
  \/ (exists (mode : ExecutionMode) (id : string) (creq : ExecutionCompleteRequest),
        r.1.2 = None
        /\ (r.1.1 = true <-> Status creq = ExecutionAttemptStatusSuccess)
        /\ added st r.2 = [F; S mode; CallCompleteExecution id creq]).
Proof.
  cbv zeta.
  unfold executeEntity, Client_FetchEntityForExecution, Client_StartExecution.
  destruct (FetchEntityForExecution E _ _ (wld st)) as [[msg | resp] w1].
  { left. eexists. split; [reflexivity |]. split; [done |].
    unfold emit. simpl. by rewrite drop_app_length. }
  destruct (negb (AllMet (DependenciesStatus resp))).
  { left. eexists. split; [reflexivity |]. split; [done |].
    unfold emit. simpl. by rewrite drop_app_length. }
  destruct (if 0 <? Z.of_nat (size (InputSchema (Entity resp))) then _ else _)
    as [verr |] eqn:Hv.
  { left. eexists. split; [reflexivity |]. split.
    - simpl. destruct (0 <? _); [| done]. by eapply validate_not_skip.
    - unfold emit. simpl. by rewrite drop_app_length. }
  set (startReq := {| start_EntityID := _ |}).
  set (st1 := emit (CallFetchEntityForExecution (params_EntityID params)) w1 st).
  destruct (StartExecution E startReq _ (wld st1)) as [[msg | startResp] w2].
  { right. left. eexists _, _. split; [reflexivity |]. split; [done |].
    unfold emit. simpl. by rewrite <- app_assoc, drop_app_length. }
  destruct (String.eqb _ ExecutionModeAskUser) eqn:Hask.
  { right. right. left. split; [done |]. apply String.eqb_eq in Hask.
    unfold emit, startReq. simpl. rewrite <- app_assoc, drop_app_length.
    by rewrite Hask. }
  set (st2 := emit (CallStartExecution startReq) w2 st1).
  unfold execute_started.
  destruct (dispatch E (Entity resp) (start_Inputs startResp) (wld st2))
    as [[result w3] |] eqn:Hd.
  2:{ right. left. eexists _, _. split; [reflexivity |]. split; [done |].
      unfold st2, st1, emit. simpl. by rewrite <- app_assoc, drop_app_length. }
  destruct (validate_outputs E (Entity resp) result) as [so rec].
  unfold Client_CompleteExecution.
  destruct (CompleteExecution E _ _ _ _) as [[msg | ok] w4]; simpl fst; simpl snd.
  - right. right. right. left. eexists _, _, _, _.
    split; [reflexivity |]. split; [done |].
    unfold st2, st1, emit. simpl. by rewrite <- !app_assoc, drop_app_length.
  - right. right. right. right. eexists _, _, _.
    split; [reflexivity |]. split; cycle 1.
    + unfold st2, st1, emit. simpl. by rewrite <- !app_assoc, drop_app_length.
    + rewrite completion_status. simpl. by destruct (executor.Success result).
Qed.

End LifecyclePaths.

Section LifecycleAnswers.
Import world api cmd.
Context {W : Type} (E : Env W).

Local Abbreviation added st st' := (drop (length (trace st)) (trace st')).

(** X1. Whatever the API and the backends do, the calls of one
    [executeEntity] are the fetch alone, or the fetch and one
    start-execution for the same entity and agent, or these two and one
    complete-execution: never a second run, never a completion without a
    run, never a call after the completion. *)
Theorem lifecycle_call_discipline (params : EntityExecutionParams) (st : St W) :
  let F := CallFetchEntityForExecution (params_EntityID params) in
  let S := fun mode : ExecutionMode =>
    CallStartExecution
      {| start_EntityID := params_EntityID params;
         start_ExecutionMode := mode;
         start_AgentID := params_AgentID params |} in
  added st (executeEntity E params st).2 = [F]
  \/ (exists mode : ExecutionMode,
        added st (executeEntity E params st).2 = [F; S mode])
  \/ (exists (mode : ExecutionMode) (id : string) (creq : ExecutionCompleteRequest),
        added st (executeEntity E params st).2
        = [F; S mode; CallCompleteExecution id creq]).
Proof.
  cbv zeta.
  destruct (executeEntity_cases E params st)
    as [(e & _ & _ & H) | [(e & m & _ & _ & H) | [[_ H]
        | [(e & m & id & c & _ & _ & H) | (m & id & c & _ & _ & H)]]]];
    eauto 10.
Qed.


(** X3. The skip signal is answered only for an entity in ask-user mode
    whose run was created: an error of [executeEntity] that
    [errors.Is(err, ErrAskUserSkipped)] accepts is the sentinel itself, it
    comes with [false], and the calls were the fetch and a start-execution
    in ask-user mode. *)
Theorem skip_signal_only_for_ask_user
    (params : EntityExecutionParams) (st : St W) (e : error) :
  (executeEntity E params st).1.2 = Some e ->
  IsAskUserSkipped e = true ->
  e = ErrAskUserSkipped
  /\ (executeEntity E params st).1.1 = false
  /\ added st (executeEntity E params st).2
     = [CallFetchEntityForExecution (params_EntityID params);
        CallStartExecution
          {| start_EntityID := params_EntityID params;
             start_ExecutionMode := ExecutionModeAskUser;
             start_AgentID := params_AgentID params |}].
Proof.
  intros He Hskip.
  destruct (executeEntity_cases E params st)
    as [(e' & Hr & Hn & _) | [(e' & m & Hr & Hn & _) | [[Hr H]
        | [(e' & m & id & c & Hr & Hn & _) | (m & id & c & Hnone & _)]]]];
    try (rewrite Hr in He; simpl in He; simplify_eq; congruence).
  - rewrite Hr in He |- *. simpl in *. by simplify_eq.
  - congruence.
Qed.

(** the check of step 2b, once the inputs are known to pass *)
Lemma input_check_passes (resp : EntityExecuteResponse) :
  validator.ValidateInputs E (Inputs resp) (InputSchema (Entity resp)) = None ->
  (if 0 <? Z.of_nat (size (InputSchema (Entity resp)))
   then validator.ValidateInputs E (Inputs resp) (InputSchema (Entity resp))
   else None) = None.
Proof. intros ->. by case_match. Qed.

(** X4. An entity whose execution mode is none of the six known ones is
    not caught before the run exists: when its preconditions hold and
    start-execution answers, the run is created, no backend runs, no
    complete-execution is called, and the answer is [false] with the error
    "unknown execution mode". *)
Theorem unknown_mode_leaves_run_open
    (params : EntityExecutionParams) (st : St W)
    (resp : EntityExecuteResponse) (w1 : W)
    (startResp : ExecutionStartResponse) (w2 : W) :
  FetchEntityForExecution E (params_EntityID params) (params_ServiceKey params)
    (wld st) = (inr resp, w1) ->
  AllMet (DependenciesStatus resp) = true ->
  validator.ValidateInputs E (Inputs resp) (InputSchema (Entity resp)) = None ->
  StartExecution E
    {| start_EntityID := params_EntityID params;
       start_ExecutionMode := ExecutionMode_ (Entity resp);
       start_AgentID := params_AgentID params |}
    (params_ServiceKey params) w1 = (inr startResp, w2) ->
  ~ observe.known_mode (ExecutionMode_ (Entity resp)) ->
  executeEntity E params st
  = ((false,
      Some (Errorf ("unknown execution mode: " +:+ ExecutionMode_ (Entity resp)))),
     {| wld := w2;
        trace := trace st
                 ++ [CallFetchEntityForExecution (params_EntityID params);
                     CallStartExecution
                       {| start_EntityID := params_EntityID params;
                          start_ExecutionMode := ExecutionMode_ (Entity resp);
                          start_AgentID := params_AgentID params |}] |}).
Proof.
  intros Hfetch Hmet Hv Hstart Hmode.
  unfold executeEntity, Client_FetchEntityForExecution, Client_StartExecution.
  rewrite Hfetch, Hmet, (input_check_passes resp Hv). simpl negb. cbv iota.
  unfold emit at 1. simpl wld. rewrite Hstart.
  assert (Hne : forall m, m ∈ [ExecutionModeLLMReasoning; ExecutionModeBash;
                                ExecutionModePython; ExecutionModePythonSandbox;
                                ExecutionModeHybrid; ExecutionModeAskUser] ->
                      String.eqb (ExecutionMode_ (Entity resp)) m = false).
  { intros m Hm. apply String.eqb_neq. intros Heq. apply Hmode.
    unfold observe.known_mode. by rewrite Heq. }
  rewrite (Hne ExecutionModeAskUser) by set_solver.
  unfold execute_started, dispatch.
  rewrite (Hne ExecutionModeLLMReasoning), (Hne ExecutionModeBash),
    (Hne ExecutionModePython), (Hne ExecutionModePythonSandbox),
    (Hne ExecutionModeHybrid) by set_solver.
  unfold emit. simpl. by rewrite <- app_assoc.
Qed.

(** X5. The structured output of a completion request is the map that
    extraction found: it is attached exactly when the backend succeeded, an
    output schema is present and extraction succeeded - also when that map
    then fails the schema - and never to a failed run. *)
Theorem structured_output_iff_extracted
    (entity : PlanningEntity) (result : executor.ExecutionResult) (d : Z)
    (m : GoMap) :
  let vo := validate_outputs E entity result in
  let req := completion_request result vo.1 vo.2 d in
  (exists o : ExecutionOutputs, Outputs req = Some o /\ Structured o = Some m)
  <-> (executor.Success result = true
       /\ (0 < size (OutputSchema entity))%nat
       /\ validator.ExtractJSONFromOutput (executor.Stdout result) = inr m).
Proof.
  cbv zeta. unfold validate_outputs, completion_request.
  destruct (executor.Success result) eqn:Hs; simpl.
  - destruct (0 <? Z.of_nat (size (OutputSchema entity))) eqn:Hsz; simpl.
    + apply Z.ltb_lt in Hsz.
      destruct (validator.ExtractJSONFromOutput _) as [err | extracted]; simpl.
      * split; [intros (o & Ho & Hm); by simplify_eq | intros (_ & _ & ?); done].
      * destruct (validator.ValidateOutputs E extracted _); simpl;
          (split; [intros (o & Ho & Hm); simplify_eq/=;
                   split; [done |]; split; [lia | done]
                  | intros (_ & _ & Hx); simplify_eq; by eexists]).
    + apply Z.ltb_ge in Hsz.
      split; [intros (o & Ho & Hm); by simplify_eq | intros (_ & ? & _); lia].
  - split; [intros (o & Ho & Hm); by simplify_eq | intros (? & _); done].
Qed.

(** X6. A shell entity without code, or with the empty code, that reaches
    its run is reported as failed without a subprocess: the world at the
    completion call is the one start-execution left, the measured duration
    is therefore zero, and the request has status Failed with the reason
    "Execution failed with exit code 1: no code provided for BASH
    execution". *)
Theorem empty_code_is_reported_failed
    (params : EntityExecutionParams) (st : St W)
    (resp : EntityExecuteResponse) (w1 : W)
    (startResp : ExecutionStartResponse) (w2 : W) :
  FetchEntityForExecution E (params_EntityID params) (params_ServiceKey params)
    (wld st) = (inr resp, w1) ->
  AllMet (DependenciesStatus resp) = true ->
  validator.ValidateInputs E (Inputs resp) (InputSchema (Entity resp)) = None ->
  ExecutionMode_ (Entity resp) = ExecutionModeBash ->
  Code (Entity resp) = None \/ Code (Entity resp) = Some ""%string ->
  StartExecution E
    {| start_EntityID := params_EntityID params;
       start_ExecutionMode := ExecutionModeBash;
       start_AgentID := params_AgentID params |}
    (params_ServiceKey params) w1 = (inr startResp, w2) ->
  let req :=
    completion_request (executor.no_code "BASH") None None 0 in
  trace (executeEntity E params st).2
  = trace st
    ++ [CallFetchEntityForExecution (params_EntityID params);
        CallStartExecution
          {| start_EntityID := params_EntityID params;
             start_ExecutionMode := ExecutionModeBash;
             start_AgentID := params_AgentID params |};
        CallCompleteExecution (ExecutionID startResp) req]
  /\ wld (executeEntity E params st).2
     = (CompleteExecution E (ExecutionID startResp) req (params_ServiceKey params) w2).2
  /\ (executeEntity E params st).1.1 = false
  /\ Status req = ExecutionAttemptStatusFailed
  /\ complete_FailureReason req
     = Some "Execution failed with exit code 1: no code provided for BASH execution"%string.
Proof.
  intros Hfetch Hmet Hv Hmode Hcode Hstart req.
  unfold executeEntity, Client_FetchEntityForExecution, Client_StartExecution.
  rewrite Hfetch, Hmet, (input_check_passes resp Hv), Hmode. simpl negb. cbv iota.
  unfold emit at 1. simpl wld. rewrite Hstart.
  change (String.eqb ExecutionModeBash ExecutionModeAskUser) with false. cbv iota.
  unfold execute_started, dispatch. rewrite Hmode.
  change (String.eqb ExecutionModeBash ExecutionModeLLMReasoning) with false.
  change (String.eqb ExecutionModeBash ExecutionModeBash) with true. cbv iota.
  assert (Hexec : executor.ExecuteBash E (Entity resp) (start_Inputs startResp) w2
                  = (executor.no_code "BASH", w2)).
  { unfold executor.ExecuteBash. by destruct Hcode as [-> | ->]. }
  unfold emit at 1. simpl wld. rewrite Hexec.
  assert (Hvo : validate_outputs E (Entity resp) (executor.no_code "BASH")
                = (None, None)) by done.
  rewrite Hvo, Z.sub_diag. fold req.
  unfold Client_CompleteExecution. simpl wld.
  destruct (CompleteExecution E _ req _ w2) as [[msg | ok] w3];
    unfold emit; simpl; rewrite <- !app_assoc; done.
Qed.

End LifecycleAnswers.

(** ** The backends *)

Section BackendsMore.
Import executor world.
Context {W : Type} (E : Env W).


(** X8. In every shell or Python execution the captured stdout and stderr
    are the first 1,048,576 bytes of what the subprocess wrote to that
    stream - all of it when it wrote less - and so never more than
    1,048,576 bytes; the retained prefix is byte for byte what was
    written. *)
Theorem captured_streams_are_capped_prefixes
    (entity : api.PlanningEntity) (inputs : GoMap) (w : W) (code : string) :
  api.Code entity = Some code ->
  code <> ""%string ->
  let out := (Run E (InvokeSh code inputs) w).1 in
  let r := (ExecuteBash E entity inputs w).1 in
  let out' := (Run E (InvokePython3 code inputs) w).1 in
  let r' := (ExecutePython E entity inputs w).1 in
  Stdout r = string_of_list_byte (take (Z.to_nat 1048576) (concat (stdout_chunks out)))
  /\ Stderr r = string_of_list_byte (take (Z.to_nat 1048576) (concat (stderr_chunks out)))
  /\ Stdout r' = string_of_list_byte (take (Z.to_nat 1048576) (concat (stdout_chunks out')))
  /\ Stderr r' = string_of_list_byte (take (Z.to_nat 1048576) (concat (stderr_chunks out')))
  /\ gostrings.len (Stdout r) <= 1048576 /\ gostrings.len (Stderr r) <= 1048576
  /\ gostrings.len (Stdout r') <= 1048576 /\ gostrings.len (Stderr r') <= 1048576.
Proof.
  intros Hcode Hne. cbv zeta. unfold ExecuteBash, ExecutePython. rewrite Hcode.
  apply String.eqb_neq in Hne. rewrite Hne.
  destruct (proj1 (proj2 capped_output_is_first_MiB) W E (InvokeSh code inputs) w)
    as (H1 & H2 & H3 & H4).
  destruct (proj1 (proj2 capped_output_is_first_MiB) W E (InvokePython3 code inputs) w)
    as (H5 & H6 & H7 & H8).
  cbv zeta in *. repeat split; assumption.
Qed.




(** X11. One [Write] of the capping writer, on a buffer within its limit:
    the buffer stays within the limit and becomes the first [limit] bytes
    of the old buffer followed by the chunk; the error is nil; and the
    count is the length of the chunk unless the chunk crosses the limit, in
    which case it is the room that was left. *)
Theorem limitedWriter_Write_contract (w : limitedWriter) (p : list byte) :
  within w ->
  within (Write w p).1
  /\ limit (Write w p).1 = limit w
  /\ buf (Write w p).1 = take (Z.to_nat (limit w)) (buf w ++ p)
  /\ (Write w p).2.2 = None
  /\ (if (Z.of_nat (length (buf w)) <? limit w)
        && (limit w <? Z.of_nat (length (buf w ++ p)))
      then (Write w p).2.1 = limit w - Z.of_nat (length (buf w))
      else (Write w p).2.1 = Z.of_nat (length p)).
Proof.
  intros Hw. split; [by apply Write_within |]. split; [apply Write_limit |].
  split; [by apply Write_buf |]. split; [apply Write_no_error |].
  rewrite Write_count by done. unfold within in Hw. rewrite length_app.
  destruct (Z.of_nat (length (buf w)) <? limit w) eqn:H1;
    destruct (limit w <? Z.of_nat (length (buf w) + length p)) eqn:H2; simpl;
    destruct (limit w - Z.of_nat (length (buf w)) <=? 0) eqn:H3;
    try apply Z.ltb_lt in H1; try apply Z.ltb_ge in H1;
    try apply Z.ltb_lt in H2; try apply Z.ltb_ge in H2;
    try apply Z.leb_le in H3; try apply Z.leb_gt in H3; lia.
Qed.

End BackendsMore.

(** ** The extractor on texts in general *)

Section Texts.
Import gostrings validator observe.

Local Abbreviation absent c s := (has_byte c s = false).

Lemma str_app_cons (c : ascii) (a b : string) :
  String c a +:+ b = String c (a +:+ b).
Proof. reflexivity. Qed.

Lemma str_app_nil_l (b : string) : "" +:+ b = b.
Proof. reflexivity. Qed.

Ltac sapp := rewrite ?str_app_cons, ?str_app_nil_l.

Lemma str_app_nil_r (s : string) : s +:+ "" = s.
Proof. induction s as [| c s IH]; sapp; [done | by rewrite IH]. Qed.

Lemma str_app_assoc (a b c : string) : (a +:+ b) +:+ c = a +:+ b +:+ c.
Proof. induction a as [| d a IH]; sapp; [done | by rewrite IH]. Qed.

Lemma str_length_app (a b : string) :
  String.length (a +:+ b) = (String.length a + String.length b)%nat.
Proof. induction a as [| d a IH]; sapp; simpl; [done | by rewrite IH]. Qed.

Lemma drop_str_app (a b : string) : drop_str (String.length a) (a +:+ b) = b.
Proof. induction a as [| d a IH]; sapp; simpl; done. Qed.

Lemma take_str_app (a b : string) : take_str (String.length a) (a +:+ b) = a.
Proof.
  induction a as [| d a IH]; sapp; simpl; [by destruct b | by rewrite IH].
Qed.

Lemma absent_app (c : ascii) (a b : string) :
  absent c (a +:+ b) <-> absent c a /\ absent c b.
Proof.
  induction a as [| d a IH]; sapp; simpl; [tauto |].
  rewrite !orb_false_iff, IH. tauto.
Qed.

Lemma HasPrefix_app (p s : string) : HasPrefix (p +:+ s) p = true.
Proof.
  induction p as [| c p IH]; sapp; simpl; [by destruct s |].
  by rewrite Ascii.eqb_refl.
Qed.

(** a pattern whose first byte does not occur is not found *)
Lemma index_from_absent (c : ascii) (sub s : string) :
  absent c s -> index_from s (String c sub) = None.
Proof.
  induction s as [| d s IH]; intros H; [done |].
  simpl in H. apply orb_false_iff in H as [Hd H].
  simpl. rewrite Ascii.eqb_sym, Hd. by rewrite IH.
Qed.

(** the first occurrence of a pattern, behind a text without its first byte *)
Lemma index_from_app (c : ascii) (sub a b : string) :
  absent c a ->
  HasPrefix b (String c sub) = true ->
  index_from (a +:+ b) (String c sub) = Some (String.length a).
Proof.
  intros Ha Hb. induction a as [| d a IH]; sapp.
  - destruct b as [| e b]; [done |].
    unfold index_from. by rewrite Hb.
  - simpl in Ha. apply orb_false_iff in Ha as [Hd Ha].
    simpl. rewrite Ascii.eqb_sym, Hd. by rewrite (IH Ha).
Qed.

Lemma TrimLeft_app (a b : string) (c : ascii) (b' : string) :
  b = String c b' -> isSpace c = false ->
  TrimLeft (a +:+ b) = TrimLeft a +:+ b.
Proof.
  intros -> Hc. induction a as [| d a IH]; sapp; simpl.
  - by rewrite Hc.
  - destruct (isSpace d); [done | by sapp].
Qed.

Lemma TrimRight_cons (c : ascii) (s : string) :
  TrimRight (String c s)
  = match TrimRight s with
    | EmptyString => if isSpace c then EmptyString else String c EmptyString
    | t => String c t
    end.
Proof. reflexivity. Qed.

Lemma TrimRight_app_r (l post : string) :
  TrimRight l = l -> l <> ""%string ->
  TrimRight (l +:+ post) = l +:+ TrimRight post.
Proof.
  induction l as [| c l IH]; intros Hl Hne; [done |].
  sapp. rewrite TrimRight_cons in Hl |- *.
  destruct l as [| d l].
  - sapp. simpl in Hl. destruct (isSpace c) eqn:Hc; [done |].
    by destruct (TrimRight post).
  - assert (Hl' : TrimRight (String d l) = String d l).
    { destruct (TrimRight (String d l)); [destruct (isSpace c) |];
        by simplify_eq. }
    rewrite (IH Hl' ltac:(done)). by sapp.
Qed.

Lemma TrimRight_app_l (a m : string) :
  TrimRight m = m -> m <> ""%string -> TrimRight (a +:+ m) = a +:+ m.
Proof.
  intros Hm Hne. induction a as [| d a IH]; sapp; [done |].
  rewrite TrimRight_cons, IH.
  destruct (a +:+ m) eqn:Ham; [| done].
  destruct a; [by rewrite str_app_nil_l in Ham | by rewrite str_app_cons in Ham].
Qed.

(** [TrimSpace] around a text that begins and ends with bytes that are not
    white space *)
Lemma TrimSpace_around (pre m post : string) (c : ascii) (m' : string) :
  m = String c m' -> isSpace c = false -> TrimRight m = m ->
  TrimSpace (pre +:+ m +:+ post) = TrimLeft pre +:+ m +:+ TrimRight post.
Proof.
  intros Hm Hc Hr. unfold TrimSpace.
  rewrite (TrimLeft_app pre (m +:+ post) c (m' +:+ post));
    [| by rewrite Hm | done].
  rewrite <- str_app_assoc.
  rewrite TrimRight_app_r; [by rewrite str_app_assoc | |].
  - apply TrimRight_app_l; [done | by rewrite Hm].
  - rewrite Hm. destruct (TrimLeft pre); by sapp.
Qed.

(** What the brace scan does on a text, uniformly in the start index:
    either it finds no balance, or it stops after [n] bytes, of which the
    last is a closing brace and which hold [braceCount] more closing than
    opening braces - and then the text behind does not matter. *)
Lemma brace_scan_uniform (rest : string) : forall c : Z,
  (forall i : Z, brace_scan rest i c = -1)
  \/ (exists (n : nat) (j' : string),
        (1 <= n <= String.length rest)%nat
        /\ take_str n rest = j' +:+ "}"
        /\ c + Z.of_nat (count_byte "{" (take_str n rest))
           = Z.of_nat (count_byte "}" (take_str n rest))
        /\ forall (i : Z) (more : string),
             brace_scan (rest +:+ more) i c = i + Z.of_nat n).
Proof.
  induction rest as [| ch rest IH]; intros c; [by left |].
  destruct (Ascii.eqb ch "{") eqn:Hopen.
  - apply Ascii.eqb_eq in Hopen as ->.
    destruct (IH (c + 1)) as [Hnone | (n & j' & Hn & Ht & Hc & Hscan)].
    + left. intros i. simpl. apply Hnone.
    + right. exists (S n), (String "{" j'). split; [simpl; lia |].
      split; [sapp; simpl; by rewrite Ht |]. split.
      * simpl take_str. simpl count_byte. lia.
      * intros i more. sapp. simpl. rewrite Hscan. lia.
  - destruct (Ascii.eqb ch "}") eqn:Hclose.
    + apply Ascii.eqb_eq in Hclose as ->.
      destruct (c - 1 =? 0) eqn:Hzero.
      * right. exists 1%nat, ""%string.
        split; [simpl; lia |]. split; [done |]. split.
        -- apply Z.eqb_eq in Hzero. simpl. lia.
        -- intros i more. sapp. simpl. by rewrite Hzero.
      * destruct (IH (c - 1)) as [Hnone | (n & j' & Hn & Ht & Hc & Hscan)].
        -- left. intros i. simpl. rewrite Hzero. apply Hnone.
        -- right. exists (S n), (String "}" j'). split; [simpl; lia |].
           split; [sapp; simpl; by rewrite Ht |]. split.
           ++ simpl take_str. simpl count_byte. lia.
           ++ intros i more. sapp. simpl. rewrite Hzero, Hscan. lia.
    + destruct (IH c) as [Hnone | (n & j' & Hn & Ht & Hc & Hscan)].
      * left. intros i. simpl. rewrite Hopen, Hclose. apply Hnone.
      * right. exists (S n), (String ch j'). split; [simpl; lia |].
        split; [sapp; simpl; by rewrite Ht |]. split.
        -- simpl take_str. simpl count_byte. rewrite Hopen, Hclose. lia.
        -- intros i more. sapp. simpl. rewrite Hopen, Hclose, Hscan. lia.
Qed.

Lemma brace_scan_absent (rest : string) : forall i c : Z,
  absent "}" rest -> brace_scan rest i c = -1.
Proof.
  induction rest as [| ch rest IH]; intros i c H; [done |].
  simpl in H. apply orb_false_iff in H as [Hch H]. simpl.
  rewrite Hch. destruct (Ascii.eqb ch "{"); by apply IH.
Qed.

(** the first opening brace of a text that has one *)
Lemma index_from_present (c : ascii) (s : string) :
  has_byte c s = true ->
  exists (k : nat) (s' : string),
    index_from s (String c "") = Some k /\ drop_str k s = String c s'.
Proof.
  induction s as [| d s IH]; intros H; [done |].
  assert (Hp : HasPrefix (String d s) (String c "") = Ascii.eqb c d).
  { simpl. by destruct (Ascii.eqb c d), s. }
  unfold index_from; fold index_from. rewrite Hp.
  destruct (Ascii.eqb c d) eqn:Hd.
  - apply Ascii.eqb_eq in Hd as ->. by exists O, s.
  - simpl in H. rewrite Ascii.eqb_sym, Hd in H. simpl in H.
    destruct (IH H) as (k & s' & -> & Hs). by exists (S k), s'.
Qed.

Lemma HasPrefix_single (c d : ascii) (s : string) :
  HasPrefix (String d s) (String c "") = Ascii.eqb c d.
Proof. simpl. by destruct (Ascii.eqb c d), s. Qed.

Lemma index_from_single_cons (c d : ascii) (s : string) :
  index_from (String d s) (String c "")
  = if Ascii.eqb c d then Some O else S <$> index_from s (String c "").
Proof. unfold index_from; fold index_from. by rewrite HasPrefix_single. Qed.

(** what [strings.Index] for one byte returns is the place of its first
    occurrence *)
Lemma index_from_Some_drop (c : ascii) (s : string) : forall k : nat,
  index_from s (String c "") = Some k ->
  absent c (take_str k s) /\ exists s', drop_str k s = String c s'.
Proof.
  induction s as [| d s IH]; intros k H; [done |].
  rewrite index_from_single_cons in H.
  destruct (Ascii.eqb c d) eqn:Hd.
  - injection H as <-. apply Ascii.eqb_eq in Hd as ->. split; [done | by exists s].
  - destruct (index_from s (String c "")) as [k' |] eqn:Hk; [| done].
    injection H as <-. destruct (IH k' eq_refl) as [Ha Hs].
    split; [| done]. simpl. by rewrite Ascii.eqb_sym, Hd, Ha.
Qed.

Lemma has_byte_TrimLeft (c : ascii) (s : string) :
  isSpace c = false -> has_byte c (TrimLeft s) = has_byte c s.
Proof.
  intros Hc. induction s as [| d s IH]; [done |]. simpl.
  destruct (isSpace d) eqn:Hd; [| done].
  rewrite IH. destruct (Ascii.eqb_spec d c) as [-> |]; [congruence | done].
Qed.

Lemma has_byte_TrimRight (c : ascii) (s : string) :
  isSpace c = false -> has_byte c (TrimRight s) = has_byte c s.
Proof.
  intros Hc. induction s as [| d s IH]; [done |].
  rewrite TrimRight_cons.
  change (has_byte c (String d s)) with (Ascii.eqb d c || has_byte c s).
  rewrite <- IH. destruct (TrimRight s) as [| e t]; [| done].
  destruct (isSpace d) eqn:Hd; [| done]. simpl.
  destruct (Ascii.eqb_spec d c) as [-> |]; [congruence | done].
Qed.

(** without a backtick there is no fence, and the whole text is searched *)
Lemma fenced_region_plain (s : string) : absent "`" s -> fenced_region s = s.
Proof.
  intros H. unfold fenced_region, Index.
  by rewrite !(index_from_absent "`" _ s H).
Qed.

(** X12. Whatever text the extractor hands to the JSON decoder begins with an
    opening brace, ends with a closing brace and holds as many opening as
    closing braces. *)
Theorem located_object_is_balanced (stdout obj : string) :
  locate_object stdout = inr obj ->
  (exists m, obj = String "{" m)
  /\ (exists m, obj = m +:+ "}")
  /\ count_byte "{" obj = count_byte "}" obj.
Proof.
  unfold locate_object. set (r := fenced_region (TrimSpace stdout)).
  unfold Index. destruct (index_from r "{") as [k |] eqn:Hk; [| done].
  destruct (index_from_Some_drop _ _ _ Hk) as (_ & s' & Hs).
  replace (Z.of_nat k =? -1) with false by (symmetry; apply Z.eqb_neq; lia).
  rewrite Nat2Z.id.
  destruct (brace_scan_uniform (drop_str k r) 0)
    as [Hnone | (n & j' & Hn & Ht & Hc & Hscan)].
  - by rewrite Hnone.
  - specialize (Hscan (Z.of_nat k) ""%string).
    rewrite str_app_nil_r in Hscan. rewrite Hscan.
    replace (Z.of_nat k + Z.of_nat n =? -1) with false by (symmetry; apply Z.eqb_neq; lia).
    intros [= <-]. unfold slice. rewrite Nat2Z.id.
    replace (Z.to_nat (Z.of_nat k + Z.of_nat n - Z.of_nat k)) with n by lia.
    split; [| split; [by exists j' | lia]].
    rewrite Hs. destruct n as [| n]; [lia |]. by eexists.
Qed.

(** X13. A text without a closing brace never reaches the JSON decoder:
    extraction fails with one of the two messages of the search, and when
    the text has no backtick either, with the message about the closing
    brace exactly when an opening brace occurs. *)
Theorem no_closing_brace_no_object (stdout : string) :
  absent "}" stdout ->
  (ExtractJSONFromOutput stdout = inl (Errorf "no JSON object found in output")
   \/ ExtractJSONFromOutput stdout
      = inl (Errorf "no matching closing brace found"))
  /\ (absent "`" stdout ->
      ExtractJSONFromOutput stdout
      = inl (Errorf (if has_byte "{" stdout
                     then "no matching closing brace found"
                     else "no JSON object found in output"))).
Proof.
  intros H.
  assert (Hr : absent "}" (fenced_region (TrimSpace stdout)))
    by by apply absent_fenced_region, absent_TrimSpace.
  assert (Hgen : forall r : string, absent "}" r ->
            (let braceStart := Index r "{" in
             if braceStart =? -1
             then inl (Errorf "no JSON object found in output")
             else
               let braceEnd :=
                 brace_scan (drop_str (Z.to_nat braceStart) r) braceStart 0 in
               if braceEnd =? -1
               then inl (Errorf "no matching closing brace found")
               else inr (slice r braceStart braceEnd))
            = (inl (Errorf (if has_byte "{" r
                            then "no matching closing brace found"
                            else "no JSON object found in output"))
               : error + string)).
  { intros r Hcl. cbv zeta. unfold Index.
    destruct (has_byte "{" r) eqn:Hop.
    - destruct (index_from_present _ _ Hop) as (k & s' & -> & _).
      replace (Z.of_nat k =? -1) with false by (symmetry; apply Z.eqb_neq; lia).
      by rewrite brace_scan_absent; [| apply absent_drop].
    - by rewrite (index_from_absent "{" "" r Hop). }
  pose proof (Hgen _ Hr) as Hg. cbv zeta in Hg.
  unfold ExtractJSONFromOutput, locate_object. cbv zeta. rewrite Hg. split.
  - destruct (has_byte "{" _); [by right | by left].
  - intros Hbt.
    rewrite fenced_region_plain by by apply absent_TrimSpace.
    unfold TrimSpace. by rewrite has_byte_TrimRight, has_byte_TrimLeft.
Qed.

(** the search in a text that is prose, then a balanced object, then prose *)
Lemma locate_object_in_prose (pre obj' post : string) :
  absent "{" pre ->
  absent "`" (pre +:+ String "{" obj' +:+ post) ->
  brace_scan (String "{" obj') 0 0 = Z.of_nat (String.length (String "{" obj')) ->
  locate_object (pre +:+ String "{" obj' +:+ post) = inr (String "{" obj').
Proof.
  set (obj := String "{" obj'). intros Hpre Hbt Hbal.
  destruct (brace_scan_uniform obj 0)
    as [Hnone | (n & j' & Hn & Ht & _ & Hscan)].
  { rewrite Hnone in Hbal. lia. }
  assert (n = String.length obj) as ->.
  { specialize (Hscan 0 ""%string). rewrite str_app_nil_r in Hscan. lia. }
  assert (Hobj : take_str (String.length obj) obj = obj).
  { rewrite <- (str_app_nil_r obj) at 2. apply take_str_app. }
  rewrite Hobj in Ht.
  assert (Htrim : TrimSpace (pre +:+ obj +:+ post)
                  = TrimLeft pre +:+ obj +:+ TrimRight post).
  { apply (TrimSpace_around pre obj post "{" obj'); [done | done |].
    rewrite Ht. by apply TrimRight_app_l. }
  unfold locate_object. rewrite Htrim.
  rewrite fenced_region_plain; cycle 1.
  { rewrite <- Htrim. by apply absent_TrimSpace. }
  unfold Index.
  rewrite (index_from_app "{" "" (TrimLeft pre) (obj +:+ TrimRight post));
    [| by apply absent_TrimLeft | by destruct obj', (TrimRight post)].
  replace (Z.of_nat (String.length (TrimLeft pre)) =? -1) with false by (symmetry; apply Z.eqb_neq; lia).
  rewrite Nat2Z.id, drop_str_app, Hscan.
  replace (_ =? -1) with false by (symmetry; apply Z.eqb_neq; lia).
  f_equal. unfold slice. rewrite Nat2Z.id, drop_str_app.
  replace (Z.to_nat _) with (String.length obj) by lia.
  apply take_str_app.
Qed.

(** X14. Prose around the object is ignored: of a text without backticks
    that consists of prose without an opening brace, an object whose braces
    balance at its last byte, and anything behind, the extractor decodes the
    object alone. *)
Theorem prose_around_object_is_ignored (pre obj' post : string) :
  absent "{" pre ->
  absent "`" (pre +:+ String "{" obj' +:+ post) ->
  brace_scan (String "{" obj') 0 0 = Z.of_nat (String.length (String "{" obj')) ->
  ExtractJSONFromOutput (pre +:+ String "{" obj' +:+ post)
  = match json.Unmarshal (String "{" obj') with
    | inl err => inl (Wrapf "failed to parse JSON" err)
    | inr result => inr result
    end.
Proof.
  intros Hpre Hbt Hbal. unfold ExtractJSONFromOutput.
  by rewrite locate_object_in_prose.
Qed.

(** X15. Of a text with a fence tagged [json], only the body of the fence is
    searched: what stands before the fence and behind it has no influence on
    the result. *)
Theorem json_fence_body_is_searched (pre body post : string) :
  absent "`" pre -> absent "`" body ->
  ExtractJSONFromOutput (pre +:+ "```json" +:+ body +:+ "```" +:+ post)
  = ExtractJSONFromOutput body.
Proof.
  intros Hpre Hbody.
  assert (Hloc : locate_object (pre +:+ "```json" +:+ body +:+ "```" +:+ post)
                 = locate_object body); [| unfold ExtractJSONFromOutput; by rewrite Hloc].
  set (m := ("```json" +:+ body +:+ "```")%string).
  assert (Htrim : TrimSpace (pre +:+ m +:+ post)
                  = TrimLeft pre +:+ m +:+ TrimRight post).
  { apply (TrimSpace_around pre m post "`" ("``json" +:+ body +:+ "```"));
      [done | done |].
    unfold m. rewrite <- str_app_assoc. by apply TrimRight_app_l. }
  assert (Hshape : (pre +:+ "```json" +:+ body +:+ "```" +:+ post
                    = pre +:+ m +:+ post)%string).
  { unfold m. by rewrite !str_app_assoc. }
  unfold locate_object. rewrite Hshape, Htrim.
  assert (Hregion : fenced_region (TrimLeft pre +:+ m +:+ TrimRight post)
                    = TrimSpace body).
  { unfold fenced_region, Index, m. rewrite !str_app_assoc.
    rewrite (index_from_app "`" "``json" (TrimLeft pre));
      [| by apply absent_TrimLeft | apply HasPrefix_app].
    replace (negb (Z.of_nat (String.length (TrimLeft pre)) =? -1)) with true
      by (symmetry; apply negb_true_iff, Z.eqb_neq; lia).
    replace (Z.to_nat (Z.of_nat (String.length (TrimLeft pre)) + 7))
      with (String.length (TrimLeft pre +:+ "```json")) 
      by (rewrite str_length_app; simpl; lia).
    rewrite <- (str_app_assoc (TrimLeft pre) "```json").
    rewrite drop_str_app.
    rewrite (index_from_app "`" "``" body); [| done | apply HasPrefix_app].
    replace (negb (Z.of_nat (String.length body) =? -1)) with true
      by (symmetry; apply negb_true_iff, Z.eqb_neq; lia).
    unfold slice.
    replace (Z.to_nat (Z.of_nat (String.length (TrimLeft pre)) + 7))
      with (String.length (TrimLeft pre +:+ "```json")) 
      by (rewrite str_length_app; simpl; lia).
    rewrite drop_str_app.
    replace (Z.to_nat _) with (String.length body) by lia.
    by rewrite take_str_app. }
  rewrite Hregion.
  by rewrite (fenced_region_plain (TrimSpace body))
    by by apply absent_TrimSpace.
Qed.

End Texts.

(** ** The Process run as a whole *)

Ltac split_all :=
  repeat match goal with |- _ /\ _ => split end;
  try done; try lia; try (by eexists);
  try (unfold observe.count_events; simpl; lia); try (intros; by eexists).

Section ProcessRun.
Import world api cmd observe.
Context {W : Type} (E : Env W) (G : Globals).

Local Abbreviation added st st' := (drop (length (trace st)) (trace st')).

Lemma count_events_app (f : Event -> bool) (a b : list Event) :
  count_events f (a ++ b) = count_events f a + count_events f b.
Proof.
  unfold count_events. rewrite List.filter_app, length_app. lia.
Qed.

Lemma count_events_nonneg (f : Event -> bool) (a : list Event) :
  0 <= count_events f a.
Proof. unfold count_events. lia. Qed.

(** what one task does to the loop variables, against what its lifecycle
    added to the trace *)
Lemma task_outcome_counts (params : EntityExecutionParams) (st : St W)
    (ls : LoopState) :
  let r := executeEntity E params st in
  let ls' := record_outcome ls r.1.1 r.1.2 in
  exists evs : list Event,
    trace r.2 = trace st ++ evs
    /\ ~ In CtxDone evs
    /\ count_events is_task_fetch evs = 0
    /\ tasksExecuted ls <= tasksExecuted ls'
    /\ tasksExecuted ls' <= tasksExecuted ls + count_events is_success_completion evs
    /\ tasksExecuted ls' <= tasksExecuted ls + 1
    /\ (is_Some (lastError ls) -> is_Some (lastError ls'))
    /\ interrupted ls' = interrupted ls.
Proof.
  cbv zeta.
  destruct (executeEntity_trace E params st) as (evs & Ht & Hn).
  exists evs. split; [done |]. split; [done |].
  assert (Hadd : added st (executeEntity E params st).2 = evs)
    by (by rewrite Ht, drop_app_length).
  pose proof (count_events_nonneg is_success_completion evs) as Hnn.
  destruct (executeEntity_cases E params st)
    as [(e & Hr & Hs & H) | [(e & m & Hr & Hs & H) | [[Hr H]
        | [(e & m & id & c & Hr & Hs & H) | (m & id & c & Hnone & Hiff & H)]]]];
    rewrite Hadd in H; clear Hadd.
  - rewrite Hr. simpl fst; simpl snd. rewrite (record_outcome_error _ _ _ Hs).
    subst evs. simpl. split_all.
  - rewrite Hr. simpl fst; simpl snd. rewrite (record_outcome_error _ _ _ Hs).
    subst evs. simpl. split_all.
  - rewrite Hr. simpl fst; simpl snd. rewrite record_outcome_skip.
    subst evs. split_all.
  - rewrite Hr. simpl fst; simpl snd. rewrite (record_outcome_error _ _ _ Hs).
    subst evs. simpl. split_all.
  - rewrite Hnone. subst evs.
    destruct ((executeEntity E params st).1.1) eqn:Hb; unfold record_outcome.
    + assert (Hst : Status c = ExecutionAttemptStatusSuccess) by by apply Hiff.
      unfold count_events. simpl. rewrite Hst. simpl.
      split_all.
    + simpl. split_all.
Qed.

(** The loop against its trace: the counter never decreases, it grows by no
    more than the Success completions and by no more than the task queries
    of the events added, and an error once recorded is not cleared. *)
Lemma process_loop_counts (fuel : nat) (processEntityID : string) :
  forall (ls : LoopState) (st : St W) (ls' : LoopState) (st' : St W),
    process_loop E G fuel processEntityID ls st = Some (ls', st') ->
    exists evs : list Event,
      trace st' = trace st ++ evs
      /\ tasksExecuted ls <= tasksExecuted ls'
      /\ tasksExecuted ls' - tasksExecuted ls
         <= count_events is_success_completion evs
      /\ tasksExecuted ls' - tasksExecuted ls <= count_events is_task_fetch evs
      /\ (is_Some (lastError ls) -> is_Some (lastError ls')).
Proof.
  induction fuel as [| fuel IH]; intros ls st ls' st' Hloop; [done |].
  simpl in Hloop.
  destruct (ctxDone E (wld st)).
  { injection Hloop as <- <-. exists [CtxDone]. simpl.
    split_all. }
  unfold Client_FetchNextTaskForProcess in Hloop.
  destruct (FetchNextTaskForProcess E _ _ _ (wld st)) as [[msg | nextResp] w1].
  { injection Hloop as <- <-. eexists. split; [reflexivity |]. simpl.
    split_all. }
  destruct (Task nextResp) as [task |].
  2:{ injection Hloop as <- <-. eexists. split; [reflexivity |]. simpl.
      split_all. }
  set (st1 := emit _ w1 st) in Hloop.
  set (p := {| params_EntityID := _ |}) in Hloop.
  destruct (task_outcome_counts p st1 ls)
    as (evs1 & Ht1 & _ & Hf1 & Hlo1 & Hhi1 & Hone & He1 & _).
  destruct (executeEntity E p st1) as [[success err] st2]. simpl in *.
  apply IH in Hloop as (evs2 & Ht2 & Hlo2 & Hs2 & Hf2 & He2).
  exists (CallFetchNextTaskForProcess (agentID G) processEntityID :: evs1 ++ evs2).
  split.
  { rewrite Ht2, Ht1. unfold st1, emit. simpl. by rewrite <- !app_assoc. }
  change (?x :: evs1 ++ evs2) with ([x] ++ evs1 ++ evs2).
  rewrite !count_events_app.
  pose proof (count_events_nonneg is_task_fetch evs1).
  change (count_events is_success_completion
            [CallFetchNextTaskForProcess (agentID G) processEntityID]) with 0.
  change (count_events is_task_fetch
            [CallFetchNextTaskForProcess (agentID G) processEntityID]) with 1.
  split_all. tauto.
Qed.

(** The shape of a run of [runProcessExecution] that creates its run. *)
Lemma runProcessExecution_shape (fuel : nat) (processEntityID : string)
    (st : St W) (err : option error) (st' : St W) :
  runProcessExecution E G fuel processEntityID st = Some (err, st') ->
  let startReq :=
    {| start_EntityID := processEntityID;
       start_ExecutionMode := "PROCESS";
       start_AgentID := agentID G |} in
  (exists msg : string,
     (StartExecution E startReq (serviceKey G) (wld st)).1 = inl msg
     /\ trace st' = trace st ++ [CallStartExecution startReq]
     /\ err = Some (Wrapf "failed to start Process run" (Errorf msg)))
  \/ (exists (startResp : ExecutionStartResponse) (mid : list Event)
             (ls : LoopState),
        (StartExecution E startReq (serviceKey G) (wld st)).1 = inr startResp
        /\ trace st'
           = trace st
             ++ CallStartExecution startReq
                :: mid ++ [CallCompleteExecution (ExecutionID startResp)
                             (process_completion ls)]
        /\ 0 <= tasksExecuted ls
        /\ tasksExecuted ls <= count_events is_success_completion mid
        /\ tasksExecuted ls <= count_events is_task_fetch mid
        /\ (err = None ->
            Status (process_completion ls) = ExecutionAttemptStatusSuccess
            /\ ~ In CtxDone mid)).
Proof.
  intros Hrun startReq. unfold runProcessExecution in Hrun. fold startReq in Hrun.
  unfold Client_StartExecution in Hrun.
  destruct (StartExecution E startReq _ (wld st)) as [[msg | startResp] w1].
  { injection Hrun as <- <-. by left; exists msg. }
  right. set (st1 := emit _ w1 st) in Hrun.
  destruct (process_loop E G fuel processEntityID loop_init st1)
    as [[ls st2] |] eqn:Hloop; [| done].
  destruct (process_loop_counts _ _ _ _ _ _ Hloop)
    as (evs & Ht & Hlo & Hs & Hf & _).
  destruct (process_loop_exit E G fuel processEntityID loop_init st1 ls st2
              eq_refl Hloop) as (evs' & Ht' & Hcase).
  assert (evs' = evs) as -> by (rewrite Ht in Ht'; by apply app_inv_head in Ht').
  exists startResp, evs, ls. split; [done |].
  unfold Client_CompleteExecution in Hrun.
  assert (Htr : trace st'
                = trace st
                  ++ CallStartExecution startReq
                     :: evs ++ [CallCompleteExecution (ExecutionID startResp)
                                  (process_completion ls)]).
  { destruct (CompleteExecution E _ _ _ _) as [[msg | ok] w3];
      repeat case_match; simplify_eq; unfold emit; simpl; rewrite Ht;
      unfold st1, emit; simpl; by rewrite <- !app_assoc. }
  split; [done |]. simpl in Hlo, Hs, Hf.
  split; [lia |]. split; [lia |]. split; [lia |].
  intros ->.
  destruct (CompleteExecution E _ _ _ _) as [[msg | ok] w3]; [done |].
  unfold process_completion.
  destruct (interrupted ls) eqn:Hi; [done |].
  destruct (lastError ls); [done |]. split; [done |].
  destruct Hcase as [[_ Hn] | [Hi' _]]; [done | congruence].
Qed.

(** X16. A Process run is bracketed. When start-execution is refused,
    [runProcessExecution] makes no other call and returns that error.
    Otherwise the first call creates the run, the last call completes the
    run with the identifier that the first one answered, and whatever the
    tasks did stands between the two; the command returns nil only when the
    reported status is Success and no cancellation was seen. *)
Theorem process_run_is_bracketed (fuel : nat) (processEntityID : string)
    (st : St W) (err : option error) (st' : St W) :
  runProcessExecution E G fuel processEntityID st = Some (err, st') ->
  let startReq :=
    {| start_EntityID := processEntityID;
       start_ExecutionMode := "PROCESS";
       start_AgentID := agentID G |} in
  match (StartExecution E startReq (serviceKey G) (wld st)).1 with
  | inl msg =>
      added st st' = [CallStartExecution startReq]
      /\ err = Some (Wrapf "failed to start Process run" (Errorf msg))
  | inr startResp =>
      exists (mid : list Event) (creq : ExecutionCompleteRequest),
        added st st'
        = CallStartExecution startReq
          :: mid ++ [CallCompleteExecution (ExecutionID startResp) creq]
        /\ (err = None ->
            Status creq = ExecutionAttemptStatusSuccess /\ ~ In CtxDone mid)
  end.
Proof.
  intros Hrun startReq.
  destruct (runProcessExecution_shape _ _ _ _ _ Hrun)
    as [(msg & Hs & Ht & He)
       | (startResp & mid & ls & Hs & Ht & _ & _ & _ & He)];
    fold startReq in Hs; rewrite Hs, Ht, drop_app_length; eauto.
Qed.

(** X17. The metric [tasks_executed] that the Process run reports counts
    accepted successes only: it is at least 0, at most the number of
    complete-execution calls with status Success that the tasks made, and
    at most the number of task queries. *)
Theorem tasks_executed_metric_is_bounded (fuel : nat) (processEntityID : string)
    (st : St W) (err : option error) (st' : St W)
    (pre : list Event) (runID : string) (creq : ExecutionCompleteRequest) :
  runProcessExecution E G fuel processEntityID st = Some (err, st') ->
  added st st' = pre ++ [CallCompleteExecution runID creq] ->
  exists (n : Z) (o : ExecutionOutputs),
    Outputs creq = Some o
    /\ Metrics o !! "tasks_executed"%string = Some (int_value n)
    /\ 0 <= n
    /\ n <= count_events is_success_completion pre
    /\ n <= count_events is_task_fetch pre.
Proof.
  intros Hrun Hadd.
  destruct (runProcessExecution_shape _ _ _ _ _ Hrun)
    as [(msg & _ & Ht & _)
       | (startResp & mid & ls & _ & Ht & H0 & Hs & Hf & _)].
  { rewrite Ht, drop_app_length in Hadd.
    destruct pre as [| ? [| ? ?]]; by simplify_eq/=. }
  rewrite Ht, drop_app_length, app_comm_cons in Hadd.
  apply app_inj_tail in Hadd as [<- Heq]. injection Heq as <- <-.
  exists (tasksExecuted ls).
  change (?x :: mid) with ([x] ++ mid). rewrite !count_events_app.
  change (count_events is_success_completion [CallStartExecution _]) with 0.
  change (count_events is_task_fetch [CallStartExecution _]) with 0.
  unfold process_completion.
  destruct (interrupted ls); [| destruct (lastError ls)];
    (eexists; split; [reflexivity |]; split; [done |]; lia).
Qed.

(** X18. An error once recorded by the loop is never cleared: however the
    tasks behind it end, the loop is left with an error recorded, and the
    Process run is then not reported as Success. *)
Theorem recorded_error_is_never_cleared (fuel : nat) (processEntityID : string)
    (ls : LoopState) (st : St W) (ls' : LoopState) (st' : St W) :
  is_Some (lastError ls) ->
  process_loop E G fuel processEntityID ls st = Some (ls', st') ->
  is_Some (lastError ls')
  /\ Status (process_completion ls') <> ExecutionAttemptStatusSuccess.
Proof.
  intros He Hloop.
  destruct (process_loop_counts _ _ _ _ _ _ Hloop) as (_ & _ & _ & _ & _ & H).
  specialize (H He). split; [done |]. destruct H as [e H].
  unfold process_completion. rewrite H. by destruct (interrupted ls').
Qed.

End ProcessRun.

(** ** The command [run] *)

Section RunCommand.
Import world api cmd run observe.
Context {W : Type} (NewClient : string -> Env W) (Getenv : string -> string).

Local Abbreviation added st st' := (drop (length (trace st)) (trace st')).

(** With both credentials, every run of the command begins with the fetch
    of the entity; and when it ends with exit status 0, the last call
    started a run in ask-user mode or completed a run with status Success. *)
Lemma runExecute_with_credentials (flags : Flags) (fuel : nat)
    (entityID : string) (st : St W) (f : Finished) (st' : St W) :
  String.eqb (agentID (resolve_globals Getenv flags)) "" = false ->
  String.eqb (serviceKey (resolve_globals Getenv flags)) "" = false ->
  runExecute NewClient Getenv flags fuel entityID st = Some (f, st') ->
  exists rest : list Event,
    trace st' = trace st ++ CallFetchEntityForExecution entityID :: rest
    /\ (exit_status f = 0 ->
        exists (pre : list Event) (last : Event),
          rest = pre ++ [last]
          /\ (is_success_completion last = true
              \/ exists req : ExecutionStartRequest,
                   last = CallStartExecution req
                   /\ start_ExecutionMode req = ExecutionModeAskUser)).
Proof.
  intros Ha Hk Hrun. unfold runExecute in Hrun. rewrite Ha, Hk in Hrun.
  set (G := resolve_globals Getenv flags) in *.
  set (client := NewClient (resolve_apiURL Getenv flags)) in *.
  unfold Client_FetchEntityForExecution in Hrun.
  destruct (FetchEntityForExecution client entityID _ (wld st))
    as [[msg | entityResp] w1].
  { injection Hrun as <- <-. by exists []. }
  set (st1 := emit _ w1 st) in Hrun.
  destruct (String.eqb (Type_ (Entity entityResp)) "PROCESS").
  - destruct (runProcessExecution client G fuel entityID st1)
      as [[err st2] |] eqn:Hp; [| done].
    injection Hrun as <- <-.
    destruct (runProcessExecution_shape client G _ _ _ _ _ Hp)
      as [(msg & _ & Ht & ->)
         | (startResp & mid & ls & _ & Ht & _ & _ & _ & He)].
    + eexists. split; [rewrite Ht; unfold st1, emit; simpl;
                       by rewrite <- app_assoc | done].
    + eexists. split; [rewrite Ht; unfold st1, emit; simpl;
                       by rewrite <- app_assoc |].
      intros Hz. destruct err as [e |]; [done |].
      destruct (He eq_refl) as [Hst _].
      eexists (_ :: mid), _. split; [reflexivity |].
      left. simpl. by rewrite Hst.
  - set (p := {| params_EntityID := entityID |}) in Hrun.
    destruct (executeEntity_trace client p st1) as (evs & Ht & _).
    assert (Hadd : added st1 (executeEntity client p st1).2 = evs)
      by (by rewrite Ht, drop_app_length).
    pose proof (executeEntity_cases client p st1) as Hcases. cbv zeta in Hcases.
    rewrite Hadd in Hcases. clear Hadd.
    destruct (executeEntity client p st1) as [[success err] st2].
    simpl in Ht, Hcases.
    exists evs. split.
    { assert (st' = st2) as ->
        by (repeat case_match; by simplify_eq).
      rewrite Ht. unfold st1, emit. simpl. by rewrite <- app_assoc. }
    intros Hz.
    destruct Hcases
      as [(e & Hr & Hs & H) | [(e & m & Hr & Hs & H) | [[Hr H]
          | [(e & m & id & c & Hr & Hs & H) | (m & id & c & Hnone & Hiff & H)]]]];
      simplify_eq/=.
    + rewrite Hs in Hrun. by simplify_eq.
    + rewrite Hs in Hrun. by simplify_eq.
    + eexists [_], _. split; [reflexivity |]. right. by eexists.
    + rewrite Hs in Hrun. by simplify_eq.
    + destruct success; simpl in Hrun; simplify_eq/=.
      eexists [_; _], _. split; [reflexivity |]. left. simpl.
      by rewrite (proj1 Hiff eq_refl).
Qed.

(** X19. The command contacts the API exactly when both credentials are
    there after the fallback to the environment. Without one of them it
    returns an error, so the process exits with status 1, and no call was
    made; with both, its first call fetches the entity named on the command
    line. *)
Theorem api_is_contacted_iff_credentials (flags : Flags) (fuel : nat)
    (entityID : string) (st : St W) (f : Finished) (st' : St W) :
  runExecute NewClient Getenv flags fuel entityID st = Some (f, st') ->
  let G := resolve_globals Getenv flags in
  let missing := agentID G = ""%string \/ serviceKey G = ""%string in
  (trace st' = trace st <-> missing)
  /\ (missing -> exit_status f = 1)
  /\ (~ missing ->
      exists rest : list Event,
        added st st' = CallFetchEntityForExecution entityID :: rest).
Proof.
  intros Hrun G missing. unfold missing.
  destruct (String.eqb_spec (agentID G) "") as [Ha | Ha].
  { unfold runExecute in Hrun. fold G in Hrun. rewrite Ha in Hrun.
    simpl in Hrun. injection Hrun as <- <-. split; [| split]; [tauto | done | tauto]. }
  destruct (String.eqb_spec (serviceKey G) "") as [Hk | Hk].
  { unfold runExecute in Hrun. fold G in Hrun.
    apply String.eqb_neq in Ha. rewrite Ha, Hk in Hrun.
    simpl in Hrun. injection Hrun as <- <-. split; [| split]; [tauto | done | tauto]. }
  apply String.eqb_neq in Ha as Ha', Hk as Hk'.
  destruct (runExecute_with_credentials _ _ _ _ _ _ Ha' Hk' Hrun)
    as (rest & Ht & _).
  split; [| split]; [| tauto |].
  - split; [| tauto]. intros Heq. rewrite Heq in Ht.
    apply (f_equal length) in Ht. rewrite length_app in Ht. simpl in Ht. lia.
  - intros _. exists rest. by rewrite Ht, drop_app_length.
Qed.

(** X20. Exit status 0 is earned: when the command ends with it, calls
    were made, and the last of them either started the run of an ask-user
    entity or completed a run with status Success - the run of the entity,
    or for a Process the Process run. *)
Theorem exit_status_zero_means_success (flags : Flags) (fuel : nat)
    (entityID : string) (st : St W) (f : Finished) (st' : St W) :
  runExecute NewClient Getenv flags fuel entityID st = Some (f, st') ->
  exit_status f = 0 ->
  exists (pre : list Event) (last : Event),
    added st st' = pre ++ [last]
    /\ (is_success_completion last = true
        \/ exists req : ExecutionStartRequest,
             last = CallStartExecution req
             /\ start_ExecutionMode req = ExecutionModeAskUser).
Proof.
  intros Hrun Hz.
  destruct (String.eqb (agentID (resolve_globals Getenv flags)) "") eqn:Ha.
  { unfold runExecute in Hrun. rewrite Ha in Hrun. by simplify_eq. }
  destruct (String.eqb (serviceKey (resolve_globals Getenv flags)) "") eqn:Hk.
  { unfold runExecute in Hrun. rewrite Ha, Hk in Hrun. by simplify_eq. }
  destruct (runExecute_with_credentials _ _ _ _ _ _ Ha Hk Hrun)
    as (rest & Ht & Hlast).
  destruct (Hlast Hz) as (pre & last & -> & Hcase).
  exists (CallFetchEntityForExecution entityID :: pre), last.
  split; [| done]. by rewrite Ht, drop_app_length.
Qed.

End RunCommand.

(** ** The main loop of the agent *)

Section PollLoop.
Import world api cmd loop.
Context {W : Type} (L : LoopEnv W) (G : Globals).

Local Abbreviation ladded st st' := (drop (length (ltrace st)) (ltrace st')).

(** a task run from the loop adds the events of its lifecycle, and nothing
    else *)
Lemma lifecycle_trace (taskID : string) (st : LoopSt W) :
  exists evs : list Event,
    ltrace (lifecycle L G taskID st).2 = ltrace st ++ (Lifecycle <$> evs)
    /\ ~ In CtxDone evs.
Proof.
  unfold lifecycle.
  set (p := {| params_EntityID := taskID |}).
  set (st0 := {| wld := lwld st; trace := [] |}).
  destruct (executeEntity_trace (core L) p st0) as (evs & Ht & Hn).
  destruct (executeEntity (core L) p st0) as [r s]. simpl in *.
  exists evs. by rewrite Ht.
Qed.

Lemma sleeps_after_lifecycle (evs : list Event) (rest : list LoopEvent) :
  (forall prev, sleeps_after_fetch prev rest) ->
  forall prev, sleeps_after_fetch prev ((Lifecycle <$> evs) ++ rest).
Proof.
  intros Hrest. induction evs as [| e evs IH]; intros prev; simpl; [done |].
  split; [done | apply IH].
Qed.

(** One invariant for the two properties below: what a run of the loop adds
    to the trace. *)
Lemma poll_loop_trace (fuel : nat) (pollInterval : Z) :
  forall st st' : LoopSt W,
    poll_loop L G fuel pollInterval st = Some st' ->
    exists (pre : list LoopEvent) (last : LoopEvent),
      ltrace st' = ltrace st ++ pre ++ [last]
      /\ (last = Lifecycle CtxDone \/ last = Slept pollInterval true)
      /\ Forall (fun e => e <> Lifecycle CtxDone
                          /\ forall s : Z, e <> Slept s true) pre
      /\ Forall (fun e => forall (s : Z) (c : bool),
                            e = Slept s c -> s = pollInterval) (pre ++ [last])
      /\ forall prev, sleeps_after_fetch prev (pre ++ [last]).
Proof.
  induction fuel as [| fuel IH]; intros st st' Hloop; [done |].
  simpl in Hloop.
  destruct (ctxDone (core L) (lwld st)).
  { injection Hloop as <-. exists [], (Lifecycle CtxDone). simpl.
    split; [done |]. split; [by left |]. split; [constructor |].
    split; [by repeat constructor |]. done. }
  destruct (FetchNextTask L _ _ (lwld st)) as [r w1].
  set (st1 := lemit (CallFetchNextTask (agentID G)) w1 st) in Hloop.
  assert (Hidle :
    (let '(cancelled, w) := sleepWithContext L pollInterval (lwld st1) in
     let st := lemit (Slept pollInterval cancelled) w st1 in
     if cancelled then Some st else poll_loop L G fuel pollInterval st)
    = Some st' ->
    exists (pre : list LoopEvent) (last : LoopEvent),
      ltrace st' = ltrace st ++ pre ++ [last]
      /\ (last = Lifecycle CtxDone \/ last = Slept pollInterval true)
      /\ Forall (fun e => e <> Lifecycle CtxDone
                          /\ forall s : Z, e <> Slept s true) pre
      /\ Forall (fun e => forall (s : Z) (c : bool),
                            e = Slept s c -> s = pollInterval) (pre ++ [last])
      /\ forall prev, sleeps_after_fetch prev (pre ++ [last])).
  { clear Hloop. intros Hloop.
    destruct (sleepWithContext L pollInterval (lwld st1)) as [[|] w2].
    - injection Hloop as <-.
      exists [CallFetchNextTask (agentID G)], (Slept pollInterval true).
      simpl. rewrite <- app_assoc. split; [done |]. split; [by right |].
      split; [by repeat constructor |].
      split; [repeat constructor; intros; by simplify_eq |]. done.
    - apply IH in Hloop as (pre & last & Ht & Hl & Hp & Hd & Hs).
      exists (CallFetchNextTask (agentID G) :: Slept pollInterval false :: pre),
        last.
      split; [rewrite Ht; simpl; by rewrite <- !app_assoc |].
      split; [done |].
      split; [repeat constructor; try done |].
      split; [repeat constructor; try done; intros; by simplify_eq |].
      intros prev. simpl. split; [done |]. split; [done |]. apply Hs. }
  destruct r as [msg | nextResp]; [by apply Hidle |].
  destruct (Task nextResp) as [task |]; [| by apply Hidle].
  clear Hidle.
  destruct (lifecycle_trace (task_ID task) st1) as (evs & Ht1 & Hn1).
  destruct (lifecycle L G (task_ID task) st1) as [r st2]. simpl in Ht1.
  apply IH in Hloop as (pre & last & Ht & Hl & Hp & Hd & Hs).
  exists (CallFetchNextTask (agentID G) :: (Lifecycle <$> evs) ++ pre), last.
  split.
  { rewrite Ht, Ht1. unfold st1, lemit. simpl. by rewrite <- !app_assoc. }
  split; [done |].
  split.
  { constructor; [done |]. apply Forall_app. split; [| done].
    apply Forall_fmap, Forall_forall. intros e He. simpl. split; [| done].
    intros [= ->]. apply Hn1. by apply list_elem_of_In. }
  split.
  { simpl. constructor; [done |]. rewrite <- app_assoc.
    apply Forall_app. split; [| done].
    apply Forall_fmap, Forall_forall. by intros e He. }
  intros prev. simpl. split; [done |]. rewrite <- app_assoc.
  by apply sleeps_after_lifecycle.
Qed.

(** X21. The main loop of the agent returns for one reason only, the
    cancellation of its context: the last event of every run that returns is
    the cancellation seen at the top of an iteration, or a sleep that the
    cancellation cut short, and neither happened before. No error of the
    task query and no outcome of a task ends it. *)
Theorem poll_loop_returns_on_cancellation (fuel : nat) (pollInterval : Z)
    (st st' : LoopSt W) :
  poll_loop L G fuel pollInterval st = Some st' ->
  exists (pre : list LoopEvent) (last : LoopEvent),
    ladded st st' = pre ++ [last]
    /\ (last = Lifecycle CtxDone \/ last = Slept pollInterval true)
    /\ Forall (fun e => e <> Lifecycle CtxDone
                        /\ forall s : Z, e <> Slept s true) pre.
Proof.
  intros Hloop.
  destruct (poll_loop_trace _ _ _ _ Hloop) as (pre & last & Ht & Hl & Hp & _).
  exists pre, last. by rewrite Ht, drop_app_length.
Qed.

(** X22. The loop sleeps only when it is idle: every sleep stands directly
    behind a task query - one that failed or found no task - and lasts the
    poll interval; behind the lifecycle of a task, whatever its outcome, the
    next event is never a sleep. *)
Theorem loop_sleeps_only_when_idle (fuel : nat) (pollInterval : Z)
    (st st' : LoopSt W) :
  poll_loop L G fuel pollInterval st = Some st' ->
  sleeps_after_fetch None (ladded st st')
  /\ Forall (fun e => forall (s : Z) (c : bool),
                        e = Slept s c -> s = pollInterval) (ladded st st').
Proof.
  intros Hloop.
  destruct (poll_loop_trace _ _ _ _ Hloop) as (pre & last & Ht & _ & _ & Hd & Hs).
  rewrite Ht, drop_app_length. by split.
Qed.

End PollLoop.

(** ** What the recovery loop resumes *)

Section RecoveryMore.
Import api recovery observe.
Context (resumed : list ResumedRun).

(** the entry of the recovery answer that a goroutine belongs to *)
Local Abbreviation entry_of visited g :=
  (exists r : ResumedRun,
     r ∈ visited
     /\ resumed_ExecutionMode r = ExecutionModeOrchestrate
     /\ RunID r = g_runID g
     /\ resumed_EntityID r = g_entityID g).

(** what the loop has visited so far, and what came of it *)
Local Abbreviation visited_inv s :=
  (exists visited : list ResumedRun,
     resumed = visited ++ remaining s
     /\ sublist (launches s) (orchestrate_ids visited)
     /\ Forall (fun g => entry_of visited g) (goroutines s)).

(** with distinct run identifiers nothing is skipped *)
Local Abbreviation distinct_inv s :=
  (launches s ++ orchestrate_ids (remaining s) = orchestrate_ids resumed
   /\ forall id : string, id ∈ activeResumes s -> id ∈ launches s).

Lemma orchestrate_ids_app (a b : list ResumedRun) :
  orchestrate_ids (a ++ b) = orchestrate_ids a ++ orchestrate_ids b.
Proof. unfold orchestrate_ids. by rewrite List.filter_app, fmap_app. Qed.

Lemma orchestrate_ids_cons (r : ResumedRun) (rest : list ResumedRun) :
  orchestrate_ids (r :: rest)
  = if String.eqb (resumed_ExecutionMode r) ExecutionModeOrchestrate
    then RunID r :: orchestrate_ids rest else orchestrate_ids rest.
Proof. unfold orchestrate_ids. simpl. by case_match. Qed.

Lemma entry_of_mono (visited : list ResumedRun) (r : ResumedRun)
    (gs : list Goroutine) :
  Forall (fun g => entry_of visited g) gs ->
  Forall (fun g => entry_of (visited ++ [r]) g) gs.
Proof.
  intros Hgs. eapply Forall_impl; [exact Hgs |].
  intros g (r' & Hin & H). exists r'.
  split; [| done]. apply elem_of_app. by left.
Qed.

Lemma visited_inv_step (s s' : Sched) (a : Action) :
  visited_inv s -> step s a = Some s' -> visited_inv s'.
Proof.
  intros (visited & Hres & Hsub & Hgs) Hstep.
  destruct a as [| runID | runID]; simpl in Hstep.
  - destruct (remaining s) as [| r rest] eqn:Hrem; [done |].
    assert (Hres' : resumed = (visited ++ [r]) ++ rest)
      by (by rewrite <- app_assoc).
    assert (Hids : orchestrate_ids (visited ++ [r])
                   = orchestrate_ids visited ++ orchestrate_ids [r])
      by apply orchestrate_ids_app.
    rewrite orchestrate_ids_cons in Hids.
    destruct (String.eqb _ ExecutionModeOrchestrate) eqn:Hmode.
    + unfold LoadOrStore in Hstep.
      destruct (decide (RunID r ∈ activeResumes s));
        injection Hstep as <-; exists (visited ++ [r]); simpl;
        (split; [done |]); rewrite Hids.
      * split; [by apply sublist_inserts_r | by apply entry_of_mono].
      * split; [by apply sublist_app |].
        apply Forall_app. split; [by apply entry_of_mono |].
        constructor; [| done]. exists r. simpl.
        split; [apply elem_of_app; right; by apply list_elem_of_singleton |].
        by apply String.eqb_eq in Hmode.
    + injection Hstep as <-. exists (visited ++ [r]). simpl.
      split; [done |]. rewrite Hids, app_nil_r.
      split; [done | by apply entry_of_mono].
  - destruct (pick runID Resuming (goroutines s)) as [[g rest] |] eqn:Hp; [| done].
    injection Hstep as <-. exists visited. simpl.
    split; [done |]. split; [done |].
    destruct (pick_split _ _ _ _ _ Hp) as (_ & _ & l1 & l2 & Hl & ->).
    rewrite Hl in Hgs. apply Forall_app in Hgs as [H1 H2].
    apply Forall_cons in H2 as [Hg H2].
    apply Forall_app. split; [apply Forall_app; by split |].
    by constructor.
  - destruct (pick runID Returned (goroutines s)) as [[g rest] |] eqn:Hp; [| done].
    injection Hstep as <-. exists visited. simpl.
    split; [done |]. split; [done |].
    destruct (pick_split _ _ _ _ _ Hp) as (_ & _ & l1 & l2 & Hl & ->).
    rewrite Hl in Hgs. apply Forall_app in Hgs as [H1 H2].
    apply Forall_cons in H2 as [Hg H2]. by apply Forall_app.
Qed.

Lemma visited_inv_exec (schedule : list Action) : forall s s' : Sched,
  visited_inv s -> exec s schedule = Some s' -> visited_inv s'.
Proof.
  induction schedule as [| a schedule IH]; intros s s' Hs Hexec; simpl in Hexec.
  - by injection Hexec as <-.
  - destruct (step s a) as [s1 |] eqn:Hstep; [| done].
    eapply IH; [| done]. by eapply visited_inv_step.
Qed.

Lemma distinct_inv_step (s s' : Sched) (a : Action) :
  NoDup (orchestrate_ids resumed) ->
  distinct_inv s -> step s a = Some s' -> distinct_inv s'.
Proof.
  intros Hnd [Hl Hact] Hstep.
  destruct a as [| runID | runID]; simpl in Hstep.
  - destruct (remaining s) as [| r rest] eqn:Hrem; [done |].
    rewrite orchestrate_ids_cons in Hl.
    destruct (String.eqb _ ExecutionModeOrchestrate) eqn:Hmode.
    + assert (Hnew : RunID r ∉ activeResumes s).
      { intros Hin%Hact. rewrite <- Hl in Hnd.
        apply NoDup_app in Hnd as (_ & Hdis & _).
        apply (Hdis _ Hin). by left. }
      unfold LoadOrStore in Hstep.
      destruct (decide (RunID r ∈ activeResumes s)); [done |].
      injection Hstep as <-. simpl. split; [by rewrite <- app_assoc |].
      intros id [->%elem_of_singleton | Hin]%elem_of_union;
        apply elem_of_app; [right; by apply list_elem_of_singleton | left; auto].
    + by injection Hstep as <-.
  - destruct (pick runID Resuming (goroutines s)) as [[g rest] |]; [| done].
    by injection Hstep as <-.
  - destruct (pick runID Returned (goroutines s)) as [[g rest] |]; [| done].
    injection Hstep as <-. simpl. split; [done |]. unfold Delete.
    intros id [Hin _]%elem_of_difference. auto.
Qed.

Lemma distinct_inv_exec (schedule : list Action) : forall s s' : Sched,
  NoDup (orchestrate_ids resumed) ->
  distinct_inv s -> exec s schedule = Some s' -> distinct_inv s'.
Proof.
  induction schedule as [| a schedule IH]; intros s s' Hnd Hs Hexec;
    simpl in Hexec.
  - by injection Hexec as <-.
  - destruct (step s a) as [s1 |] eqn:Hstep; [| done].
    eapply IH; [done | | done]. by eapply distinct_inv_step.
Qed.

(** X23. Only what the recovery answer lists in [ORCHESTRATE] mode is
    resumed: under any interleaving, the goroutines started so far are, in
    order, some of the [ORCHESTRATE] entries that the loop has visited, and
    every goroutine alive resumes the entity that its entry names, under the
    run identifier of that entry. Entries in any other mode start nothing. *)
Theorem only_orchestrate_runs_are_resumed
    (schedule : list Action) (s : Sched) :
  exec (initial resumed) schedule = Some s ->
  exists visited : list ResumedRun,
    resumed = visited ++ remaining s
    /\ sublist (launches s) (orchestrate_ids visited)
    /\ Forall (fun g =>
                 exists r : ResumedRun,
                   r ∈ visited
                   /\ resumed_ExecutionMode r = ExecutionModeOrchestrate
                   /\ RunID r = g_runID g
                   /\ resumed_EntityID r = g_entityID g) (goroutines s).
Proof.
  intros Hexec. eapply visited_inv_exec; [| exact Hexec].
  exists []. simpl. split; [done |]. split; [done | constructor].
Qed.

(** X24. When the [ORCHESTRATE] entries of the recovery answer have distinct
    run identifiers, none is skipped: under any interleaving the goroutines
    started so far and the [ORCHESTRATE] entries not yet visited make up the
    entries of the answer, in order; so once the loop has visited every
    entry, each of them was resumed exactly once. *)
Theorem distinct_runs_are_all_resumed (schedule : list Action) (s : Sched) :
  NoDup (orchestrate_ids resumed) ->
  exec (initial resumed) schedule = Some s ->
  launches s ++ orchestrate_ids (remaining s) = orchestrate_ids resumed
  /\ (remaining s = [] -> launches s = orchestrate_ids resumed).
Proof.
  intros Hnd Hexec.
  assert (H : distinct_inv s).
  { eapply distinct_inv_exec; [done | | exact Hexec].
    split; [done |]. simpl. by intros id ?%not_elem_of_empty. }
  destruct H as [H _]. split; [done |].
  intros Hrem. rewrite Hrem in H. by rewrite app_nil_r in H.
Qed.

End RecoveryMore.

(** ** The inputs of a task *)

Section Inputs.
Import gostrings inputs.
Context (Marshal : json.value -> option string) (writable : string -> bool).



Lemma envKey_prefix (label rest : string) :
  HasPrefix (envKey label +:+ rest) "INPUT_" = true.
Proof. unfold envKey. rewrite str_app_assoc. apply HasPrefix_app. Qed.

(** what one input adds *)
Lemma add_input_spec (env : list string) (files : gmap string string)
    (label : string) (value : json.value) :
  let r := add_input Marshal writable (env, files) (label, value) in
  exists more : list string,
    r.1 = env ++ more
    /\ (length more <= 2)%nat
    /\ Forall (fun kv => HasPrefix kv "INPUT_" = true) more
    /\ (forall path : string, path <> filePath label -> r.2 !! path = files !! path).
Proof.
  cbv zeta. unfold add_input.
  destruct (Marshal value) as [jsonBytes |]; simpl.
  2:{ exists []. rewrite app_nil_r. simpl. split_all. }
  destruct (writable (filePath label)); simpl.
  - eexists [_; _]. rewrite <- app_assoc. simpl. split; [done |]. split; [lia |].
    split; [repeat constructor; apply envKey_prefix |].
    intros path Hne. by rewrite lookup_insert_ne.
  - eexists [_]. split; [done |]. split; [simpl; lia |].
    split; [repeat constructor; apply envKey_prefix | done].
Qed.

Lemma buildEnvWithInputs_spec (visited : list (string * json.value)) :
  forall (environ : list string) (files : gmap string string),
    let r := buildEnvWithInputs Marshal writable environ visited files in
    exists more : list string,
      r.1 = environ ++ more
      /\ (length more <= 2 * length visited)%nat
      /\ Forall (fun kv => HasPrefix kv "INPUT_" = true) more
      /\ (forall path : string,
            (forall label : string, label ∈ visited.*1 -> path <> filePath label) ->
            r.2 !! path = files !! path).
Proof.
  unfold buildEnvWithInputs.
  induction visited as [| [label value] visited IH]; intros environ files.
  { exists []. simpl. rewrite app_nil_r. split_all. }
  cbn [foldl].
  destruct (add_input_spec environ files label value)
    as (more1 & He1 & Hl1 & Hp1 & Hf1).
  destruct (add_input Marshal writable (environ, files) (label, value))
    as [env1 files1]. simpl in He1, Hf1.
  destruct (IH env1 files1) as (more2 & He2 & Hl2 & Hp2 & Hf2).
  exists (more1 ++ more2). cbv zeta.
  split; [by rewrite He2, He1, <- app_assoc |].
  split; [rewrite length_app; simpl; lia |].
  split; [by apply Forall_app |].
  intros path Hpath. rewrite Hf2, Hf1; [done | |].
  - apply Hpath. simpl. by left.
  - intros l Hl. apply Hpath. simpl. by right.
Qed.

(** X25. [buildEnvWithInputs] only adds: the environment of the host is the
    beginning of the result, unchanged and in order; behind it stand at most
    two variables per input, each with a name that begins with [INPUT_]; and
    no file is touched but the files of the inputs. *)
Theorem input_variables_extend_environment
    (environ : list string) (visited : list (string * json.value))
    (files : gmap string string) :
  exists more : list string,
    (buildEnvWithInputs Marshal writable environ visited files).1 = environ ++ more
    /\ (length more <= 2 * length visited)%nat
    /\ Forall (fun kv => HasPrefix kv "INPUT_" = true) more
    /\ (forall path : string,
          (forall label : string, label ∈ visited.*1 -> path <> filePath label) ->
          (buildEnvWithInputs Marshal writable environ visited files).2 !! path
          = files !! path).
Proof. apply buildEnvWithInputs_spec. Qed.


Lemma upper_idemp (c : ascii) : upper (upper c) = upper c.
Proof. by destruct c as [[] [] [] [] [] [] [] []]. Qed.

Lemma upper_dash (c : ascii) :
  upper (if Ascii.eqb (upper c) "-" then "_"%char else upper c)
  = upper (if Ascii.eqb c "-" then "_"%char else c).
Proof. by destruct c as [[] [] [] [] [] [] [] []]. Qed.

Lemma dash_idemp (c : ascii) :
  let d := if Ascii.eqb c "-" then "_"%char else c in
  (if Ascii.eqb d "-" then "_"%char else d) = d.
Proof. by destruct c as [[] [] [] [] [] [] [] []]. Qed.

(** X27. The name of the variable forgets the case of the letters and the
    difference between dash and underscore: a label, the same label with
    underscores for its dashes and the same label in upper case are all
    exported under one name. *)
Theorem labels_share_a_variable (label : string) :
  envKey (dash_to_underscore label) = envKey label
  /\ (is_ascii label = true -> envKey (ToUpper label) = envKey label).
Proof.
  unfold envKey. split; [| intros _]; f_equal.
  - f_equal. induction label as [| c label IH]; [done |].
    simpl. by rewrite IH, (dash_idemp c).
  - induction label as [| c label IH]; [done |].
    simpl. by rewrite IH, upper_dash.
Qed.


Lemma take_str_length (n : nat) : forall s : string,
  (String.length (take_str n s) <= n)%nat.
Proof.
  induction n as [| n IH]; intros [| c s]; simpl; try lia.
  specialize (IH s). lia.
Qed.

Lemma display_part_length (label : string) (value : json.value) :
  (String.length (display_part Marshal (label, value))
   <= String.length label + 105)%nat.
Proof.
  unfold display_part.
  destruct (Marshal value) as [jsonStr |].
  2:{ rewrite str_length_app. simpl. lia. }
  rewrite !str_length_app. simpl String.length at 2.
  destruct (100 <? len jsonStr) eqn:Hlen.
  - rewrite str_length_app. unfold slice.
    pose proof (take_str_length (Z.to_nat (100 - 0))
                  (drop_str (Z.to_nat 0) jsonStr)) as H.
    change (String.length "...") with 3%nat. lia.
  - apply Z.ltb_ge in Hlen. unfold len in Hlen. lia.
Qed.

(** X29. The display of the inputs is bounded in their values: whatever the
    values are, every entry is at most its label and 105 bytes long - a
    value longer than 100 bytes is cut to 100 bytes and an ellipsis - so the
    whole text is at most 9 bytes and, for each input, its label and 108
    bytes. *)
Theorem display_of_inputs_is_bounded (visited : list (string * json.value)) :
  Forall (fun input =>
            (String.length (display_part Marshal input)
             <= String.length input.1 + 105)%nat) visited
  /\ (String.length (FormatInputsForDisplay Marshal visited)
      <= 9 + sum_list_with (fun input => String.length input.1 + 108)%nat visited)%nat.
Proof.
  split.
  { apply Forall_forall. intros [label value] _. apply display_part_length. }
  unfold FormatInputsForDisplay.
  destruct visited as [| input visited]; [simpl; lia |].
  assert (H : forall l : list (string * json.value),
            (String.length (Join (map (display_part Marshal) l)
                              (validator.newline +:+ "  "))
             <= sum_list_with (fun input => String.length input.1 + 108)%nat l)%nat).
  { induction l as [| [label value] l IH]; [simpl; lia |].
    pose proof (display_part_length label value) as Hd.
    change (map (display_part Marshal) ((label, value) :: l))
      with (display_part Marshal (label, value) :: map (display_part Marshal) l).
    destruct l as [| input' l].
    - simpl in *. lia.
    - remember (input' :: l) as l' eqn:Hl'.
      assert (HJ : Join (display_part Marshal (label, value)
                           :: map (display_part Marshal) l')
                     (validator.newline +:+ "  ")
                   = display_part Marshal (label, value)
                     +:+ (validator.newline +:+ "  ")
                     +:+ Join (map (display_part Marshal) l')
                           (validator.newline +:+ "  "))
        by (by rewrite Hl').
      rewrite HJ, !str_length_app.
      change (String.length validator.newline) with 1%nat.
      change (String.length "  ") with 2%nat.
      cbn [sum_list_with fst]. lia. }
  specialize (H (input :: visited)). lia.
Qed.

End Inputs.

(** ** The further properties on concrete runs *)

Section LifecycleScenes.
Import world api cmd.


(** X3 at the entity [ask]. *)
Lemma skip_signal_witness :
  (executeEntity fake.env (fake.params "ask") (fake.boot (fake.server [] None))).1
  = (false, Some ErrAskUserSkipped)
  /\ length (trace (executeEntity fake.env (fake.params "ask")
                      (fake.boot (fake.server [] None))).2) = 2%nat.
Proof.
  split; [reflexivity |].
  destruct (skip_signal_only_for_ask_user fake.env (fake.params "ask")
              (fake.boot (fake.server [] None)) ErrAskUserSkipped)
    as (_ & _ & Ht).
  - reflexivity.
  - reflexivity.
  - change (drop _ ?l) with l in Ht. rewrite Ht. reflexivity.
Defined.

(** X4 at the entity [orch], in the mode [ORCHESTRATE]: its run [run-0] is
    created and never completed. *)
Lemma unknown_mode_witness :
  (executeEntity fake.env (fake.params "orch") (fake.boot (scenes.server [] None))).1
  = (false, Some (Errorf "unknown execution mode: ORCHESTRATE"))
  /\ fake.starts (trace (executeEntity fake.env (fake.params "orch")
                           (fake.boot (scenes.server [] None))).2)
     = ["orch"%string]
  /\ fake.completions (trace (executeEntity fake.env (fake.params "orch")
                                (fake.boot (scenes.server [] None))).2)
     = [].
Proof.
  rewrite (unknown_mode_leaves_run_open fake.env (fake.params "orch")
             (fake.boot (scenes.server [] None))
             (fake.ready (fake.entity "orch" ExecutionModeOrchestrate None ∅ ∅))
             (scenes.server [] None)
             {| ExecutionID := "run-0"; AttemptNumber := 1; start_Inputs := ∅ |}
             (fake.fake_start
                {| start_EntityID := "orch";
                   start_ExecutionMode := ExecutionModeOrchestrate;
                   start_AgentID := "agent-1" |} "key" (scenes.server [] None)).2).
  - repeat split.
  - reflexivity.
  - reflexivity.
  - reflexivity.
  - reflexivity.
  - unfold observe.known_mode. simpl.
    rewrite !elem_of_cons, elem_of_nil. intros H.
    repeat destruct H as [H | H]; try discriminate H. exact H.
Defined.

(** X6 at the entity [empty], whose code is the empty text. *)
Lemma empty_code_witness :
  fake.completions (trace (executeEntity fake.env (fake.params "empty")
                             (fake.boot (scenes.server [] None))).2)
  = [("run-0"%string, ExecutionAttemptStatusFailed,
      Some "Execution failed with exit code 1: no code provided for BASH execution"%string)].
Proof.
  destruct (empty_code_is_reported_failed fake.env (fake.params "empty")
              (fake.boot (scenes.server [] None))
              (fake.ready (fake.entity "empty" ExecutionModeBash (Some ""%string) ∅ ∅))
              (scenes.server [] None)
              {| ExecutionID := "run-0"; AttemptNumber := 1; start_Inputs := ∅ |}
              (fake.fake_start
                 {| start_EntityID := "empty";
                    start_ExecutionMode := ExecutionModeBash;
                    start_AgentID := "agent-1" |} "key" (scenes.server [] None)).2)
    as (Ht & _).
  - reflexivity.
  - reflexivity.
  - reflexivity.
  - reflexivity.
  - right. reflexivity.
  - reflexivity.
  - rewrite Ht. reflexivity.
Defined.

End LifecycleScenes.

Section BackendScenes.
Import executor world.

(** X8 at the entity [burst], whose output crosses the cap. *)
Lemma captured_streams_witness :
  gostrings.len
    (Stdout (ExecuteBash fake.env
               (fake.entity "burst" api.ExecutionModeBash (Some fake.burst) ∅ ∅)
               ∅ (fake.server [] None)).1) <= 1048576.
Proof.
  destruct (captured_streams_are_capped_prefixes fake.env
              (fake.entity "burst" api.ExecutionModeBash (Some fake.burst) ∅ ∅)
              ∅ (fake.server [] None) fake.burst)
    as (_ & _ & _ & _ & H & _).
  - reflexivity.
  - discriminate.
  - exact H.
Defined.


(** X11 at a writer with one byte buffered and the limit 3, and a chunk of
    three bytes: two bytes are kept, and 2 is the count. *)
Lemma limitedWriter_Write_witness :
  buf (Write scenes.small_writer scenes.chunk).1 = [x61; x62; x63]
  /\ (Write scenes.small_writer scenes.chunk).2.1 = 2.
Proof.
  destruct (limitedWriter_Write_contract scenes.small_writer scenes.chunk)
    as (_ & _ & Hbuf & _ & Hn).
  - vm_compute. discriminate.
  - split; [rewrite Hbuf; reflexivity | exact Hn].
Defined.

End BackendScenes.

Section ExtractorScenes.
Import gostrings validator observe.

(** X12 at a text with a nested object between prose. *)
Lemma located_object_witness :
  locate_object "see {x{y}} ok" = inr "{x{y}}"%string
  /\ count_byte "{" "{x{y}}" = count_byte "}" "{x{y}}".
Proof.
  split; [reflexivity |].
  apply (located_object_is_balanced "see {x{y}} ok" "{x{y}}"). reflexivity.
Defined.

(** X13 at an object that is never closed. *)
Lemma no_closing_brace_witness :
  ExtractJSONFromOutput "{oops" = inl (Errorf "no matching closing brace found").
Proof.
  destruct (no_closing_brace_no_object "{oops") as [_ H].
  - reflexivity.
  - apply H. reflexivity.
Defined.

(** X14 at the object [{"a":1}] inside a sentence. *)
Lemma prose_around_object_witness :
  ExtractJSONFromOutput ("The result is " +:+ fake.json_a1 +:+ ", as asked.")
  = inr {["a"%string := json.Number "1"]}.
Proof.
  etransitivity.
  - apply (prose_around_object_is_ignored "The result is "
             (fake.dq +:+ "a" +:+ fake.dq +:+ ":1}") ", as asked.");
      reflexivity.
  - vm_compute. reflexivity.
Defined.

(** X15 at the same object in a fence, with prose before and behind. *)
Lemma json_fence_witness :
  ExtractJSONFromOutput
    ("Here it is: " +:+ "```json" +:+ (newline +:+ fake.json_a1 +:+ newline)
     +:+ "```" +:+ " Bye.")
  = inr {["a"%string := json.Number "1"]}.
Proof.
  etransitivity.
  - apply (json_fence_body_is_searched "Here it is: "
             (newline +:+ fake.json_a1 +:+ newline) " Bye."); reflexivity.
  - vm_compute. reflexivity.
Defined.

End ExtractorScenes.

Section CommandScenes.
Import world api cmd run observe.

Local Abbreviation added st st' := (drop (length (trace st)) (trace st')).

(** X16 on a Process with the tasks [c1] and [c3]: the first call creates
    the Process run [run-0], the last call completes it. *)
Lemma process_run_witness :
  exists (st' : St fake.Server) (mid : list Event)
         (creq : ExecutionCompleteRequest),
    runProcessExecution fake.env fake.globals 10 "proc"
      (fake.boot (fake.server ["c1"; "c3"]%string None)) = Some (None, st')
    /\ trace st'
       = CallStartExecution
           {| start_EntityID := "proc"; start_ExecutionMode := "PROCESS";
              start_AgentID := "agent-1" |}
         :: mid ++ [CallCompleteExecution "run-0" creq]
    /\ Status creq = ExecutionAttemptStatusSuccess.
Proof.
  destruct (runProcessExecution fake.env fake.globals 10 "proc"
              (fake.boot (fake.server ["c1"; "c3"]%string None)))
    as [[err st'] |] eqn:Hrun; [| vm_compute in Hrun; discriminate Hrun].
  assert (Herr : err = None).
  { vm_compute in Hrun. injection Hrun as <- _. reflexivity. }
  subst err.
  pose proof (process_run_is_bracketed fake.env fake.globals 10 "proc"
                (fake.boot (fake.server ["c1"; "c3"]%string None)) None st' Hrun)
    as H.
  cbv zeta in H. change (drop _ ?l) with l in H.
  destruct H as (mid & creq & Ht & Hs).
  exists st', mid, creq. split; [reflexivity |]. split; [exact Ht |].
  apply Hs. reflexivity.
Defined.

(** X17 on the same Process: the metric is at most the two Success
    completions of its tasks. *)
Lemma tasks_executed_witness :
  exists (n : Z) (st' : St fake.Server) (pre : list Event) (id : string)
         (creq : ExecutionCompleteRequest) (o : ExecutionOutputs),
    runProcessExecution fake.env fake.globals 10 "proc"
      (fake.boot (fake.server ["c1"; "c3"]%string None)) = Some (None, st')
    /\ trace st' = pre ++ [CallCompleteExecution id creq]
    /\ Outputs creq = Some o
    /\ Metrics o !! "tasks_executed"%string = Some (int_value n)
    /\ 0 <= n <= count_events is_success_completion pre.
Proof.
  destruct (runProcessExecution fake.env fake.globals 10 "proc"
              (fake.boot (fake.server ["c1"; "c3"]%string None)))
    as [[err st'] |] eqn:Hrun; [| vm_compute in Hrun; discriminate Hrun].
  assert (Herr : err = None).
  { vm_compute in Hrun. injection Hrun as <- _. reflexivity. }
  subst err.
  destruct (runProcessExecution_shape fake.env fake.globals _ _ _ _ _ Hrun)
    as [(msg & Hs & _) | (startResp & mid & ls & _ & Ht & _)];
    [discriminate Hs |].
  change (trace (fake.boot _) ++ ?l) with l in Ht.
  rewrite app_comm_cons in Ht.
  destruct (tasks_executed_metric_is_bounded fake.env fake.globals 10 "proc"
              (fake.boot (fake.server ["c1"; "c3"]%string None)) None st'
              _ _ _ Hrun Ht)
    as (n & o & Ho & Hm & H0 & Hs & _).
  exists n, st'. do 4 eexists.
  split; [reflexivity |]. split; [exact Ht |]. split; [exact Ho |].
  split; [exact Hm |]. split; [exact H0 | exact Hs].
Defined.

(** X18 on a loop that starts with an error on record and then executes
    the task [c1] with success. *)
Lemma recorded_error_witness :
  exists (ls' : LoopState) (st' : St fake.Server),
    process_loop fake.env fake.globals 10 "proc" scenes.failed_before
      (fake.boot (fake.server ["c1"]%string None)) = Some (ls', st')
    /\ fake.completions (trace st')
       = [("run-0"%string, ExecutionAttemptStatusSuccess, None)]
    /\ Status (process_completion ls') <> ExecutionAttemptStatusSuccess.
Proof.
  destruct (process_loop fake.env fake.globals 10 "proc" scenes.failed_before
              (fake.boot (fake.server ["c1"]%string None)))
    as [[ls' st'] |] eqn:Hloop; [| vm_compute in Hloop; discriminate Hloop].
  exists ls', st'. split; [reflexivity |]. split.
  - vm_compute in Hloop. injection Hloop as _ <-. reflexivity.
  - eapply (recorded_error_is_never_cleared fake.env fake.globals 10 "proc"
              scenes.failed_before); [| exact Hloop].
    eexists. reflexivity.
Defined.

(** X19 without credentials: no call, exit status 1. *)
Lemma credentials_witness :
  exists (f : Finished) (st' : St fake.Server),
    runExecute scenes.new_client scenes.empty_env scenes.no_flags 10 "c1"
      (fake.boot (fake.server [] None)) = Some (f, st')
    /\ trace st' = []
    /\ exit_status f = 1.
Proof.
  destruct (runExecute scenes.new_client scenes.empty_env scenes.no_flags 10 "c1"
              (fake.boot (fake.server [] None)))
    as [[f st'] |] eqn:Hrun; [| vm_compute in Hrun; discriminate Hrun].
  destruct (api_is_contacted_iff_credentials scenes.new_client scenes.empty_env
              scenes.no_flags 10 "c1" (fake.boot (fake.server [] None)) f st' Hrun)
    as (Hiff & Hexit & _).
  exists f, st'. split; [reflexivity |]. split.
  - apply Hiff. left. reflexivity.
  - apply Hexit. left. reflexivity.
Defined.

(** X20 on the Process [proc] with the task [c1], the credentials taken
    from the environment: the command ends with exit status 0, and its last
    call completed the Process run as Success. *)
Lemma exit_status_witness :
  exists (f : Finished) (st' : St fake.Server) (pre : list Event) (last : Event),
    runExecute scenes.new_client scenes.getenv scenes.no_flags 10 "proc"
      (fake.boot (scenes.server ["c1"]%string None)) = Some (f, st')
    /\ exit_status f = 0
    /\ trace st' = pre ++ [last]
    /\ (is_success_completion last = true
        \/ exists req : ExecutionStartRequest,
             last = CallStartExecution req
             /\ start_ExecutionMode req = ExecutionModeAskUser).
Proof.
  destruct (runExecute scenes.new_client scenes.getenv scenes.no_flags 10 "proc"
              (fake.boot (scenes.server ["c1"]%string None)))
    as [[f st'] |] eqn:Hrun; [| vm_compute in Hrun; discriminate Hrun].
  assert (Hf : exit_status f = 0).
  { vm_compute in Hrun. injection Hrun as <- _. reflexivity. }
  destruct (exit_status_zero_means_success scenes.new_client scenes.getenv
              scenes.no_flags 10 "proc"
              (fake.boot (scenes.server ["c1"]%string None)) f st' Hrun Hf)
    as (pre & last & Ht & Hlast).
  change (drop _ ?l) with l in Ht.
  exists f, st', pre, last.
  split; [reflexivity |]. split; [exact Hf |]. split; [exact Ht | exact Hlast].
Defined.

End CommandScenes.

Section LoopScenes.
Import world api cmd loop.

(** X21 on an agent with one task and a signal during its first
    sleep: the task is executed, the next query finds nothing, and the sleep
    is cut short. *)
Lemma poll_loop_witness :
  exists (st' : LoopSt fake.Server) (pre : list LoopEvent),
    poll_loop scenes.loop_env fake.globals 10 30
      (scenes.loop_boot (fake.server ["c1"]%string (Some 5))) = Some st'
    /\ ltrace st' = pre ++ [Slept 30 true]
    /\ length pre = 5%nat.
Proof.
  destruct (poll_loop scenes.loop_env fake.globals 10 30
              (scenes.loop_boot (fake.server ["c1"]%string (Some 5))))
    as [st' |] eqn:Hloop; [| vm_compute in Hloop; discriminate Hloop].
  destruct (poll_loop_returns_on_cancellation scenes.loop_env fake.globals 10 30
              (scenes.loop_boot (fake.server ["c1"]%string (Some 5))) st' Hloop)
    as (pre & last & Ht & Hlast & _).
  change (drop _ ?l) with l in Ht.
  exists st', pre. split; [reflexivity |].
  assert (Hlen : length (ltrace st') = 6%nat
                 /\ List.last (ltrace st') (Slept 0 false) = Slept 30 true).
  { vm_compute in Hloop. injection Hloop as <-. split; reflexivity. }
  destruct Hlen as [Hlen Hl]. rewrite Ht in Hlen, Hl.
  rewrite List.last_last in Hl. subst last.
  split; [exact Ht |].
  rewrite length_app in Hlen. simpl in Hlen. lia.
Defined.

(** X22 on the same run: its one sleep stands behind a task query. *)
Lemma idle_sleep_witness :
  exists st' : LoopSt fake.Server,
    poll_loop scenes.loop_env fake.globals 10 30
      (scenes.loop_boot (fake.server ["c1"]%string (Some 5))) = Some st'
    /\ sleeps_after_fetch None (ltrace st').
Proof.
  destruct (poll_loop scenes.loop_env fake.globals 10 30
              (scenes.loop_boot (fake.server ["c1"]%string (Some 5))))
    as [st' |] eqn:Hloop; [| vm_compute in Hloop; discriminate Hloop].
  destruct (loop_sleeps_only_when_idle scenes.loop_env fake.globals 10 30
              (scenes.loop_boot (fake.server ["c1"]%string (Some 5))) st' Hloop)
    as (Hs & _).
  change (drop _ ?l) with l in Hs.
  exists st'. split; [reflexivity | exact Hs].
Defined.

End LoopScenes.

Section RecoveryScenes.
Import api recovery observe.

(** X23 on the recovery answer that lists [run-a] twice. *)
Lemma only_orchestrate_witness :
  exists s : Sched,
    exec (initial example_resumed) example_schedule = Some s
    /\ sublist (launches s) (orchestrate_ids example_resumed).
Proof.
  destruct (exec (initial example_resumed) example_schedule)
    as [s |] eqn:Hexec; [| vm_compute in Hexec; discriminate Hexec].
  destruct (only_orchestrate_runs_are_resumed example_resumed example_schedule
              s Hexec)
    as (visited & Hres & Hsub & _).
  exists s. split; [reflexivity |].
  assert (Hrem : remaining s = []).
  { vm_compute in Hexec. injection Hexec as <-. reflexivity. }
  rewrite Hrem, app_nil_r in Hres. rewrite Hres. exact Hsub.
Defined.

(** X24 on a recovery answer with distinct runs: both [ORCHESTRATE] runs
    are resumed, the leaf run is not. *)
Lemma distinct_runs_witness :
  exists s : Sched,
    exec (initial scenes.distinct_resumed) scenes.distinct_schedule = Some s
    /\ launches s = ["run-a"; "run-b"]%string.
Proof.
  destruct (exec (initial scenes.distinct_resumed) scenes.distinct_schedule)
    as [s |] eqn:Hexec; [| vm_compute in Hexec; discriminate Hexec].
  destruct (distinct_runs_are_all_resumed scenes.distinct_resumed
              scenes.distinct_schedule s)
    as (_ & Hall).
  - apply (bool_decide_unpack _). vm_compute. exact I.
  - exact Hexec.
  - exists s. split; [reflexivity |]. rewrite Hall; [reflexivity |].
    vm_compute in Hexec. injection Hexec as <-. reflexivity.
Defined.

End RecoveryScenes.

Section InputScenes.
Import inputs.


End InputScenes.
